(** * bus1: ordered queue, quota accounting and handle life cycle

    A shallow embedding of [ipc/bus1/queue.c], [ipc/bus1/user.c] and
    [ipc/bus1/handle.c].

    Conventions of the embedding:
    - addresses of kernel objects are [positive] numbers; a C pointer that
      may be NULL is an [option];
    - fixed-width unsigned integers are [Z], with the wrap-around written
      out where the source performs arithmetic on them;
    - the code is modelled sequentially: peer locks, RCU sections and
      sequence counters are not represented. *)

From Stdlib Require Import ZArith Lia.
From stdpp Require Import base option list sorting gmap.

Local Open Scope Z_scope.

Definition ptr := positive.

(** [atomic_t] and [kref] counters are 32-bit signed integers that wrap in
    two's complement; [int32] is also the conversion of a wider value to
    [int]. *)
Definition int32 (x : Z) : Z := (x + 2 ^ 31) mod 2 ^ 32 - 2 ^ 31.

(** ** The queue of [queue.c] *)

Module Queue.

(** [struct bus1_queue_entry]: the embedded tree link is the identity of the
    entry ([entry_ptr]), [seq] is its sequence number.  The slice and the
    file array play no role in the ordering and are left out. *)
Record bus1_queue_entry := mkEntry { entry_ptr : ptr; seq : Z }.

(** The kernel's red-black tree, without the colours: the balancing done by
    [rb_insert_color] and [rb_erase] changes the shape of the tree and
    nothing else, and every statement below is about the in-order sequence
    of a tree of any shape. *)
Inductive rb_tree :=
| RB_LEAF
| RB_NODE (l : rb_tree) (e : bus1_queue_entry) (r : rb_tree).

Fixpoint inorder (t : rb_tree) : list bus1_queue_entry :=
  match t with
  | RB_LEAF => []
  | RB_NODE l e r => inorder l ++ e :: inorder r
  end.

(** [struct bus1_queue]: [front] is the RCU-published pointer to the first
    entry that is ready to be dequeued. *)
Record bus1_queue := mkQueue { messages : rb_tree; front : option ptr }.

(** [bus1_queue_init_internal] *)
Definition bus1_queue_init : bus1_queue :=
  {| messages := RB_LEAF; front := None |}.

(** [seq & 1]: the entry is still staging. *)
Definition staging (s : Z) : bool := negb (Z.land s 1 =? 0).

Definition has_ptr (p : ptr) (e : bus1_queue_entry) : bool :=
  bool_decide (entry_ptr e = p).

(** The entry structure a linked tree link belongs to; [None] stands for
    [RB_EMPTY_NODE(&entry->rb)]. *)
Definition rb_find (t : rb_tree) (p : ptr) : option bus1_queue_entry :=
  List.find (has_ptr p) (inorder t).

(** [rb_first]: the leftmost entry. *)
Definition rb_first (t : rb_tree) : option bus1_queue_entry :=
  head (inorder t).

Fixpoint list_next (l : list bus1_queue_entry) (p : ptr)
  : option bus1_queue_entry :=
  match l with
  | [] => None
  | x :: l' => if has_ptr p x then head l' else list_next l' p
  end.

(** [rb_next]: the in-order successor, NULL after the last entry. *)
Definition rb_next (t : rb_tree) (p : ptr) : option bus1_queue_entry :=
  list_next (inorder t) p.

Fixpoint rb_join (l r : rb_tree) : rb_tree :=
  match l with
  | RB_LEAF => r
  | RB_NODE a x b => RB_NODE a x (rb_join b r)
  end.

(** [rb_erase]: take the node at address [p] out of the tree. *)
Fixpoint rb_erase (p : ptr) (t : rb_tree) : rb_tree :=
  match t with
  | RB_LEAF => RB_LEAF
  | RB_NODE l x r =>
      if has_ptr p x then rb_join l r
      else RB_NODE (rb_erase p l) x (rb_erase p r)
  end.

(** The descent of [bus1_queue_link]: walk down to the free slot, going left
    on [entry->seq < iter->seq] and right otherwise; the flag is
    [is_leftmost], cleared as soon as the walk goes right once. *)
Fixpoint link_slot (t : rb_tree) (e : bus1_queue_entry) : rb_tree * bool :=
  match t with
  | RB_LEAF => (RB_NODE RB_LEAF e RB_LEAF, true)
  | RB_NODE l iter r =>
      if seq e <? seq iter then
        let '(l', is_leftmost) := link_slot l e in
        (RB_NODE l' iter r, is_leftmost)
      else
        let '(r', _) := link_slot r e in
        (RB_NODE l iter r', false)
  end.

(** [bus1_queue_link] *)
Definition bus1_queue_link (q : bus1_queue) (e : bus1_queue_entry)
  : bus1_queue * bool :=
  match rb_find (messages q) (entry_ptr e) with
  | Some _ => (q, false)                      (* WARN_ON: already linked *)
  | None =>
      let '(t, is_leftmost) := link_slot (messages q) e in
      let front' :=
        if is_leftmost && negb (staging (seq e))
        then Some (entry_ptr e) else front q in
      ({| messages := t; front := front' |},
       is_leftmost && negb (staging (seq e)))
  end.

(** Outcome of an operation that may dereference a NULL pointer. *)
Inductive result (A : Type) :=
| Ok (a : A)
| NullDeref.
Arguments Ok {A} a.
Arguments NullDeref {A}.

(** [bus1_queue_unlink].  In the front branch the source reads
    [bus1_queue_entry(rb_next(node))->seq] without testing the successor.
    [bus1_queue_entry] maps NULL to NULL ([bus1_queue_peek] relies on it to
    return NULL for an unset front), so when there is no successor the read
    goes through NULL. *)
Definition bus1_queue_unlink (q : bus1_queue) (entry : option ptr)
  : result (bus1_queue * bool) :=
  match entry with
  | None => Ok (q, false)
  | Some p =>
      match rb_find (messages q) p with
      | None => Ok (q, false)
      | Some e =>
          let ready (node : option bus1_queue_entry) :=
            match node with
            | Some n => negb (staging (seq n))
            | None => false
            end in
          if decide (front q = Some p) then
            match rb_next (messages q) p with
            | None => NullDeref
            | Some nx =>
                let node := if staging (seq nx) then None else Some nx in
                Ok ({| messages := rb_erase p (messages q);
                       front := entry_ptr <$> node |},
                    staging (seq e) && ready node)
            end
          else
            let node : option bus1_queue_entry := None in
            Ok ({| messages := rb_erase p (messages q); front := front q |},
                staging (seq e) && ready node)
      end
  end.

(** The queue in the middle of [bus1_queue_relink]: the entry is out of the
    tree, the front pointer has not been touched. *)
Definition relink_erased (q : bus1_queue) (p : ptr) : bus1_queue :=
  {| messages := rb_erase p (messages q); front := front q |}.

(** [bus1_queue_relink] *)
Definition bus1_queue_relink (q : bus1_queue) (p : ptr) (s : Z)
  : bus1_queue * bool :=
  match rb_find (messages q) p with
  | None => (q, false)
  | Some e =>
      if (s =? 0) || negb (staging (seq e)) then (q, false)
      else
        let front0 := front q in
        let q2 := fst (bus1_queue_link (relink_erased q p)
                         {| entry_ptr := p; seq := s |}) in
        (q2, negb (bool_decide (is_Some front0))
             && bool_decide (is_Some (front q2)))
  end.

(** [bus1_queue_flush]; releasing the slices to the pool is not modelled. *)
Definition bus1_queue_flush (q : bus1_queue) : bus1_queue :=
  match messages q with
  | RB_LEAF => q
  | RB_NODE _ _ _ => {| messages := RB_LEAF; front := None |}
  end.

(** [bus1_queue_peek] *)
Definition bus1_queue_peek (q : bus1_queue) : option ptr := front q.

(** *** Well-formed queues *)

Definition seq_le (a b : bus1_queue_entry) : Prop := seq a <= seq b.

(** The tree is a search tree on [seq] and no entry is linked twice. *)
Definition queue_wf (q : bus1_queue) : Prop :=
  StronglySorted seq_le (inorder (messages q)) /\
  NoDup (entry_ptr <$> inorder (messages q)).


(** The front pointer is NULL, exclusive or it points to the leftmost entry
    and that entry has an even [seq]. *)
Definition front_at_leftmost (q : bus1_queue) : Prop :=
  exists e, front q = Some (entry_ptr e) /\
            rb_first (messages q) = Some e /\ Z.even (seq e) = true.

Definition front_null_xor_leftmost (q : bus1_queue) : Prop :=
  (front q = None \/ front_at_leftmost q) /\
  ~ (front q = None /\ front_at_leftmost q).

(** The invariant kept by the queue operations. *)
Definition queue_inv (q : bus1_queue) : Prop :=
  queue_wf q /\ (front q = None \/ front_at_leftmost q).

(** The entries that stay when the entry at address [p] is erased. *)
Definition other (p : ptr) (e : bus1_queue_entry) : Prop := entry_ptr e <> p.

(** A link respects the order of the queue when it does not put a staging
    entry in front of the entry the front pointer refers to. *)
Definition link_keeps_order (q : bus1_queue) (e : bus1_queue_entry) : Prop :=
  (link_slot (messages q) e).2 = true -> staging (seq e) = true ->
  front q = None.

Definition any_link (q : bus1_queue) (e : bus1_queue_entry) : Prop := True.

(** One call of the queue interface that returns, or a rebalancing of the
    tree.  [G] restricts the links that callers perform. *)
Inductive queue_step (G : bus1_queue -> bus1_queue_entry -> Prop)
  : bus1_queue -> bus1_queue -> Prop :=
| step_link q e :
    G q e -> queue_step G q (bus1_queue_link q e).1
| step_unlink q p q' b :
    bus1_queue_unlink q p = Ok (q', b) -> queue_step G q q'
| step_relink q p s :
    G (relink_erased q p) {| entry_ptr := p; seq := s |} ->
    queue_step G q (bus1_queue_relink q p s).1
| step_flush q :
    queue_step G q (bus1_queue_flush q)
| step_rebalance q t :
    inorder t = inorder (messages q) ->
    queue_step G q {| messages := t; front := front q |}.

Definition reachable (G : bus1_queue -> bus1_queue_entry -> Prop)
  : bus1_queue -> Prop := rtc (queue_step G) bus1_queue_init.

(** Entries and queues used in the examples. *)
Definition entry_a (s : Z) : bus1_queue_entry := mkEntry 1%positive s.
Definition entry_b (s : Z) : bus1_queue_entry := mkEntry 2%positive s.

(** One committed entry, which is the front. *)
Definition queue_single : bus1_queue :=
  (bus1_queue_link bus1_queue_init (entry_a 2)).1.

(** A staging entry followed by a committed one. *)
Definition queue_staged (s_staging s_committed : Z) : bus1_queue :=
  (bus1_queue_link (bus1_queue_link bus1_queue_init (entry_a s_staging)).1
                   (entry_b s_committed)).1.

(** A committed entry, then a staging entry linked in front of it. *)
Definition queue_disordered : bus1_queue :=
  (bus1_queue_link (bus1_queue_link bus1_queue_init (entry_a 4)).1
                   (entry_b 3)).1.

(** *** Destruction and the state the callers rely on *)

(** [bus1_queue_destroy]: a no-op that only checks the queue.  The result
    tells whether one of its two [WARN_ON]s fires: the tree still has a
    root, or the front pointer is still set. *)
Definition bus1_queue_destroy (q : bus1_queue) : bool :=
  match messages q with
  | RB_LEAF => false
  | RB_NODE _ _ _ => true
  end || bool_decide (is_Some (front q)).

(** The front pointer, when set, refers to a linked entry that is ready to
    be dequeued. *)
Definition front_is_ready (q : bus1_queue) : Prop :=
  forall p, front q = Some p ->
    exists e, rb_find (messages q) p = Some e /\ staging (seq e) = false.

(** What every sequence of calls keeps, whatever the callers link. *)
Definition queue_safe (q : bus1_queue) : Prop :=
  queue_wf q /\ front_is_ready q.

End Queue.

(** ** Quota accounting of [user.c] *)

Module Quota.

(** [size_t] arithmetic wraps at 64 bits, [unsigned int] at 32. *)
Definition size_t (x : Z) : Z := x mod 2 ^ 64.
Definition uint (x : Z) : Z := x mod 2 ^ 32.

Definition EDQUOT : Z := 122.
Definition ENOMEM : Z := 12.

(** [struct bus1_user]: the per-user global budgets are [atomic_t]
    counters of remaining units.  The [max_*] fields are not used by the
    charge. *)
Record bus1_user := mkUser {
  user_id : Z;
  u_n_messages : Z;
  u_n_handles : Z;
  u_n_fds : Z }.

(** [struct bus1_user_stats]: what one user has charged on one peer. *)
Record bus1_user_stats := mkStats {
  s_n_allocated : Z;
  s_n_messages : Z;
  s_n_handles : Z;
  s_n_fds : Z }.

Definition stats_zero : bus1_user_stats := mkStats 0 0 0 0.

(** The quota part of [struct bus1_peer_info].  The array
    [quota.stats] of [quota.n_stats] elements is a list.  The widths of the
    local counters and of the shares are declared in [peer.h] and [user.h],
    which are not part of the sources at hand; they are kept as integers. *)
Record bus1_peer_info := mkPeerInfo {
  n_allocated : Z;
  n_messages : Z;
  n_handles : Z;
  n_fds : Z;
  quota_stats : list bus1_user_stats }.

(** [ALIGN(x, 8)] on an [unsigned int]. *)
Definition ALIGN8 (x : Z) : Z :=
  Z.land (uint (x + 7)) (uint (Z.lnot 7)).

(** [bus1_user_quota_query]: grow the array so that it covers [user->id],
    zero the new tail, and return the slot of the user.  [alloc_ok] says
    whether [krealloc] succeeds; [None] is [ERR_PTR(-ENOMEM)]. *)
Definition bus1_user_quota_query (alloc_ok : bool)
    (stats : list bus1_user_stats) (user : bus1_user)
  : option (list bus1_user_stats) :=
  if Z.of_nat (length stats) <=? user_id user then
    let n := Z.max (uint (ALIGN8 (user_id user) + 8)) (user_id user) in
    if alloc_ok then
      Some (stats ++ replicate (Z.to_nat n - length stats)%nat stats_zero)
    else None
  else Some stats.

(** Modelled from the spec: [bus1_atomic_sub_if_ge] is declared in [util.h],
    which is not part of the sources at hand.  Per the specification it is an
    atomic compare-and-decrement: subtract [sub] if the counter is at least
    the threshold [t], and tell whether it did. *)
Definition bus1_atomic_sub_if_ge (a sub t : Z) : Z * bool :=
  if t <=? a then (a - sub, true) else (a, false).

(** [bus1_user_quota_charge_one]; the new value of [*global] is returned
    next to the error code. *)
Definition bus1_user_quota_charge_one (global : option Z)
    (local share charge : Z) : Z * option Z :=
  if (local <? charge) || (size_t (local - charge) <? size_t (share + charge))
  then (- EDQUOT, global)
  else
    match global with
    | None => (0, None)
    | Some g =>
        let '(g', ok) :=
          bus1_atomic_sub_if_ge g charge
            (size_t (share + size_t (charge * 2))) in
        if ok then (0, Some g') else (- EDQUOT, Some g)
    end.

Definition global_of (r : Z * option Z) (old : Z) : Z :=
  default old (snd r).

(** [bus1_user_quota_charge].  The outer [option] is [None] when the slot
    [quota->stats + user->id] lies outside the array. *)
Definition bus1_user_quota_charge (alloc_ok : bool)
    (peer_info : bus1_peer_info) (user : bus1_user)
    (size n_hdl n_fd : Z)
  : option (Z * bus1_peer_info * bus1_user) :=
  match bus1_user_quota_query alloc_ok (quota_stats peer_info) user with
  | None => Some (- ENOMEM, peer_info, user)
  | Some arr =>
      let idx := Z.to_nat (user_id user) in
      match arr !! idx with
      | None => None
      | Some stats =>
          let peer1 :=
            mkPeerInfo (n_allocated peer_info) (n_messages peer_info)
                       (n_handles peer_info) (n_fds peer_info) arr in
          let r1 := bus1_user_quota_charge_one None
                      (n_allocated peer1) (s_n_allocated stats) size in
          if fst r1 <? 0 then Some (fst r1, peer1, user)
          else
            let r2 := bus1_user_quota_charge_one (Some (u_n_messages user))
                        (n_messages peer1) (s_n_messages stats) 1 in
            if fst r2 <? 0 then
              (* error_allocated *)
              Some (fst r2, peer1, user)
            else
              let user2 :=
                mkUser (user_id user) (global_of r2 (u_n_messages user))
                       (u_n_handles user) (u_n_fds user) in
              let r3 := bus1_user_quota_charge_one (Some (u_n_handles user2))
                          (n_handles peer1) (s_n_handles stats) n_hdl in
              if fst r3 <? 0 then
                (* error_messages *)
                Some (fst r3, peer1,
                      mkUser (user_id user2) (int32 (u_n_messages user2 + 1))
                             (u_n_handles user2) (u_n_fds user2))
              else
                let user3 :=
                  mkUser (user_id user2) (u_n_messages user2)
                         (global_of r3 (u_n_handles user2)) (u_n_fds user2) in
                let r4 := bus1_user_quota_charge_one (Some (u_n_fds user3))
                            (n_fds peer1) (s_n_fds stats) n_fd in
                if fst r4 <? 0 then
                  (* error_handles, then error_messages *)
                  Some (fst r4, peer1,
                        mkUser (user_id user3)
                               (int32 (u_n_messages user3 + 1))
                               (int32 (u_n_handles user3 + int32 n_hdl))
                               (u_n_fds user3))
                else
                  let user4 :=
                    mkUser (user_id user3) (u_n_messages user3)
                           (u_n_handles user3)
                           (global_of r4 (u_n_fds user3)) in
                  (* charge the local quotas *)
                  let stats' :=
                    mkStats (s_n_allocated stats + size)
                            (s_n_messages stats + 1)
                            (s_n_handles stats + n_hdl)
                            (s_n_fds stats + n_fd) in
                  Some (0,
                        mkPeerInfo (n_allocated peer1 - size)
                                   (n_messages peer1 - 1)
                                   (n_handles peer1 - n_hdl)
                                   (n_fds peer1 - n_fd)
                                   (<[idx := stats']> arr),
                        user4)
      end
  end.

(** The share of user [i] recorded in the array; a user beyond the end of
    the array has charged nothing yet. *)
Definition stats_at (arr : list bus1_user_stats) (i : nat) : bus1_user_stats :=
  default stats_zero (arr !! i).

(** Ranges under which the [size_t] expressions of one charge do not wrap:
    the charges are [size_t] values, and a share never exceeds what is
    missing from the remaining local budget, so that their sum is a
    [size_t] value as well.  The global counters are [int] values. *)
Definition budget_in_range (local share : Z) : Prop :=
  0 <= local /\ 0 <= share /\ share + local < 2 ^ 64.

Definition is_int (x : Z) : Prop := - 2 ^ 31 <= x < 2 ^ 31.

Record charge_in_range (peer_info : bus1_peer_info) (user : bus1_user)
    (st : bus1_user_stats) (size n_hdl n_fd : Z) : Prop := {
  rng_user :
    is_int (u_n_messages user) /\ is_int (u_n_handles user) /\
    is_int (u_n_fds user);
  rng_size : 0 <= size < 2 ^ 64;
  rng_hdl : 0 <= n_hdl < 2 ^ 64;
  rng_fd : 0 <= n_fd < 2 ^ 64;
  rng_allocated : budget_in_range (n_allocated peer_info) (s_n_allocated st);
  rng_messages : budget_in_range (n_messages peer_info) (s_n_messages st);
  rng_handles : budget_in_range (n_handles peer_info) (s_n_handles st);
  rng_fds : budget_in_range (n_fds peer_info) (s_n_fds st) }.

(** The condition of the specification for one resource. *)
Definition within_budget (global : option Z) (local share charge : Z) : Prop :=
  local >= share + 2 * charge /\
  match global with
  | Some g => g >= share + 2 * charge
  | None => True
  end.

(** A peer and a user for the examples: 100 bytes and 10 messages, handles
    and file descriptors left on the peer, 10 of each left for the user. *)
Definition peer_example : bus1_peer_info := mkPeerInfo 100 10 10 10 [].
Definition user_example (fds : Z) : bus1_user := mkUser 3 10 10 fds.

(** *** Giving back and committing a charge *)

(** [bus1_user_quota_init]: no array yet. *)
Definition bus1_user_quota_init : list bus1_user_stats := [].

(** [bus1_user_quota_destroy]: free the array and initialise again; a NULL
    quota object is left alone. *)
Definition bus1_user_quota_destroy (quota : option (list bus1_user_stats))
  : option (list bus1_user_stats) :=
  match quota with
  | None => None
  | Some _ => Some bus1_user_quota_init
  end.

(** [bus1_user_quota_discharge].  When the slot cannot be obtained the
    function returns without touching anything.  As in the charge, the
    outer [option] is [None] when the slot lies outside the array, and the
    local counters are kept as integers. *)
Definition bus1_user_quota_discharge (alloc_ok : bool)
    (peer_info : bus1_peer_info) (user : bus1_user)
    (size n_hdl n_fd : Z)
  : option (bus1_peer_info * bus1_user) :=
  match bus1_user_quota_query alloc_ok (quota_stats peer_info) user with
  | None => Some (peer_info, user)
  | Some arr =>
      let idx := Z.to_nat (user_id user) in
      match arr !! idx with
      | None => None
      | Some stats =>
          let stats' :=
            mkStats (s_n_allocated stats - size)
                    (s_n_messages stats - 1)
                    (s_n_handles stats - n_hdl)
                    (s_n_fds stats - n_fd) in
          Some (mkPeerInfo (n_allocated peer_info + size)
                           (n_messages peer_info + 1)
                           (n_handles peer_info + n_hdl)
                           (n_fds peer_info + n_fd)
                           (<[idx := stats']> arr),
                mkUser (user_id user)
                       (int32 (u_n_messages user + 1))
                       (int32 (u_n_handles user + int32 n_hdl))
                       (int32 (u_n_fds user + int32 n_fd)))
      end
  end.

(** [bus1_user_quota_commit]: the in-flight share is taken off the slot;
    the peer keeps the charge, and only the file descriptors go back to the
    user's global budget. *)
Definition bus1_user_quota_commit (alloc_ok : bool)
    (peer_info : bus1_peer_info) (user : bus1_user)
    (size n_hdl n_fd : Z)
  : option (bus1_peer_info * bus1_user) :=
  match bus1_user_quota_query alloc_ok (quota_stats peer_info) user with
  | None => Some (peer_info, user)
  | Some arr =>
      let idx := Z.to_nat (user_id user) in
      match arr !! idx with
      | None => None
      | Some stats =>
          let stats' :=
            mkStats (s_n_allocated stats - size)
                    (s_n_messages stats - 1)
                    (s_n_handles stats - n_hdl)
                    (s_n_fds stats - n_fd) in
          Some (mkPeerInfo (n_allocated peer_info) (n_messages peer_info)
                           (n_handles peer_info) (n_fds peer_info)
                           (<[idx := stats']> arr),
                mkUser (user_id user) (u_n_messages user) (u_n_handles user)
                       (int32 (u_n_fds user + int32 n_fd)))
      end
  end.

(** A user with room in every budget, for the examples. *)
Definition user_rich : bus1_user := mkUser 3 10 10 10.

End Quota.

(** ** Handles and nodes of [handle.c] *)

Module Handle.

(** [u64] arithmetic wraps at 64 bits. *)
Definition u64 (x : Z) : Z := x mod 2 ^ 64.

(** Modelled from the spec: [BUS1_HANDLE_INVALID] is declared in
    [uapi/linux/bus1.h], which is not part of the sources at hand; the
    specification gives it as the all-ones 64-bit id. *)
Definition BUS1_HANDLE_INVALID : Z := 2 ^ 64 - 1.

Definition ENXIO : Z := 6.
Definition ESTALE : Z := 116.

(** [struct bus1_handle].  [rb_linked] is [!RB_EMPTY_NODE(&rb_node)];
    membership in the node's list is kept in the node. *)
Record bus1_handle := mkHandle {
  rb_linked : bool;
  node : ptr;
  id : Z;
  holder : option ptr;
  ref : Z;
  n_inflight : Z;
  n_user : Z }.

(** [struct bus1_handle_node].  The owner handle is embedded in the node:
    its address is a fixed offset from the address of the node, which
    [owner_of] stands for. *)
Record bus1_handle_node := mkNode {
  node_ref : Z;
  list_handles : list ptr;
  timestamp : Z }.

Definition owner_of (n : ptr) : ptr := (n~1)%positive.

(** What [handle.c] uses of a peer: whether [bus1_peer_acquire] succeeds,
    the two lookup trees (as their in-order sequences of key and handle)
    and the id allocator. *)
Record bus1_peer := mkPeer {
  active : bool;
  map_handles_by_id : list (Z * ptr);
  map_handles_by_node : list (ptr * ptr);
  handle_ids : Z }.

Record world := mkWorld {
  handles : gmap ptr bus1_handle;
  nodes : gmap ptr bus1_handle_node;
  peers : gmap ptr bus1_peer }.

(** *** A state and fault monad over the kernel memory *)

Definition M (A : Type) : Type := world -> option (A * world).

#[global] Instance M_ret : MRet M := fun A a w => Some (a, w).
#[global] Instance M_bind : MBind M := fun A B f m w =>
  match m w with
  | Some (a, w') => f a w'
  | None => None
  end.

(** Access through a pointer to memory that is not allocated. *)
Definition fault {A} : M A := fun _ => None.

Definition get_handle (h : ptr) : M bus1_handle := fun w =>
  match handles w !! h with Some hr => Some (hr, w) | None => None end.
Definition get_node (n : ptr) : M bus1_handle_node := fun w =>
  match nodes w !! n with Some nr => Some (nr, w) | None => None end.
Definition get_peer (p : ptr) : M bus1_peer := fun w =>
  match peers w !! p with Some pr => Some (pr, w) | None => None end.

Definition upd_handle (h : ptr) (f : bus1_handle -> bus1_handle) : M unit :=
  fun w =>
  match handles w !! h with
  | Some hr => Some (tt, mkWorld (<[h := f hr]> (handles w)) (nodes w) (peers w))
  | None => None
  end.
Definition upd_node (n : ptr) (f : bus1_handle_node -> bus1_handle_node)
  : M unit := fun w =>
  match nodes w !! n with
  | Some nr => Some (tt, mkWorld (handles w) (<[n := f nr]> (nodes w)) (peers w))
  | None => None
  end.
Definition upd_peer (p : ptr) (f : bus1_peer -> bus1_peer) : M unit :=
  fun w =>
  match peers w !! p with
  | Some pr => Some (tt, mkWorld (handles w) (nodes w) (<[p := f pr]> (peers w)))
  | None => None
  end.

Definition set_rb_linked (b : bool) (hr : bus1_handle) : bus1_handle :=
  mkHandle b (node hr) (id hr) (holder hr) (ref hr) (n_inflight hr) (n_user hr).
Definition set_id (v : Z) (hr : bus1_handle) : bus1_handle :=
  mkHandle (rb_linked hr) (node hr) v (holder hr) (ref hr) (n_inflight hr)
           (n_user hr).
Definition set_holder (p : option ptr) (hr : bus1_handle) : bus1_handle :=
  mkHandle (rb_linked hr) (node hr) (id hr) p (ref hr) (n_inflight hr)
           (n_user hr).
Definition set_ref (v : Z) (hr : bus1_handle) : bus1_handle :=
  mkHandle (rb_linked hr) (node hr) (id hr) (holder hr) v (n_inflight hr)
           (n_user hr).
Definition set_n_inflight (v : Z) (hr : bus1_handle) : bus1_handle :=
  mkHandle (rb_linked hr) (node hr) (id hr) (holder hr) (ref hr) v (n_user hr).
Definition set_n_user (v : Z) (hr : bus1_handle) : bus1_handle :=
  mkHandle (rb_linked hr) (node hr) (id hr) (holder hr) (ref hr)
           (n_inflight hr) v.

Definition set_node_ref (v : Z) (nr : bus1_handle_node) : bus1_handle_node :=
  mkNode v (list_handles nr) (timestamp nr).
Definition set_list_handles (l : list ptr) (nr : bus1_handle_node)
  : bus1_handle_node := mkNode (node_ref nr) l (timestamp nr).
Definition set_timestamp (v : Z) (nr : bus1_handle_node) : bus1_handle_node :=
  mkNode (node_ref nr) (list_handles nr) v.

(** Lookup in a tree by key, and removal of the link of one handle. *)
Fixpoint tree_find {K} `{EqDecision K} (k : K) (t : list (K * ptr))
  : option ptr :=
  match t with
  | [] => None
  | (k', h) :: t' => if decide (k = k') then Some h else tree_find k t'
  end.

Definition tree_erase {K} (h : ptr) (t : list (K * ptr)) : list (K * ptr) :=
  filter (fun kv => kv.2 <> h) t.

(** The slot found by the descent on node addresses. *)
Fixpoint node_insert (n h : ptr) (t : list (ptr * ptr)) : list (ptr * ptr) :=
  match t with
  | [] => [(n, h)]
  | (n', h') :: t' =>
      if (n <? n')%positive then (n, h) :: t
      else (n', h') :: node_insert n h t'
  end.

(** *** Reference counting *)

Definition bus1_handle_is_owner (h : ptr) (hr : bus1_handle) : bool :=
  bool_decide (h = owner_of (node hr)).

(** [bus1_handle_node_free]: the node memory, with the embedded owner. *)
Definition bus1_handle_node_free (n : ptr) : M unit := fun w =>
  Some (tt, mkWorld (delete (owner_of n) (handles w)) (delete n (nodes w))
                    (peers w)).

Definition kfree_handle (h : ptr) : M unit := fun w =>
  Some (tt, mkWorld (delete h (handles w)) (nodes w) (peers w)).

(** [bus1_handle_destroy]: drop the reference the handle has on its node. *)
Definition bus1_handle_destroy (h : ptr) : M unit :=
  hr ← get_handle h;
  nr ← get_node (node hr);
  let r := int32 (node_ref nr - 1) in
  upd_node (node hr) (set_node_ref r);;
  if r =? 0 then bus1_handle_node_free (node hr) else mret tt.

(** [bus1_handle_free] *)
Definition bus1_handle_free (h : ptr) : M unit :=
  hr ← get_handle h;
  let is_owner := bus1_handle_is_owner h hr in
  bus1_handle_destroy h;;
  if is_owner then mret tt else kfree_handle h.

(** [bus1_handle_ref] *)
Definition bus1_handle_ref (h : ptr) : M unit :=
  upd_handle h (fun hr => set_ref (int32 (ref hr + 1)) hr).

(** [bus1_handle_unref] *)
Definition bus1_handle_unref (h : ptr) : M unit :=
  hr ← get_handle h;
  let r := int32 (ref hr - 1) in
  upd_handle h (set_ref r);;
  if r =? 0 then bus1_handle_free h else mret tt.

(** [bus1_peer_acquire] on a possibly NULL peer pointer. *)
Definition bus1_peer_acquire (p : option ptr) : M (option ptr) :=
  match p with
  | None => mret None
  | Some p' => pr ← get_peer p'; mret (if active pr then Some p' else None)
  end.

(** [bus1_handle_lock_holder] and [bus1_handle_lock_owner] *)
Definition bus1_handle_lock_holder (h : ptr) : M (option ptr) :=
  hr ← get_handle h; bus1_peer_acquire (holder hr).

Definition bus1_handle_lock_owner (h : ptr) : M (option ptr) :=
  hr ← get_handle h;
  or ← get_handle (owner_of (node hr));
  bus1_peer_acquire (holder or).

(** [bus1_handle_unlink_rb] *)
Definition bus1_handle_unlink_rb (h p : ptr) : M unit :=
  hr ← get_handle h;
  if rb_linked hr then
    upd_peer p (fun pr =>
      mkPeer (active pr) (tree_erase h (map_handles_by_id pr))
             (tree_erase h (map_handles_by_node pr)) (handle_ids pr));;
    bus1_handle_unref h
  else mret tt.

(** [list_del_init(&handle->link_node)] on the list of the node. *)
Definition list_del_init (h n : ptr) : M unit :=
  upd_node n (fun nr =>
    set_list_handles (filter (fun x => x <> h) (list_handles nr)) nr).

(** [bus1_handle_commit_destruction]; [lst] is the caller's list.  Run
    sequentially, the loop that drains the node's list has one round. *)
Definition bus1_handle_commit_destruction (h p : ptr) (lst : list ptr)
  : M (list ptr) :=
  hr ← get_handle h;
  let n := node hr in
  upd_node n (set_timestamp 1);;
  list_del_init h n;;
  bus1_handle_unref h;;
  nr ← get_node n;
  upd_node n (set_list_handles []);;
  upd_node n (set_timestamp 2);;
  upd_handle h (set_holder None);;
  bus1_handle_unlink_rb h p;;
  mret (lst ++ list_handles nr).

(** [bus1_handle_finalize_destruction] *)
Fixpoint bus1_handle_finalize_destruction (lst : list ptr) : M unit :=
  match lst with
  | [] => mret tt
  | h :: lst' =>
      remote ← bus1_handle_lock_holder h;
      hr ← get_handle h;
      match remote, holder hr with
      | Some rp, Some _ =>
          upd_handle h (set_holder None);; bus1_handle_unlink_rb h rp
      | _, _ => mret tt
      end;;
      bus1_handle_unref h;;
      bus1_handle_finalize_destruction lst'
  end.

(** [bus1_handle_release_owner] *)
Definition bus1_handle_release_owner (h p : ptr) : M unit :=
  hr ← get_handle h;
  let v := int32 (n_inflight hr - 1) in
  upd_handle h (set_n_inflight v);;
  if negb (v =? 0) then mret tt
  else
    nr ← get_node (node hr);
    if timestamp nr =? 0 then
      list_del_init h (node hr);;
      nr' ← get_node (node hr);
      match list_handles nr' with
      | [] =>
          lst ← bus1_handle_commit_destruction h p [];
          bus1_handle_finalize_destruction lst
      | _ :: _ => mret tt
      end
    else mret tt.

(** [bus1_handle_release_holder] *)
Definition bus1_handle_release_holder (h p : ptr) : M unit :=
  hr ← get_handle h;
  let v := int32 (n_inflight hr - 1) in
  upd_handle h (set_n_inflight v);;
  if negb (v =? 0) then mret tt
  else
    match holder hr with
    | None => mret tt                      (* someone else was faster *)
    | Some _ =>
        upd_handle h (set_holder None);;
        bus1_handle_unlink_rb h p;;
        remote ← bus1_handle_lock_owner h;
        match remote with
        | None => mret tt
        | Some rp =>
            nr ← get_node (node hr);
            if timestamp nr =? 0 then
              list_del_init h (node hr);;
              bus1_handle_unref h;;
              nr' ← get_node (node hr);
              match list_handles nr' with
              | [] =>
                  lst ← bus1_handle_commit_destruction
                          (owner_of (node hr)) rp [];
                  bus1_handle_finalize_destruction lst
              | _ :: _ => mret tt
              end
            else mret tt
        end
    end.

(** [bus1_handle_release_last] *)
Definition bus1_handle_release_last (h p : ptr) : M unit :=
  hr ← get_handle h;
  if bus1_handle_is_owner h hr then bus1_handle_release_owner h p
  else bus1_handle_release_holder h p.

(** [bus1_handle_is_public] and [bus1_handle_has_id] *)
Definition bus1_handle_is_public (hr : bus1_handle) : bool :=
  0 <=? n_inflight hr.

Definition bus1_handle_has_id (hr : bus1_handle) : bool :=
  negb (id hr =? BUS1_HANDLE_INVALID).

(** [bus1_handle_acquire] *)
Definition bus1_handle_acquire (h : ptr) : M (option ptr) :=
  hr ← get_handle h;
  if negb (bus1_handle_is_public hr) then mret None
  else if negb (n_inflight hr =? 0) then
    upd_handle h (set_n_inflight (int32 (n_inflight hr + 1)));;
    mret (Some h)
  else if bus1_handle_is_owner h hr then
    upd_handle h (set_n_inflight (int32 (n_inflight hr + 1)));;
    mret (Some h)
  else mret None.

(** [bus1_handle_release] *)
Definition bus1_handle_release (h : ptr) : M unit :=
  hr ← get_handle h;
  if negb (bus1_handle_is_public hr) then mret tt
  else if negb (n_inflight hr =? 1) then
    upd_handle h (set_n_inflight (int32 (n_inflight hr - 1)))
  else
    peer ← bus1_peer_acquire (holder hr);
    match peer with
    | Some p => bus1_handle_release_last h p
    | None => upd_handle h (set_n_inflight (int32 (n_inflight hr - 1)))
    end.

(** [bus1_handle_release_pinned] *)
Definition bus1_handle_release_pinned (h p : ptr) : M unit :=
  hr ← get_handle h;
  if negb (bus1_handle_is_public hr) then mret tt
  else if negb (n_inflight hr =? 1) then
    upd_handle h (set_n_inflight (int32 (n_inflight hr - 1)))
  else bus1_handle_release_last h p.

(** The test at the end of [bus1_handle_get_inorder_id]. *)
Definition destroyed_before (ts timestamp : Z) : bool :=
  (0 <? ts) && (Z.land ts 1 =? 0) && (ts <=? timestamp).

(** [bus1_handle_get_inorder_id].  Both branches of the source read the
    same field [handle->node->timestamp]; they differ in the barriers. *)
Definition bus1_handle_get_inorder_id (h : ptr) (timestamp_ : Z) : M Z :=
  hr ← get_handle h;
  nr ← get_node (node hr);
  mret (if destroyed_before (timestamp nr) timestamp_
        then BUS1_HANDLE_INVALID else id hr).

(** [bus1_handle_release_to_inflight] *)
Definition bus1_handle_release_to_inflight (h : ptr) (timestamp_ : Z) : M Z :=
  ts ← bus1_handle_get_inorder_id h timestamp_;
  (if ts =? BUS1_HANDLE_INVALID then bus1_handle_release h
   else
     hr ← get_handle h;
     let v := int32 (n_user hr + 1) in
     upd_handle h (set_n_user v);;
     if negb (v =? 1) then bus1_handle_release h else mret tt);;
  mret ts.

(** [bus1_handle_attach_unlocked] *)
Definition bus1_handle_attach_unlocked (h holder_ : ptr) : M bool :=
  hr ← get_handle h;
  if bool_decide (is_Some (holder hr)) || bus1_handle_is_public hr
  then mret true
  else
    or ← get_handle (owner_of (node hr));
    if bool_decide (holder or = None) && negb (bus1_handle_is_owner h hr)
    then mret false
    else
      upd_handle h (fun x => set_holder (Some holder_) (set_n_inflight 1 x));;
      upd_node (node hr)
        (fun nr => set_list_handles (list_handles nr ++ [h]) nr);;
      bus1_handle_ref h;;
      mret true.

(** [bus1_handle_find_by_id].  The source descends the rb-tree, going left
    on [id < handle->id] and right on [id > handle->id]; the model looks the
    id up in the in-order sequence of the tree, which gives the same handle
    for every shape of the tree as long as the tree is ordered by id
    ([id_descend], [by_id_sorted]). *)
Definition bus1_handle_find_by_id (p : ptr) (id_ : Z) : M (option ptr) :=
  pr ← get_peer p;
  match tree_find id_ (map_handles_by_id pr) with
  | None => mret None
  | Some h =>
      hr ← get_handle h;
      if ref hr =? 0 then mret None
      else bus1_handle_ref h;; mret (Some h)
  end.

(** [bus1_handle_release_by_id]; the result is the error code. *)
Definition bus1_handle_release_by_id (p : ptr) (id_ : Z) : M Z :=
  handle ← bus1_handle_find_by_id p id_;
  match handle with
  | None => mret (- ENXIO)
  | Some h =>
      hr ← get_handle h;
      (* atomic_dec_if_positive *)
      let n_user_ := int32 (n_user hr - 1) in
      (if 0 <=? n_user_ then upd_handle h (set_n_user n_user_) else mret tt);;
      r ← (if n_user_ <? 0 then mret (- ESTALE)
           else if 0 <? n_user_ then mret 0
           else bus1_handle_release_pinned h p;; mret 0);
      bus1_handle_unref h;;
      mret r
  end.

Section install.

(** [BUS1_NODE_FLAG_MANAGED] is declared in [uapi/linux/bus1.h]; its value
    is a parameter of everything that allocates ids. *)
Variable BUS1_NODE_FLAG_MANAGED : Z.

(** [bus1_handle_install_unlocked]; [None] is the NULL result. *)
Definition bus1_handle_install_unlocked (h : ptr) : M (option ptr) :=
  hr ← get_handle h;
  if negb (bus1_handle_is_public hr) then mret None
  else if negb (id hr =? BUS1_HANDLE_INVALID) then mret (Some h)
  else
    match holder hr with
    | None => mret None
    | Some p =>
        pr ← get_peer p;
        match tree_find (node hr) (map_handles_by_node pr) with
        | Some iter =>
            bus1_handle_ref iter;;
            bus1_handle_acquire iter;;
            mret (Some iter)
        | None =>
            bus1_handle_ref h;;
            let ids := u64 (handle_ids pr + 1) in
            let new_id :=
              Z.lor (u64 (Z.shiftl ids 2)) BUS1_NODE_FLAG_MANAGED in
            upd_handle h (fun x => set_rb_linked true (set_id new_id x));;
            upd_peer p (fun _ =>
              mkPeer (active pr)
                     (map_handles_by_id pr ++ [(new_id, h)])
                     (node_insert (node hr) h (map_handles_by_node pr))
                     ids);;
            mret (Some h)
        end
    end.

(** *** Sequences of operations on handles *)

(** The operations that move the two counters of a handle. *)
Inductive op :=
| OpAttach (h holder_ : ptr)
| OpInstall (h : ptr)
| OpAcquire (h : ptr)
| OpRelease (h : ptr)
| OpCommit (h : ptr) (seq : Z)
| OpReleaseById (p : ptr) (id_ : Z).

Definition run_op (o : op) : M unit :=
  match o with
  | OpAttach h p => bus1_handle_attach_unlocked h p;; mret tt
  | OpInstall h => bus1_handle_install_unlocked h;; mret tt
  | OpAcquire h => bus1_handle_acquire h;; mret tt
  | OpRelease h => bus1_handle_release h
  | OpCommit h seq => bus1_handle_release_to_inflight h seq;; mret tt
  | OpReleaseById p id_ => bus1_handle_release_by_id p id_;; mret tt
  end.

(** The inflight references that exist on a handle; a private handle
    ([n_inflight = -1]) or a freed one has none. *)
Definition inflight_refs (w : world) (h : ptr) : Z :=
  match handles w !! h with
  | Some hr => Z.max 0 (n_inflight hr)
  | None => 0
  end.

(** What an operation does to the number of inflight references that the
    callers hold on handle [x]: attach, install and acquire hand out the
    references they create, release and commit consume one. *)
Definition gained (o : op) (w w' : world) (x : ptr) : Z :=
  match o with
  | OpAttach _ _ | OpInstall _ | OpAcquire _ =>
      inflight_refs w' x - inflight_refs w x
  | OpRelease h | OpCommit h _ => if decide (x = h) then -1 else 0
  | OpReleaseById _ _ => 0
  end.

(** Release and commit drop a reference of the caller, so the caller must
    hold one. *)
Definition allowed (o : op) (held : ptr -> Z) : Prop :=
  match o with
  | OpRelease h | OpCommit h _ => 1 <= held h
  | _ => True
  end.

(** All handles are as [bus1_handle_init] leaves them. *)
Definition fresh (w : world) : Prop :=
  forall h hr, handles w !! h = Some hr -> n_inflight hr = -1 /\ n_user hr = 0.

(** No counter is at [INT_MAX], so that an increment does not wrap. *)
Definition below_max (w : world) : Prop :=
  forall h hr, handles w !! h = Some hr ->
    n_inflight hr < 2 ^ 31 - 1 /\ n_user hr < 2 ^ 31 - 1.

(** The worlds reached from fresh handles by operations that return, where
    every release and commit drops a reference the callers hold; [held]
    counts these references. *)
Inductive trace : world -> (ptr -> Z) -> Prop :=
| trace_init w : fresh w -> trace w (fun _ => 0)
| trace_step w held o w' :
    trace w held -> allowed o held -> below_max w ->
    run_op o w = Some (tt, w') ->
    trace w' (fun x => held x + gained o w w' x).

#[global] Instance allowed_dec o held : Decision (allowed o held).
Proof. destruct o; simpl; apply _. Defined.

#[global] Instance below_max_dec w : Decision (below_max w).
Proof.
  exact (decide (map_Forall
    (fun (_ : ptr) hr => n_inflight hr < 2 ^ 31 - 1 /\ n_user hr < 2 ^ 31 - 1)
    (handles w))).
Defined.

(** Run a list of operations, checking the side conditions of [trace]. *)
Fixpoint run_trace (ops : list op) (w : world) (held : ptr -> Z)
  : option (world * (ptr -> Z)) :=
  match ops with
  | [] => Some (w, held)
  | o :: ops' =>
      if decide (allowed o held /\ below_max w) then
        match run_op o w with
        | Some (_, w') =>
            run_trace ops' w' (fun x => held x + gained o w w' x)
        | None => None
        end
      else None
  end.

End install.

(** The counters of a handle, and worlds that agree on them: every handle
    of [w'] is a handle of [w] with the same counters, except that the
    counters of [h0] have become [c]. *)
Definition cnt (hr : bus1_handle) : Z * Z := (n_inflight hr, n_user hr).

Definition frame (w w' : world) : Prop :=
  forall h hr', handles w' !! h = Some hr' ->
    exists hr, handles w !! h = Some hr /\ cnt hr' = cnt hr.

Definition frame_to (h0 : ptr) (c : Z * Z) (w w' : world) : Prop :=
  forall h hr', handles w' !! h = Some hr' ->
    exists hr, handles w !! h = Some hr /\
               cnt hr' = if decide (h = h0) then c else cnt hr.

(** A computation that leaves all counters alone. *)
Definition preserves {A} (m : M A) : Prop :=
  forall w a w', m w = Some (a, w') -> frame w w'.

(** The invariant of the counters: a private handle has no user reference
    and nobody holds a reference on it; on a public handle the inflight
    references are those held by callers, plus one shared by all user
    references. *)
Definition counters_ok (w : world) (held : ptr -> Z) : Prop :=
  forall h hr, handles w !! h = Some hr ->
    (n_inflight hr = -1 /\ n_user hr = 0 /\ held h = 0) \/
    (0 <= n_user hr /\ 0 <= held h /\
     n_inflight hr = held h + (if 0 <? n_user hr then 1 else 0)).

(** The counters of a public handle after
    [bus1_handle_release_to_inflight] returned the id [v]. *)
Definition after_commit (hr : bus1_handle) (v : Z) : Z * Z :=
  if v =? BUS1_HANDLE_INVALID then (int32 (n_inflight hr - 1), n_user hr)
  else if int32 (n_user hr + 1) =? 1
       then (n_inflight hr, int32 (n_user hr + 1))
       else (int32 (n_inflight hr - 1), int32 (n_user hr + 1)).

(** The counters after [bus1_handle_release_by_id] found the handle. *)
Definition after_release_by_id (hr : bus1_handle) : Z * Z :=
  let v := int32 (n_user hr - 1) in
  if v <? 0 then cnt hr
  else if 0 <? v then (n_inflight hr, v)
  else if bus1_handle_is_public hr then (int32 (n_inflight hr - 1), v)
  else (n_inflight hr, v).

(** The timestamp rule of the specification. *)
Definition destroyed_at_or_before (ts seq : Z) : Prop :=
  Z.even ts = true /\ ts <> 0 /\ ts <= seq.

(** [union bus1_handle_entry] of a batch: a pinned handle, possibly NULL,
    or an id. *)
Inductive bus1_handle_entry :=
| entry_handle (h : option ptr)
| entry_id (v : Z).

(** [struct bus1_handle_batch]; the chain of blocks is a list. *)
Record bus1_handle_batch := mkBatch {
  n_entries : nat;
  n_handles_ : nat;
  entries : list bus1_handle_entry }.

(** [struct bus1_handle_inflight] *)
Record bus1_handle_inflight := mkInflight {
  batch : bus1_handle_batch;
  n_new : Z;
  n_new_local : Z }.

(** The loop of [bus1_handle_inflight_commit] over the pinned entries; it
    yields the ids written into the slots. *)
Fixpoint commit_entries (es : list bus1_handle_entry) (seq : Z)
  : M (list Z) :=
  match es with
  | [] => mret []
  | e :: es' =>
      v ← match e with
          | entry_handle (Some h) =>
              v ← bus1_handle_release_to_inflight h seq;
              bus1_handle_unref h;;
              mret v
          | entry_handle None => mret BUS1_HANDLE_INVALID
          | entry_id _ => fault
          end;
      vs ← commit_entries es' seq;
      mret (v :: vs)
  end.

(** [bus1_handle_inflight_commit] *)
Definition bus1_handle_inflight_commit (inflight : bus1_handle_inflight)
    (seq : Z) : M bus1_handle_inflight :=
  let b := batch inflight in
  vs ← commit_entries (take (n_handles_ b) (entries b)) seq;
  mret (mkInflight
          (mkBatch (n_entries b) 0
                   ((entry_id <$> vs) ++ drop (n_handles_ b) (entries b)))
          (n_new inflight) (n_new_local inflight)).

(** The world with the record of handle [h] replaced. *)
Definition with_handle (w : world) (h : ptr) (hr : bus1_handle) : world :=
  mkWorld (<[h := hr]> (handles w)) (nodes w) (peers w).

(** Worlds that differ at most in the record of handle [h]. *)
Definition same_except (h : ptr) (w w' : world) : Prop :=
  nodes w' = nodes w /\ peers w' = peers w /\
  forall x, x <> h -> handles w' !! x = handles w !! x.

(** The handles pinned in a list of batch entries. *)
Definition pinned (es : list bus1_handle_entry) : list ptr :=
  omap (fun e => match e with
                 | entry_handle (Some h) => Some h
                 | _ => None
                 end) es.

Definition is_entry_handle (e : bus1_handle_entry) : Prop :=
  exists oh, e = entry_handle oh.

(** The commit of a pinned handle that takes no peer lock: the handle and
    its node are allocated, the object reference of the batch is not the
    last one, and if an inflight reference is dropped it is not the last
    one of a handle that still has a holder. *)
Definition commit_ready (w : world) (seq : Z) (h : ptr) : Prop :=
  exists hr nr,
    handles w !! h = Some hr /\ nodes w !! node hr = Some nr /\
    1 < ref hr < 2 ^ 31 /\
    (n_inflight hr <> 1 \/ holder hr = None \/
     (bus1_handle_has_id hr = true /\
      destroyed_before (timestamp nr) seq = false /\ n_user hr = 0)).

(** Worlds for the examples.  [peer_a] owns [node_a], whose owner handle
    is [owner_a]; [handle_b] and [handle_c] are handles of [peer_b] for the
    same node. *)
Definition node_a : ptr := 1%positive.
Definition peer_a : ptr := 1%positive.
Definition peer_b : ptr := 2%positive.
Definition owner_a : ptr := owner_of node_a.
Definition handle_b : ptr := 2%positive.
Definition handle_c : ptr := 4%positive.

Definition handle_private (n : ptr) : bus1_handle :=
  mkHandle false n BUS1_HANDLE_INVALID None 1 (-1) 0.

Definition world_fresh : world :=
  mkWorld {[ owner_a := handle_private node_a ]}
          {[ node_a := mkNode 1 [] 0 ]}
          {[ peer_a := mkPeer true [] [] 0 ]}.

(** The owner handle attached and installed under id 5. *)
Definition handle_installed (users : Z) : bus1_handle :=
  mkHandle true node_a 5 (Some peer_a) 3 1 users.

Definition world_installed (users ts : Z) : world :=
  mkWorld {[ owner_a := handle_installed users ]}
          {[ node_a := mkNode 1 [owner_a] ts ]}
          {[ peer_a := mkPeer true [(5, owner_a)] [(node_a, owner_a)] 1 ]}.

(** [node_a] destroyed at timestamp [ts] while [handle_b], installed in
    [peer_b] under id 9, is pinned by a transaction: destruction has reset
    the holders and taken the handles out of the trees. *)
Definition world_destroyed (ts : Z) : world :=
  mkWorld {[ owner_a := mkHandle true node_a 5 None 1 0 0;
             handle_b := mkHandle true node_a 9 None 2 1 0 ]}
          {[ node_a := mkNode 2 [] ts ]}
          {[ peer_a := mkPeer true [] [] 1;
             peer_b := mkPeer true [] [] 2 ]}.

Definition inflight_single (h : ptr) : bus1_handle_inflight :=
  mkInflight (mkBatch 1 1 [entry_handle (Some h)]) 0 0.

(** Two handles for [node_a] attached for [peer_b], none installed yet. *)
Definition handle_attached (n : ptr) : bus1_handle :=
  mkHandle false n BUS1_HANDLE_INVALID (Some peer_b) 2 1 0.

Definition world_conflict : world :=
  mkWorld {[ owner_a := handle_installed 0;
             handle_b := handle_attached node_a;
             handle_c := handle_attached node_a ]}
          {[ node_a := mkNode 3 [owner_a; handle_b; handle_c] 0 ]}
          {[ peer_a := mkPeer true [(5, owner_a)] [(node_a, owner_a)] 1;
             peer_b := mkPeer true [] [] 0 ]}.

(** *** Allocation, lookup by node, destruction by id and flushing *)

Definition EPERM : Z := 1.
Definition EINPROGRESS : Z := 115.

(** [kmalloc]: [a] is the address the allocator hands out, which is never
    the address of an object that is still allocated.  The memory of a node
    holds the embedded owner handle as well. *)
Definition kmalloc_handle (h : ptr) : M unit := fun w =>
  match handles w !! h with
  | Some _ => None
  | None => Some (tt, w)
  end.

Definition kmalloc_node (n : ptr) : M unit := fun w =>
  match nodes w !! n, handles w !! owner_of n with
  | None, None => Some (tt, w)
  | _, _ => None
  end.

(** A store that initialises a whole object. *)
Definition init_handle (h : ptr) (hr : bus1_handle) : M unit := fun w =>
  Some (tt, mkWorld (<[h := hr]> (handles w)) (nodes w) (peers w)).

Definition init_node (n : ptr) (nr : bus1_handle_node) : M unit := fun w =>
  Some (tt, mkWorld (handles w) (<[n := nr]> (nodes w)) (peers w)).

(** [bus1_handle_init]: the handle is unlinked, private and holds one
    reference; it takes a reference on its node. *)
Definition bus1_handle_init (h n : ptr) : M unit :=
  init_handle h (mkHandle false n BUS1_HANDLE_INVALID None 1 (-1) 0);;
  upd_node n (fun nr => set_node_ref (int32 (node_ref nr + 1)) nr).

(** [bus1_handle_new_copy]; [None] is [ERR_PTR(-ENOMEM)]. *)
Definition bus1_handle_new_copy (a : option ptr) (existing : ptr)
  : M (option ptr) :=
  match a with
  | None => mret None
  | Some h =>
      kmalloc_handle h;;
      er ← get_handle existing;
      bus1_handle_init h (node er);;
      mret (Some h)
  end.

(** [bus1_handle_new]: a new node with its embedded owner handle; the
    initial reference on the node is dropped again once the owner holds
    its own. *)
Definition bus1_handle_new (a : option ptr) : M (option ptr) :=
  match a with
  | None => mret None
  | Some n =>
      kmalloc_node n;;
      init_node n (mkNode 1 [] 0);;
      bus1_handle_init (owner_of n) n;;
      upd_node n (fun nr => set_node_ref (int32 (node_ref nr - 1)) nr);;
      mret (Some (owner_of n))
  end.

(** [bus1_handle_find_by_node]: the lookup in the by-node tree of the peer
    for the node of [existing]. *)
Definition bus1_handle_find_by_node (p existing : ptr) : M (option ptr) :=
  pr ← get_peer p;
  er ← get_handle existing;
  match tree_find (node er) (map_handles_by_node pr) with
  | None => mret None
  | Some h =>
      hr ← get_handle h;
      if ref hr =? 0 then mret None
      else bus1_handle_ref h;; mret (Some h)
  end.

(** [bus1_handle_pin]: the owning peer of the node, if both the peer and
    the handle can be acquired. *)
Definition bus1_handle_pin (h : ptr) : M (option ptr) :=
  hr ← get_handle h;
  or ← get_handle (owner_of (node hr));
  peer ← bus1_peer_acquire (holder or);
  match peer with
  | None => mret None
  | Some p =>
      got ← bus1_handle_acquire h;
      mret (match got with Some _ => Some p | None => None end)
  end.

(** [bus1_handle_attach]: [bus1_handle_attach_unlocked] with the owner
    pinned and locked. *)
Definition bus1_handle_attach (h holder_ : ptr) : M bool :=
  hr ← get_handle h;
  if bus1_handle_is_owner h hr then
    get_peer holder_;; bus1_handle_attach_unlocked h holder_
  else
    or ← get_handle (owner_of (node hr));
    owner ← bus1_peer_acquire (holder or);
    match owner with
    | None => mret false
    | Some _ => bus1_handle_attach_unlocked h holder_
    end.

(** [bus1_handle_destroy_by_id]; the result is the error code. *)
Definition bus1_handle_destroy_by_id (p : ptr) (id_ : Z) : M Z :=
  handle ← bus1_handle_find_by_id p id_;
  match handle with
  | None => mret (- ENXIO)
  | Some h =>
      hr ← get_handle h;
      r ← (if negb (bus1_handle_is_owner h hr) then mret (inl (- EPERM))
           else
             nr ← get_node (node hr);
             if negb (timestamp nr =? 0) then mret (inl (- EINPROGRESS))
             else
               lst ← bus1_handle_commit_destruction h p [];
               mret (inr lst));
      match r with
      | inl e => bus1_handle_unref h;; mret e
      | inr lst =>
          bus1_handle_finalize_destruction lst;;
          bus1_handle_unref h;;
          mret 0
      end
  end.

(** [RB_CLEAR_NODE(&handle->rb_node)] for the handles of a tree.  The
    stores touch one handle each, so the order of the traversal does not
    matter. *)
Fixpoint clear_rb_nodes (hs : list ptr) : M unit :=
  match hs with
  | [] => mret tt
  | h :: hs' => upd_handle h (set_rb_linked false);; clear_rb_nodes hs'
  end.

(** [bus1_handle_flush_all]: both trees of the peer are emptied and the
    by-id tree is handed to the caller. *)
Definition bus1_handle_flush_all (p : ptr) : M (list (Z * ptr)) :=
  pr ← get_peer p;
  upd_peer p (fun pr => mkPeer (active pr) [] [] (handle_ids pr));;
  clear_rb_nodes (snd <$> map_handles_by_id pr);;
  mret (map_handles_by_id pr).

(** The ids of a peer are below what its allocator will hand out next. *)
Definition ids_below (pr : bus1_peer) : Prop :=
  Forall (fun kv : Z * ptr => 0 <= kv.1 < 4 * (handle_ids pr + 1))
         (map_handles_by_id pr).

(** Worlds that agree on the timestamps of the nodes: every node of [w']
    is a node of [w] with the same timestamp. *)
Definition ts_frame (w w' : world) : Prop :=
  forall n nr', nodes w' !! n = Some nr' ->
    exists nr, nodes w !! n = Some nr /\ timestamp nr' = timestamp nr.

Definition ts_preserves {A} (m : M A) : Prop :=
  forall w a w', m w = Some (a, w') -> ts_frame w w'.

(** A second node address for the examples. *)
Definition node_b : ptr := 2%positive.

(** The owner handle of [node_a] installed in [peer_a] under id 5 and held
    by a user, after the transaction that installed it has dropped its own
    reference; and what is left once the node is gone. *)
Definition world_held : world :=
  mkWorld {[ owner_a := mkHandle true node_a 5 (Some peer_a) 2 0 1 ]}
          {[ node_a := mkNode 1 [owner_a] 0 ]}
          {[ peer_a := mkPeer true [(5, owner_a)] [(node_a, owner_a)] 1 ]}.

(** [handle_b], a new handle of [peer_b] for [node_a], not yet attached. *)
Definition world_copied : world :=
  mkWorld {[ owner_a := handle_installed 0;
             handle_b := handle_private node_a ]}
          {[ node_a := mkNode 2 [owner_a] 0 ]}
          {[ peer_a := mkPeer true [(5, owner_a)] [(node_a, owner_a)] 1;
             peer_b := mkPeer true [] [] 0 ]}.

Definition world_gone : world :=
  mkWorld ∅ ∅ {[ peer_a := mkPeer true [] [] 1 ]}.

(** [node_a] shared: [handle_b] is a second handle for it, installed in
    [peer_b] under id 9 and referenced by a transaction. *)
Definition world_shared : world :=
  mkWorld {[ owner_a := handle_installed 0;
             handle_b := mkHandle true node_a 9 (Some peer_b) 3 1 0 ]}
          {[ node_a := mkNode 2 [owner_a; handle_b] 0 ]}
          {[ peer_a := mkPeer true [(5, owner_a)] [(node_a, owner_a)] 1;
             peer_b := mkPeer true [(9, handle_b)] [(node_a, handle_b)] 2 ]}.

(** *** The by-id tree as the lookup sees it *)

(** The trees of a peer are kept as their in-order sequences.  For the
    lookup by id the shape matters: an rb-tree of ids of some shape, its
    in-order sequence, and the descent of [bus1_handle_find_by_id]. *)
Inductive id_tree :=
| ID_LEAF
| ID_NODE (l : id_tree) (k : Z) (h : ptr) (r : id_tree).

Fixpoint id_inorder (t : id_tree) : list (Z * ptr) :=
  match t with
  | ID_LEAF => []
  | ID_NODE l k h r => id_inorder l ++ (k, h) :: id_inorder r
  end.

Fixpoint id_descend (i : Z) (t : id_tree) : option ptr :=
  match t with
  | ID_LEAF => None
  | ID_NODE l k h r =>
      if i =? k then Some h
      else if i <? k then id_descend i l
      else id_descend i r
  end.

(** The by-id tree is ordered by id.  [bus1_handle_install_unlocked] links
    every new id at [rb_last], so the tree is ordered as long as the ids it
    hands out grow, that is until the shifted counter wraps. *)
Definition by_id_sorted (t : list (Z * ptr)) : Prop :=
  StronglySorted (fun a b : Z * ptr => a.1 < b.1) t.

End Handle.

(** ** The user registry of [user.c] *)

Module User.
Import Quota.

(** [((unsigned int) -1)] and the kernel's [INVALID_UID]. *)
Definition BUS1_INTERNAL_UID_INVALID : Z := 2 ^ 32 - 1.
Definition INVALID_UID : Z := 2 ^ 32 - 1.

Definition ENOTRECOVERABLE : Z := 131.

(** [uid_valid] *)
Definition uid_valid (uid : Z) : bool := negb (uid =? INVALID_UID).

(** [struct bus1_user]: the reference count, the uid, the id and budgets
    that the quota code works on ([Quota.bus1_user]), and the limits. *)
Record bus1_user_obj := mkUserObj {
  u_ref : Z;
  u_uid : Z;
  u_quota : bus1_user;
  max_messages : Z;
  max_handles : Z;
  max_fds : Z }.

(** The allocated user objects with the two global tables:
    [bus1_user_idr] maps a uid to its user object, [bus1_user_ida] holds the
    internal ids in use. *)
Record user_table := mkTable {
  user_mem : gmap ptr bus1_user_obj;
  bus1_user_idr : gmap Z ptr;
  bus1_user_ida : gset Z }.

Definition table_empty : user_table := mkTable ∅ ∅ ∅.

(** State and fault monad over the tables. *)
Definition R (A : Type) : Type := user_table -> option (A * user_table).

#[global] Instance R_ret : MRet R := fun A a t => Some (a, t).
#[global] Instance R_bind : MBind R := fun A B f m t =>
  match m t with
  | Some (a, t') => f a t'
  | None => None
  end.

Definition get_user (u : ptr) : R bus1_user_obj := fun t =>
  match user_mem t !! u with Some ur => Some (ur, t) | None => None end.

Definition upd_user (u : ptr) (f : bus1_user_obj -> bus1_user_obj) : R unit :=
  fun t =>
  match user_mem t !! u with
  | Some ur =>
      Some (tt, mkTable (<[u := f ur]> (user_mem t)) (bus1_user_idr t)
                        (bus1_user_ida t))
  | None => None
  end.

Definition set_u_ref (v : Z) (ur : bus1_user_obj) : bus1_user_obj :=
  mkUserObj v (u_uid ur) (u_quota ur) (max_messages ur) (max_handles ur)
            (max_fds ur).
Definition set_u_uid (v : Z) (ur : bus1_user_obj) : bus1_user_obj :=
  mkUserObj (u_ref ur) v (u_quota ur) (max_messages ur) (max_handles ur)
            (max_fds ur).
Definition set_u_id (v : Z) (ur : bus1_user_obj) : bus1_user_obj :=
  mkUserObj (u_ref ur) (u_uid ur)
            (mkUser v (u_n_messages (u_quota ur)) (u_n_handles (u_quota ur))
                    (u_n_fds (u_quota ur)))
            (max_messages ur) (max_handles ur) (max_fds ur).

(** The kernel's tables.  [idr_find], [idr_remove] and [idr_replace] act on
    the entry of one key.  [idr_alloc] for the range of one key stores the
    pointer there and returns the key; keys are [int]s, a negative start is
    refused with [-EINVAL], and the call fails with [-ENOMEM] when the
    allocation does ([ok] is false). *)
Definition idr_find (uid : Z) : R (option ptr) := fun t =>
  Some (bus1_user_idr t !! uid, t).

Definition idr_remove (uid : Z) : R unit := fun t =>
  Some (tt, mkTable (user_mem t) (delete uid (bus1_user_idr t))
                    (bus1_user_ida t)).

Definition idr_replace (u : ptr) (uid : Z) : R unit := fun t =>
  Some (tt, mkTable (user_mem t) (<[uid := u]> (bus1_user_idr t))
                    (bus1_user_ida t)).

Definition idr_alloc (ok : bool) (u : ptr) (uid : Z) : R Z := fun t =>
  if int32 uid <? 0 then Some (- 22, t)
  else if ok then
    Some (int32 uid,
          mkTable (user_mem t) (<[uid := u]> (bus1_user_idr t))
                  (bus1_user_ida t))
  else Some (- ENOMEM, t).

(** The first id from [k] on that is not in use. *)
Fixpoint ida_scan (ida : gset Z) (k : Z) (fuel : nat) : option Z :=
  match fuel with
  | O => None
  | S fuel' =>
      if decide (k ∈ ida) then ida_scan ida (k + 1) fuel' else Some k
  end.

(** [ida_simple_get(&ida, 0, 0, GFP_KERNEL)]: the smallest id that is not
    in use, up to [INT_MAX]; it fails when the allocation does ([ok] is
    false) or when no id is left. *)
Definition ida_simple_get (ok : bool) : R Z := fun t =>
  if ok then
    match ida_scan (bus1_user_ida t) 0 (S (size (bus1_user_ida t))) with
    | Some k =>
        if k <? 2 ^ 31 then
          Some (k, mkTable (user_mem t) (bus1_user_idr t)
                           ({[k]} ∪ bus1_user_ida t))
        else Some (- 28, t)                            (* -ENOSPC *)
    | None => Some (- 28, t)
    end
  else Some (- ENOMEM, t).

Definition ida_simple_remove (k : Z) : R unit := fun t =>
  Some (tt, mkTable (user_mem t) (bus1_user_idr t) (bus1_user_ida t ∖ {[k]})).

Definition kfree_user (u : ptr) : R unit := fun t =>
  Some (tt, mkTable (delete u (user_mem t)) (bus1_user_idr t)
                    (bus1_user_ida t)).

Section user.

(** [BUS1_MESSAGES_MAX], [BUS1_HANDLES_MAX] and [BUS1_FDS_MAX] are declared
    in headers that are not part of the sources at hand. *)
Variables BUS1_MESSAGES_MAX BUS1_HANDLES_MAX BUS1_FDS_MAX : Z.

(** [bus1_user_new]; [a] is what [kmalloc] returns, which is never the
    address of an object that is still allocated. *)
Definition bus1_user_new (a : option ptr) : R (option ptr) :=
  match a with
  | None => mret None
  | Some u => fun t =>
      match user_mem t !! u with
      | Some _ => None
      | None =>
          let ur :=
            mkUserObj 1 INVALID_UID
              (mkUser BUS1_INTERNAL_UID_INVALID BUS1_MESSAGES_MAX
                      BUS1_HANDLES_MAX BUS1_FDS_MAX)
              BUS1_MESSAGES_MAX BUS1_HANDLES_MAX BUS1_FDS_MAX in
          Some (Some u, mkTable (<[u := ur]> (user_mem t)) (bus1_user_idr t)
                                (bus1_user_ida t))
      end
  end.

(** [bus1_user_free] *)
Definition bus1_user_free (u : ptr) : R unit :=
  ur ← get_user u;
  (if uid_valid (u_uid ur) then idr_remove (u_uid ur) else mret tt);;
  (if negb (user_id (u_quota ur) =? BUS1_INTERNAL_UID_INVALID)
   then ida_simple_remove (user_id (u_quota ur)) else mret tt);;
  kfree_user u.

(** [bus1_user_ref] *)
Definition bus1_user_ref (user : option ptr) : R (option ptr) :=
  match user with
  | None => mret None
  | Some u =>
      upd_user u (fun ur => set_u_ref (int32 (u_ref ur + 1)) ur);;
      mret (Some u)
  end.

(** [bus1_user_unref] *)
Definition bus1_user_unref (user : option ptr) : R unit :=
  match user with
  | None => mret tt
  | Some u =>
      ur ← get_user u;
      let r := int32 (u_ref ur - 1) in
      upd_user u (set_u_ref r);;
      if r =? 0 then bus1_user_free u else mret tt
  end.

(** [kref_get_unless_zero] on a user that was found in the idr. *)
Definition user_get_unless_zero (u : ptr) : R bool :=
  ur ← get_user u;
  if u_ref ur =? 0 then mret false
  else upd_user u (set_u_ref (int32 (u_ref ur + 1)));; mret true.

(** [bus1_user_ref_by_uid].  [a] is what [kmalloc] returns, [ida_ok] and
    [idr_ok] say whether the allocations of the two tables succeed.  The
    result is the user, or the negative error code. *)
Definition bus1_user_ref_by_uid (a : option ptr) (ida_ok idr_ok : bool)
    (uid : Z) : R (Z + ptr) :=
  if negb (uid_valid uid) then mret (inl (- ENOTRECOVERABLE) : Z + ptr)
  else
    found ← idr_find uid;
    user ← match found with
           | None => mret None
           | Some u =>
               got ← user_get_unless_zero u;
               mret (if (got : bool) then Some u else None)
           end;
    match user with
    | Some u => mret (inr u : Z + ptr)
    | None =>
        new ← bus1_user_new a;
        match new with
        | None => mret (inl (- ENOMEM) : Z + ptr)
        | Some user =>
            r ← ida_simple_get ida_ok;
            if r <? 0 then bus1_user_unref (Some user);; mret (inl r : Z + ptr)
            else
              upd_user user (set_u_id r);;
              upd_user user (set_u_uid uid);;
              old_user ← idr_find uid;
              match old_user with
              | None =>
                  r ← idr_alloc idr_ok user uid;
                  if r <? 0 then
                    upd_user user (set_u_uid INVALID_UID);;
                    bus1_user_unref (Some user);;
                    mret (inl r : Z + ptr)
                  else mret (inr user : Z + ptr)
              | Some old =>
                  got ← user_get_unless_zero old;
                  if (got : bool) then
                    upd_user user (set_u_uid INVALID_UID);;
                    bus1_user_unref (Some user);;
                    mret (inr old : Z + ptr)
                  else
                    idr_replace user uid;;
                    upd_user old (set_u_uid INVALID_UID);;
                    mret (inr user : Z + ptr)
              end
        end
    end.

(** The calls of the interface, for sequences of them. *)
Inductive user_op :=
| UserRefByUid (a : option ptr) (ida_ok idr_ok : bool) (uid : Z)
| UserRef (u : ptr)
| UserUnref (u : ptr).

Definition run_user_op (o : user_op) : R unit :=
  match o with
  | UserRefByUid a ida_ok idr_ok uid =>
      bus1_user_ref_by_uid a ida_ok idr_ok uid;; mret tt
  | UserRef u => bus1_user_ref (Some u);; mret tt
  | UserUnref u => bus1_user_unref (Some u)
  end.

Inductive user_step : user_table -> user_table -> Prop :=
| user_step_op o t t' : run_user_op o t = Some (tt, t') -> user_step t t'.

Definition user_reachable : user_table -> Prop := rtc user_step table_empty.

(** The user object a successful creation leaves behind. *)
Definition user_created (uid k : Z) : bus1_user_obj :=
  mkUserObj 1 uid
    (mkUser k BUS1_MESSAGES_MAX BUS1_HANDLES_MAX BUS1_FDS_MAX)
    BUS1_MESSAGES_MAX BUS1_HANDLES_MAX BUS1_FDS_MAX.

(** The outcomes of [bus1_user_ref_by_uid]. *)
Inductive ref_by_uid_outcome (a : option ptr) (uid : Z) (t : user_table)
  : Z + ptr -> user_table -> Prop :=
| outcome_error e :
    e < 0 -> ref_by_uid_outcome a uid t (inl e) t
| outcome_found u ur :
    uid_valid uid = true ->
    bus1_user_idr t !! uid = Some u -> user_mem t !! u = Some ur ->
    u_ref ur <> 0 ->
    ref_by_uid_outcome a uid t (inr u)
      (mkTable (<[u := set_u_ref (int32 (u_ref ur + 1)) ur]> (user_mem t))
               (bus1_user_idr t) (bus1_user_ida t))
| outcome_created u k :
    uid_valid uid = true -> 0 <= int32 uid ->
    a = Some u -> user_mem t !! u = None ->
    bus1_user_idr t !! uid = None ->
    0 <= k < 2 ^ 31 -> k ∉ bus1_user_ida t ->
    (forall j, 0 <= j < k -> j ∈ bus1_user_ida t) ->
    ref_by_uid_outcome a uid t (inr u)
      (mkTable (<[u := user_created uid k]> (user_mem t))
               (<[uid := u]> (bus1_user_idr t))
               ({[k]} ∪ bus1_user_ida t))
| outcome_replaced u k old or :
    uid_valid uid = true ->
    a = Some u -> user_mem t !! u = None ->
    bus1_user_idr t !! uid = Some old -> user_mem t !! old = Some or ->
    u_ref or = 0 ->
    0 <= k < 2 ^ 31 -> k ∉ bus1_user_ida t ->
    (forall j, 0 <= j < k -> j ∈ bus1_user_ida t) ->
    ref_by_uid_outcome a uid t (inr u)
      (mkTable (<[old := set_u_uid INVALID_UID or]>
                  (<[u := user_created uid k]> (user_mem t)))
               (<[uid := u]> (bus1_user_idr t))
               ({[k]} ∪ bus1_user_ida t)).

End user.

(** The tables are consistent: an entry of the idr refers to an allocated
    user that carries the uid of the entry; a user that carries a valid uid
    is the entry of that uid; every user carries an id that is marked in
    use; and no two users carry the same id. *)
Record table_ok (t : user_table) : Prop := {
  ok_idr : forall uid u, bus1_user_idr t !! uid = Some u ->
    exists ur, user_mem t !! u = Some ur /\ u_uid ur = uid /\
               uid_valid uid = true;
  ok_uid : forall u ur, user_mem t !! u = Some ur ->
    uid_valid (u_uid ur) = true -> bus1_user_idr t !! u_uid ur = Some u;
  ok_ida : forall u ur, user_mem t !! u = Some ur ->
    0 <= user_id (u_quota ur) < 2 ^ 31 /\
    user_id (u_quota ur) ∈ bus1_user_ida t;
  ok_id : forall u1 u2 ur1 ur2,
    user_mem t !! u1 = Some ur1 -> user_mem t !! u2 = Some ur2 ->
    user_id (u_quota ur1) = user_id (u_quota ur2) -> u1 = u2 }.

(** Tables for the examples: the user of uid 1000 is registered with id 0
    and [refs] references. *)
Definition user_a : ptr := 1%positive.
Definition user_b : ptr := 2%positive.

Definition table_one (refs : Z) : user_table :=
  mkTable {[ user_a := mkUserObj refs 1000 (mkUser 0 7 7 7) 7 7 7 ]}
          {[ 1000 := user_a ]} {[ 0 ]}.

End User.

(** * Machine integers *)

Module WordFacts.

Lemma int32_id x : - 2 ^ 31 <= x < 2 ^ 31 -> int32 x = x.
Proof. intros H. unfold int32. rewrite Z.mod_small; lia. Qed.

Lemma int32_succ_pred x :
  - 2 ^ 31 <= x < 2 ^ 31 -> int32 (int32 (x + 1) - 1) = x.
Proof.
  intros H. destruct (decide (x = 2 ^ 31 - 1)) as [->|Hne]; [reflexivity|].
  rewrite (int32_id (x + 1)) by lia. rewrite int32_id by lia. lia.
Qed.

End WordFacts.

(** * Properties of the queue *)

Module QueueFacts.
Import Queue.

Lemma staging_odd s : staging s = Z.odd s.
Proof.
  unfold staging. change 1 with (Z.ones 1) at 1. rewrite Z.land_ones by lia.
  change (2 ^ 1) with 2. rewrite Zmod_odd. destruct (Z.odd s); reflexivity.
Qed.

Lemma staging_false_even s : staging s = false <-> Z.even s = true.
Proof.
  rewrite staging_odd, <- Z.negb_even. destruct (Z.even s); simpl; split; congruence.
Qed.

Lemma staging_true_even s : staging s = true <-> Z.even s = false.
Proof.
  rewrite staging_odd, <- Z.negb_even. destruct (Z.even s); simpl; split; congruence.
Qed.

Lemma inorder_join l r : inorder (rb_join l r) = inorder l ++ inorder r.
Proof.
  induction l as [|a IHa x b IHb]; simpl; [done|].
  rewrite IHb. by rewrite <- app_assoc.
Qed.

Lemma filter_other_id p (l : list bus1_queue_entry) :
  p ∉ entry_ptr <$> l -> filter (other p) l = l.
Proof.
  induction l as [|x l IH]; simpl; intros Hp; [done|].
  rewrite not_elem_of_cons in Hp. destruct Hp as [Hx Hl].
  rewrite filter_cons_True by (unfold other; congruence).
  by rewrite IH.
Qed.

Lemma inorder_erase p t :
  NoDup (entry_ptr <$> inorder t) ->
  inorder (rb_erase p t) = filter (other p) (inorder t).
Proof.
  induction t as [|l IHl x r IHr]; simpl; intros Hnd; [done|].
  rewrite fmap_app, fmap_cons in Hnd.
  apply NoDup_app in Hnd as (Hl & Hlr & Hr).
  apply NoDup_cons in Hr as [Hxr Hr].
  rewrite filter_app. unfold has_ptr. case_bool_decide as Hx.
  - rewrite inorder_join, filter_cons_False by (unfold other; tauto).
    rewrite !filter_other_id; [done|congruence|].
    intros Hin. apply (Hlr _ Hin). rewrite <- Hx. left.
  - simpl. rewrite IHl, IHr by done.
    by rewrite filter_cons_True by (unfold other; congruence).
Qed.

Lemma rb_find_Some t p e :
  rb_find t p = Some e -> e ∈ inorder t /\ entry_ptr e = p.
Proof.
  unfold rb_find. intros H. apply find_some in H as [Hin Hp].
  unfold has_ptr in Hp. apply bool_decide_eq_true in Hp.
  split; [by apply list_elem_of_In|done].
Qed.

Lemma rb_find_None t p :
  rb_find t p = None <-> p ∉ entry_ptr <$> inorder t.
Proof.
  unfold rb_find. split.
  - intros H Hin. apply list_elem_of_fmap in Hin as (x & -> & Hx).
    apply list_elem_of_In in Hx.
    pose proof (find_none _ _ H _ Hx) as Hf. unfold has_ptr in Hf.
    by apply bool_decide_eq_false in Hf.
  - intros Hn. destruct (find _ _) as [e|] eqn:He; [|done].
    apply find_some in He as [Hin Hp]. exfalso. apply Hn.
    unfold has_ptr in Hp. apply bool_decide_eq_true in Hp. subst p.
    apply list_elem_of_fmap_2. by apply list_elem_of_In.
Qed.

(** The descent puts the entry behind every entry whose [seq] is not
    larger and before every entry whose [seq] is larger. *)
Lemma link_slot_inorder t e :
  StronglySorted seq_le (inorder t) ->
  exists l1 l2,
    inorder t = l1 ++ l2 /\
    inorder (link_slot t e).1 = l1 ++ e :: l2 /\
    Forall (fun x => seq x <= seq e) l1 /\
    Forall (fun x => seq e < seq x) l2 /\
    ((link_slot t e).2 = true <-> l1 = []).
Proof.
  induction t as [|l IHl x r IHr]; simpl; intros Hs.
  - exists [], []. repeat split; auto.
  - apply StronglySorted_app in Hs as (Hlr & Hsl & Hsr).
    apply StronglySorted_cons in Hsr as [Hxr Hsr].
    destruct (Z.ltb_spec (seq e) (seq x)) as [Hlt|Hge].
    + destruct (IHl Hsl) as (a & b & Ha & Hb & Hfa & Hfb & Hlm).
      destruct (link_slot l e) as [l' lm]. simpl in *.
      exists a, (b ++ x :: inorder r). rewrite Ha, Hb.
      rewrite <- !app_assoc. repeat split; auto.
      * apply Forall_app. split; [done|]. constructor; [done|].
        eapply Forall_impl; [exact Hxr|]. unfold seq_le. intros; simpl in *; lia.
      * apply Hlm. 
      * apply Hlm.
    + destruct (IHr Hsr) as (a & b & Ha & Hb & Hfa & Hfb & Hlm).
      destruct (link_slot r e) as [r' lm]. simpl in *.
      exists (inorder l ++ x :: a), b. rewrite Ha, Hb.
      rewrite <- !app_assoc. repeat split; auto.
      * apply Forall_app. split.
        -- apply Forall_forall. intros y Hy.
           assert (seq_le y x) as Hyx by (apply Hlr; [done|left]).
           unfold seq_le in Hyx. lia.
        -- constructor; [lia|done].
      * done.
      * intros Hnil. by destruct (inorder l).
Qed.


Lemma sorted_insert_mid l1 l2 e :
  StronglySorted seq_le (l1 ++ l2) ->
  Forall (fun x => seq x <= seq e) l1 ->
  Forall (fun x => seq e < seq x) l2 ->
  StronglySorted seq_le (l1 ++ e :: l2).
Proof.
  rewrite !StronglySorted_app, StronglySorted_cons, !Forall_forall.
  intros (H12 & H1 & H2) Hle Hlt. repeat split; auto.
  - intros x1 x2 Hx1 Hx2. apply elem_of_cons in Hx2 as [->|Hx2].
    + by apply Hle.
    + by apply H12.
  - intros x Hx. unfold seq_le. specialize (Hlt _ Hx). lia.
Qed.

Lemma sorted_filter (P : bus1_queue_entry -> Prop) `{!forall x, Decision (P x)} l :
  StronglySorted seq_le l -> StronglySorted seq_le (filter P l).
Proof.
  induction 1 as [|x l Hs IH Hx]; [constructor|].
  rewrite filter_cons. case_decide; [|done].
  constructor; [done|]. rewrite Forall_forall in *.
  intros y Hy. apply list_elem_of_filter in Hy as [_ Hy]. auto.
Qed.

Lemma nodup_ptr_filter (P : bus1_queue_entry -> Prop) `{!forall x, Decision (P x)} l :
  NoDup (entry_ptr <$> l) -> NoDup (entry_ptr <$> filter P l).
Proof.
  intros Hnd. apply (sublist_NoDup _ (entry_ptr <$> l)); [exact Hnd|].
  apply fmap_sublist, sublist_filter.
Qed.

Lemma erase_wf q p :
  queue_wf q -> queue_wf (relink_erased q p).
Proof.
  intros [Hs Hnd]. unfold queue_wf, relink_erased; simpl.
  rewrite inorder_erase by done. split.
  - by apply sorted_filter.
  - by apply nodup_ptr_filter.
Qed.

Lemma link_wf q e : queue_wf q -> queue_wf (bus1_queue_link q e).1.
Proof.
  intros [Hs Hnd]. unfold bus1_queue_link.
  destruct (rb_find (messages q) (entry_ptr e)) eqn:Hf; [done|].
  destruct (link_slot_inorder (messages q) e Hs)
    as (l1 & l2 & H0 & H1 & Hle & Hlt & _).
  destruct (link_slot (messages q) e) as [t lm]. simpl in *.
  unfold queue_wf; simpl. rewrite H1. split.
  - apply sorted_insert_mid; [by rewrite <- H0|done|done].
  - apply rb_find_None in Hf. rewrite H0 in Hnd, Hf.
    rewrite <- Permutation_middle, fmap_cons.
    apply NoDup_cons. done.
Qed.

(** After a link the front pointer is the new entry when the call reports
    that the queue became readable, and is left alone otherwise. *)
Lemma link_front q e :
  front (bus1_queue_link q e).1 =
  if (bus1_queue_link q e).2 then Some (entry_ptr e) else front q.
Proof.
  unfold bus1_queue_link.
  destruct (rb_find (messages q) (entry_ptr e)); [done|].
  destruct (link_slot (messages q) e) as [t lm]. simpl.
  by destruct (lm && negb (staging (seq e))).
Qed.

Lemma link_inv q e :
  link_keeps_order q e -> queue_inv q -> queue_inv (bus1_queue_link q e).1.
Proof.
  intros HG [Hwf Hfr]. split; [by apply link_wf|].
  destruct Hwf as [Hs Hnd]. unfold link_keeps_order in HG.
  unfold bus1_queue_link.
  destruct (rb_find (messages q) (entry_ptr e)) eqn:Hf; [done|].
  destruct (link_slot_inorder (messages q) e Hs)
    as (l1 & l2 & H0 & H1 & Hle & Hlt & Hlm).
  destruct (link_slot (messages q) e) as [t lm]. simpl in *.
  unfold front_at_leftmost, rb_first; simpl. rewrite H1.
  destruct lm; simpl.
  - destruct Hlm as [Hlm _]. rewrite (Hlm eq_refl). simpl.
    destruct (staging (seq e)) eqn:Hst; simpl.
    + left. by apply HG.
    + right. exists e. by rewrite <- staging_false_even.
  - destruct l1 as [|x l1]; [destruct Hlm as [_ Hlm]; by specialize (Hlm eq_refl)|].
    destruct Hfr as [Hfr|(f & Hf1 & Hf2 & Hf3)]; [by left|].
    right. exists f. unfold rb_first in Hf2. rewrite H0 in Hf2. done.
Qed.

Lemma front_not_staging q p e :
  queue_inv q -> rb_find (messages q) p = Some e -> staging (seq e) = true ->
  front q <> Some p.
Proof.
  intros [[Hs Hnd] [Hfr|(f & Hf1 & Hf2 & Hf3)]] Hfind Hst; [congruence|].
  intros Hp. rewrite Hf1 in Hp. injection Hp as Hp.
  unfold rb_first in Hf2. unfold rb_find in Hfind.
  destruct (inorder (messages q)) as [|x l]; [done|]. simpl in *.
  injection Hf2 as ->. unfold has_ptr in Hfind.
  rewrite bool_decide_eq_true_2 in Hfind by done. injection Hfind as ->.
  apply staging_true_even in Hst. congruence.
Qed.

Lemma erase_inv q p :
  queue_inv q -> front q <> Some p -> queue_inv (relink_erased q p).
Proof.
  intros [Hwf Hfr] Hp. split; [by apply erase_wf|].
  destruct Hfr as [Hfr|(f & Hf1 & Hf2 & Hf3)]; [by left|].
  right. exists f. unfold relink_erased, rb_first in *; simpl.
  destruct Hwf as [_ Hnd]. rewrite inorder_erase by done.
  destruct (inorder (messages q)) as [|x l]; [done|]. simpl in *.
  injection Hf2 as ->. rewrite filter_cons_True; [done|].
  unfold other. congruence.
Qed.

Lemma unlink_inv q p q' b :
  queue_inv q -> bus1_queue_unlink q p = Ok (q', b) -> queue_inv q'.
Proof.
  intros Hinv. unfold bus1_queue_unlink.
  destruct p as [p|]; [|by intros [= <- <-]].
  destruct (rb_find (messages q) p) as [e|] eqn:Hf; [|by intros [= <- <-]].
  case_decide as Hfr.
  - destruct (rb_next (messages q) p) as [nx|] eqn:Hnx; [|done].
    intros [= <- <-]. destruct Hinv as [Hwf Hfo].
    split; [apply (erase_wf q p Hwf)|]. simpl.
    destruct Hfo as [Hfo|(f & Hf1 & Hf2 & Hf3)]; [congruence|].
    rewrite Hfr in Hf1. injection Hf1 as Hf1.
    destruct Hwf as [Hs Hnd].
    unfold front_at_leftmost, rb_first, rb_next in *. simpl.
    rewrite inorder_erase by done.
    destruct (inorder (messages q)) as [|x l]; [done|]. simpl in *.
    injection Hf2 as ->. unfold has_ptr in Hnx.
    rewrite bool_decide_eq_true_2 in Hnx by done.
    apply NoDup_cons in Hnd as [Hx Hnd].
    rewrite filter_cons_False by (unfold other; intros Hq; apply Hq; congruence).
    rewrite filter_other_id by (subst p; exact Hx).
    destruct (staging (seq nx)) eqn:Hst; simpl; [by left|].
    right. exists nx. by rewrite <- staging_false_even.
  - intros [= <- <-]. by apply erase_inv.
Qed.

Lemma relink_inv q p s :
  link_keeps_order (relink_erased q p) {| entry_ptr := p; seq := s |} ->
  queue_inv q -> queue_inv (bus1_queue_relink q p s).1.
Proof.
  intros HG Hinv. unfold bus1_queue_relink.
  destruct (rb_find (messages q) p) as [e|] eqn:Hf; [|done].
  destruct (s =? 0); [done|]. simpl.
  destruct (staging (seq e)) eqn:Hst; [|done]. simpl.
  apply link_inv; [done|]. apply erase_inv; [done|].
  by eapply front_not_staging.
Qed.

Lemma flush_inv q : queue_inv q -> queue_inv (bus1_queue_flush q).
Proof.
  intros Hinv. unfold bus1_queue_flush. destruct (messages q); [done|].
  split; [split; simpl; constructor|by left].
Qed.

Lemma init_inv : queue_inv bus1_queue_init.
Proof. split; [split; simpl; constructor|by left]. Qed.

Lemma reachable_inv q : reachable link_keeps_order q -> queue_inv q.
Proof.
  unfold reachable. revert q. apply rtc_ind_r; [apply init_inv|].
  intros y z _ Hstep IH. destruct Hstep as [q e HG|q p q' b Hu|q p s HG|q|q t Hi].
  - by apply link_inv.
  - by eapply unlink_inv.
  - by apply relink_inv.
  - by apply flush_inv.
  - destruct IH as [[Hs Hnd] Hfr].
    unfold queue_inv, queue_wf, front_at_leftmost, rb_first in *. simpl.
    rewrite Hi. done.
Qed.


(** In a queue that satisfies the invariant, [bus1_queue_unlink] never
    reports that the queue became readable: the successor is only looked at
    when the entry is the front, and the front is never staging. *)
Lemma unlink_returns_false q p q' b :
  queue_inv q -> bus1_queue_unlink q p = Ok (q', b) -> b = false.
Proof.
  intros Hinv. unfold bus1_queue_unlink.
  destruct p as [p|]; [|by intros [= <- <-]].
  destruct (rb_find (messages q) p) as [e|] eqn:Hf; [|by intros [= <- <-]].
  case_decide as Hfr.
  - destruct (rb_next (messages q) p) as [nx|]; [|done].
    intros [= <- <-]. destruct (staging (seq e)) eqn:Hst; [|done].
    by destruct (front_not_staging q p e Hinv Hf Hst).
  - intros [= <- <-]. apply andb_false_r.
Qed.

(** Unlinking the front faults exactly when the front is the last entry. *)
Lemma unlink_last_front_faults q e :
  inorder (messages q) = [e] -> front q = Some (entry_ptr e) ->
  bus1_queue_unlink q (Some (entry_ptr e)) = NullDeref.
Proof.
  intros Hi Hfr. unfold bus1_queue_unlink, rb_find, rb_next.
  rewrite Hi. simpl. unfold has_ptr.
  rewrite bool_decide_eq_true_2 by done.
  rewrite decide_True by done. done.
Qed.

(** C3 (defect).  Unlinking the staging entry that blocks a committed one:
    the call returns [false] and leaves the front pointer NULL, although the
    entry behind it is committed and has become the leftmost entry. *)
Theorem unlink_blocking_staging_entry :
  bus1_queue_peek (queue_staged 3 4) = None /\
  bus1_queue_unlink (queue_staged 3 4) (Some (entry_ptr (entry_a 3))) =
    Ok ({| messages := RB_NODE RB_LEAF (entry_b 4) RB_LEAF; front := None |},
        false).
Proof. split; reflexivity. Qed.

(** C10 (defect).  Unlinking the only entry of a queue, which is the front:
    [rb_next] yields NULL and the read of the successor's [seq] goes through
    that NULL pointer. *)
Theorem unlink_only_entry_null_deref :
  reachable link_keeps_order queue_single /\
  bus1_queue_peek queue_single = Some (entry_ptr (entry_a 2)) /\
  bus1_queue_unlink queue_single (Some (entry_ptr (entry_a 2))) = NullDeref.
Proof.
  split; [|split; reflexivity].
  eapply rtc_l; [|apply rtc_refl].
  apply step_link. intros _ Hst. done.
Qed.

(** Where a link puts the entry, what it returns and what it does to the
    front pointer. *)
Lemma link_places_entry q e :
  queue_wf q -> rb_find (messages q) (entry_ptr e) = None ->
  exists l1 l2,
    inorder (messages q) = l1 ++ l2 /\
    inorder (messages (bus1_queue_link q e).1) = l1 ++ e :: l2 /\
    Forall (fun x => seq x <= seq e) l1 /\
    Forall (fun x => seq e < seq x) l2 /\
    (rb_first (messages (bus1_queue_link q e).1) = Some e <-> l1 = []) /\
    ((bus1_queue_link q e).2 = true <-> l1 = [] /\ Z.even (seq e) = true) /\
    front (bus1_queue_link q e).1 =
      if (bus1_queue_link q e).2 then Some (entry_ptr e) else front q.
Proof.
  intros [Hs Hnd] Hf. pose proof (link_front q e) as Hfront.
  unfold bus1_queue_link in *. rewrite Hf in *.
  destruct (link_slot_inorder (messages q) e Hs)
    as (l1 & l2 & H0 & H1 & Hle & Hlt & Hlm).
  destruct (link_slot (messages q) e) as [t lm]. simpl in *.
  exists l1, l2.
  split; [done|]. split; [done|]. split; [done|]. split; [done|].
  split; [|split; [|done]].
  - unfold rb_first. rewrite H1. split.
    + destruct l1 as [|x l1]; [done|].
      simpl. intros [= ->]. apply rb_find_None in Hf. destruct Hf.
      rewrite H0. simpl. left.
    + by intros ->.
  - rewrite andb_true_iff, negb_true_iff, staging_false_even. tauto.
Qed.

(** C5.  [bus1_queue_link] of an unlinked entry into a well-formed queue
    inserts it: the entry is linked afterwards, the tree is still ordered by
    [seq], and the entry stands behind every entry with a smaller or equal
    [seq] (ties go to the right) and before every entry with a larger one.
    It lands leftmost exactly when nothing is before it; the call returns
    [true] exactly when it landed leftmost with an even [seq], and then the
    front pointer is the new entry, otherwise the front pointer is
    unchanged. *)
Theorem link_spec q e :
  queue_wf q -> rb_find (messages q) (entry_ptr e) = None ->
  let q' := (bus1_queue_link q e).1 in
  let became_readable := (bus1_queue_link q e).2 in
  queue_wf q' /\
  rb_find (messages q') (entry_ptr e) = Some e /\
  exists l1 l2,
    inorder (messages q) = l1 ++ l2 /\
    inorder (messages q') = l1 ++ e :: l2 /\
    Forall (fun x => seq x <= seq e) l1 /\
    Forall (fun x => seq e < seq x) l2 /\
    (rb_first (messages q') = Some e <-> l1 = []) /\
    (became_readable = true <-> l1 = [] /\ Z.even (seq e) = true) /\
    front q' = if became_readable then Some (entry_ptr e) else front q.
Proof.
  intros Hwf Hf q' b. split; [by apply link_wf|].
  destruct (link_places_entry q e Hwf Hf) as (l1 & l2 & H0 & H1 & Hrest).
  split; [|by exists l1, l2].
  unfold rb_find, q'. rewrite H1.
  apply rb_find_None in Hf. rewrite H0, fmap_app in Hf.
  apply not_elem_of_app in Hf as [Hf _].
  clear H0 H1 Hrest. induction l1 as [|x l1 IH]; simpl.
  - unfold has_ptr. by rewrite bool_decide_eq_true_2.
  - rewrite fmap_cons in Hf. apply not_elem_of_cons in Hf as [Hx Hf].
    unfold has_ptr at 1. rewrite bool_decide_eq_false_2 by done. by apply IH.
Qed.

Lemma link_spec_witness :
  queue_wf queue_single /\
  rb_find (messages queue_single) (entry_ptr (entry_b 4)) = None /\
  queue_wf (bus1_queue_link queue_single (entry_b 4)).1 /\
  rb_find (messages (bus1_queue_link queue_single (entry_b 4)).1)
          (entry_ptr (entry_b 4)) = Some (entry_b 4).
Proof.
  assert (queue_wf queue_single) as Hwf.
  { split; [repeat constructor; unfold seq_le; simpl; lia|compute_done]. }
  split; [exact Hwf|]. split; [reflexivity|].
  destruct (link_spec queue_single (entry_b 4) Hwf eq_refl) as (H1 & H2 & _).
  split; [exact H1|exact H2].
Defined.

(** C4, with the caller's obligation on links made explicit.  In every queue reached from the empty queue by
    [link], [unlink], [relink] and [flush] calls that return, where no call
    links a staging entry in front of the entry the front pointer refers
    to, the front pointer is NULL, exclusive or it points to the leftmost
    entry and that entry has an even [seq]; whenever the leftmost entry has
    an odd [seq] the front pointer is NULL. *)
Theorem front_invariant q :
  reachable link_keeps_order q ->
  front_null_xor_leftmost q /\
  (forall e, rb_first (messages q) = Some e -> Z.odd (seq e) = true ->
             front q = None).
Proof.
  intros Hr. apply reachable_inv in Hr as [_ Hfr]. split.
  - split; [done|]. intros [Hn (f & Hf & _)]. congruence.
  - intros e He Hodd. destruct Hfr as [Hfr|(f & Hf1 & Hf2 & Hf3)]; [done|].
    rewrite He in Hf2. injection Hf2 as ->.
    rewrite <- Z.negb_even, Hf3 in Hodd. done.
Qed.

Lemma front_invariant_witness :
  reachable link_keeps_order (queue_staged 3 5) /\
  front_null_xor_leftmost (queue_staged 3 5) /\
  (forall e, rb_first (messages (queue_staged 3 5)) = Some e ->
             Z.odd (seq e) = true -> front (queue_staged 3 5) = None).
Proof.
  assert (reachable link_keeps_order (queue_staged 3 5)) as Hr.
  { eapply rtc_l; [apply (step_link _ _ (entry_a 3)); intros _ _; reflexivity|].
    eapply rtc_l; [apply (step_link _ _ (entry_b 5)); intros _ _; reflexivity|].
    apply rtc_refl. }
  split; [exact Hr|]. apply (front_invariant _ Hr).
Defined.

(** C4, counterexample.  With arbitrary links the property is lost: linking
    a staging entry in front of a committed one leaves the front pointer on
    an entry that is no longer the leftmost. *)
Lemma front_invariant_any_link_fails :
  ~ (forall q, reachable any_link q -> front_null_xor_leftmost q).
Proof.
  intros H. destruct (H queue_disordered) as [[Hn|(f & Hf1 & Hf2 & _)] _].
  - eapply rtc_l; [apply (step_link _ _ (entry_a 4)); exact I|].
    eapply rtc_l; [apply (step_link _ _ (entry_b 3)); exact I|].
    apply rtc_refl.
  - discriminate Hn.
  - vm_compute in Hf2. injection Hf2 as <-. discriminate Hf1.
Qed.

(** Where [bus1_queue_relink] puts the entry and what it reports: a linked
    staging entry with a nonzero new [seq] is taken out, gets the new [seq]
    and is linked again at its ordered place; the result is [true] exactly
    when the front pointer was NULL before and is set afterwards, and then
    the front is the relinked entry, leftmost and with an even [seq].  In
    the queue that holds a staging entry at 3 and an entry at 5, peek yields
    NULL and relinking 3 to 4 makes the entry at 4 the front and returns
    [true]. *)
Lemma relink_spec :
  (forall q p e s,
     queue_wf q -> rb_find (messages q) p = Some e ->
     Z.odd (seq e) = true -> s <> 0 ->
     let e' := {| entry_ptr := p; seq := s |} in
     let r := bus1_queue_relink q p s in
     (exists l1 l2,
        filter (other p) (inorder (messages q)) = l1 ++ l2 /\
        inorder (messages r.1) = l1 ++ e' :: l2 /\
        Forall (fun x => seq x <= s) l1 /\
        Forall (fun x => s < seq x) l2) /\
     (r.2 = true <-> front q = None /\ is_Some (front r.1)) /\
     (r.2 = true ->
        front r.1 = Some p /\ rb_first (messages r.1) = Some e' /\
        Z.even s = true)) /\
  bus1_queue_peek (queue_staged 3 5) = None /\
  bus1_queue_relink (queue_staged 3 5) (entry_ptr (entry_a 3)) 4 =
    ({| messages := RB_NODE (RB_NODE RB_LEAF (entry_a 4) RB_LEAF)
                            (entry_b 5) RB_LEAF;
        front := Some (entry_ptr (entry_a 4)) |}, true).
Proof.
  split; [|split; reflexivity].
  intros q p e s Hwf Hf Hodd Hs e' r.
  assert (staging (seq e) = true) as Hst by by rewrite staging_odd.
  pose proof (erase_wf q p Hwf) as Hwf1.
  assert (rb_find (messages (relink_erased q p)) (entry_ptr e') = None) as Hf1.
  { apply rb_find_None. simpl. destruct Hwf as [_ Hnd].
    rewrite inorder_erase by done. intros Hin.
    apply list_elem_of_fmap in Hin as (x & Hx & Hin).
    apply list_elem_of_filter in Hin as [Ho _]. unfold other in Ho. congruence. }
  destruct (link_places_entry _ e' Hwf1 Hf1)
    as (l1 & l2 & H0 & H1 & Hle & Hlt & Hfirst & Hret & Hfront).
  assert (r = ((bus1_queue_link (relink_erased q p) e').1,
               negb (bool_decide (is_Some (front q)))
               && bool_decide (is_Some
                    (front (bus1_queue_link (relink_erased q p) e').1)))) as Hr.
  { unfold r, bus1_queue_relink. rewrite Hf, Hst.
    destruct (Z.eqb_spec s 0); [done|]. reflexivity. }
  rewrite Hr. simpl. split; [|split].
  - exists l1, l2. repeat split; try done.
    rewrite <- H0. simpl. destruct Hwf as [_ Hnd].
    by rewrite inorder_erase.
  - rewrite andb_true_iff, negb_true_iff, bool_decide_eq_false,
      bool_decide_eq_true. rewrite <- eq_None_not_Some. done.
  - rewrite andb_true_iff, negb_true_iff, bool_decide_eq_false,
      bool_decide_eq_true. rewrite <- eq_None_not_Some.
    intros [Hn Hsome]. rewrite Hfront in Hsome |- *. simpl in *.
    destruct (bus1_queue_link (relink_erased q p) e').2 eqn:Hb.
    + destruct Hret as [Hret _]. destruct (Hret eq_refl) as [-> Hev].
      split; [done|]. split; [by apply Hfirst|done].
    + rewrite Hn in Hsome. by destruct Hsome.
Qed.

Lemma relink_spec_example :
  queue_wf (queue_staged 3 5) /\
  rb_find (messages (queue_staged 3 5)) 1%positive = Some (entry_a 3) /\
  ((bus1_queue_relink (queue_staged 3 5) 1%positive 4).2 = true <->
     front (queue_staged 3 5) = None /\
     is_Some (front (bus1_queue_relink (queue_staged 3 5) 1%positive 4).1)).
Proof.
  assert (queue_wf (queue_staged 3 5)) as Hwf.
  { split; [repeat constructor; unfold seq_le; simpl; lia|compute_done]. }
  split; [exact Hwf|]. split; [reflexivity|].
  apply (proj1 relink_spec (queue_staged 3 5) 1%positive (entry_a 3) 4 Hwf);
    [reflexivity|reflexivity|lia].
Qed.

(** C6 (defect).  Relinking the staging entry that blocks a committed one
    to a sequence number behind it: the call returns [false] and leaves the
    front pointer NULL, although the committed entry has become the
    leftmost entry of the queue and nothing blocks it any more; this is so
    whether the new number is odd or even.  The call reports a readable
    queue only when the relinked entry itself ends up leftmost with an even
    [seq], as in the relink of 3 to 4 in front of an entry at 5. *)
Theorem relink_behind_committed_entry :
  reachable link_keeps_order (queue_staged 3 4) /\
  bus1_queue_peek (queue_staged 3 4) = None /\
  bus1_queue_relink (queue_staged 3 4) (entry_ptr (entry_a 3)) 7 =
    ({| messages := RB_NODE RB_LEAF (entry_b 4)
                            (RB_NODE RB_LEAF (entry_a 7) RB_LEAF);
        front := None |}, false) /\
  bus1_queue_relink (queue_staged 3 4) (entry_ptr (entry_a 3)) 8 =
    ({| messages := RB_NODE RB_LEAF (entry_b 4)
                            (RB_NODE RB_LEAF (entry_a 8) RB_LEAF);
        front := None |}, false) /\
  rb_first (messages
              (bus1_queue_relink (queue_staged 3 4)
                                 (entry_ptr (entry_a 3)) 7).1)
    = Some (entry_b 4) /\
  staging (seq (entry_b 4)) = false /\
  bus1_queue_relink (queue_staged 3 5) (entry_ptr (entry_a 3)) 4 =
    ({| messages := RB_NODE (RB_NODE RB_LEAF (entry_a 4) RB_LEAF)
                            (entry_b 5) RB_LEAF;
        front := Some (entry_ptr (entry_a 4)) |}, true).
Proof.
  split; [|repeat split; reflexivity].
  eapply rtc_l; [apply (step_link _ _ (entry_a 3)); intros _ _; reflexivity|].
  eapply rtc_l; [apply (step_link _ _ (entry_b 4)); intros _ _; reflexivity|].
  apply rtc_refl.
Qed.

(** *** The queue as its callers see it *)

Lemma find_in_nodup (l : list bus1_queue_entry) e :
  NoDup (entry_ptr <$> l) -> e ∈ l ->
  List.find (has_ptr (entry_ptr e)) l = Some e.
Proof.
  induction l as [|x l IH]; simpl; intros Hnd Hin; [by apply elem_of_nil in Hin|].
  apply NoDup_cons in Hnd as [Hx Hnd]. unfold has_ptr at 1.
  apply elem_of_cons in Hin as [->|Hin].
  - by rewrite bool_decide_eq_true_2.
  - rewrite bool_decide_eq_false_2; [by apply IH|].
    intros Heq. apply Hx. rewrite Heq. by apply list_elem_of_fmap_2.
Qed.

Lemma rb_find_in q e :
  queue_wf q -> e ∈ inorder (messages q) ->
  rb_find (messages q) (entry_ptr e) = Some e.
Proof. intros [_ Hnd] Hin. by apply find_in_nodup. Qed.

Lemma rb_find_erase_ne q p x e :
  queue_wf q -> rb_find (messages q) x = Some e -> x <> p ->
  rb_find (rb_erase p (messages q)) x = Some e.
Proof.
  intros Hwf Hf Hne. pose proof (erase_wf q p Hwf) as Hwf'.
  apply rb_find_Some in Hf as [Hin <-].
  apply (rb_find_in (relink_erased q p)); [done|]. simpl.
  destruct Hwf as [_ Hnd]. rewrite inorder_erase by done.
  apply list_elem_of_filter. split; [|done]. unfold other. done.
Qed.

Lemma rb_find_erase_eq q p :
  queue_wf q -> rb_find (rb_erase p (messages q)) p = None.
Proof.
  intros [_ Hnd]. apply rb_find_None. rewrite inorder_erase by done.
  intros Hin. apply list_elem_of_fmap in Hin as (x & Hx & Hin).
  apply list_elem_of_filter in Hin as [Ho _]. unfold other in Ho. congruence.
Qed.

Lemma list_next_in (l : list bus1_queue_entry) p nx :
  NoDup (entry_ptr <$> l) -> list_next l p = Some nx ->
  nx ∈ l /\ entry_ptr nx <> p.
Proof.
  induction l as [|x l IH]; simpl; intros Hnd Hn; [done|].
  apply NoDup_cons in Hnd as [Hx Hnd]. unfold has_ptr in Hn.
  case_bool_decide as Hp.
  - destruct l as [|y l]; [done|]. simpl in Hn. injection Hn as ->.
    split; [right; left|]. intros Heq. apply Hx. rewrite Hp, <- Heq.
    rewrite fmap_cons. left.
  - destruct (IH Hnd Hn) as [Hin Hne]. split; [by right|done].
Qed.

Lemma rb_find_link_old q e x f :
  queue_wf q -> rb_find (messages q) (entry_ptr e) = None ->
  rb_find (messages q) x = Some f ->
  rb_find (messages (bus1_queue_link q e).1) x = Some f.
Proof.
  intros Hwf Hnone Hf. pose proof (link_wf q e Hwf) as Hwf'.
  apply rb_find_Some in Hf as [Hin <-].
  apply (rb_find_in _ f Hwf').
  destruct (link_places_entry q e Hwf Hnone) as (l1 & l2 & H0 & H1 & _).
  rewrite H1. rewrite H0 in Hin. apply elem_of_app in Hin as [Hin|Hin].
  - apply elem_of_app. by left.
  - apply elem_of_app. right. by right.
Qed.

Lemma rb_find_link_new q e :
  queue_wf q -> rb_find (messages q) (entry_ptr e) = None ->
  rb_find (messages (bus1_queue_link q e).1) (entry_ptr e) = Some e.
Proof.
  intros Hwf Hnone. pose proof (link_wf q e Hwf) as Hwf'.
  apply (rb_find_in _ e Hwf').
  destruct (link_places_entry q e Hwf Hnone) as (l1 & l2 & H0 & H1 & _).
  rewrite H1. apply elem_of_app. right. left.
Qed.

Lemma link_safe q e : queue_safe q -> queue_safe (bus1_queue_link q e).1.
Proof.
  intros [Hwf Hfr]. split; [by apply link_wf|].
  destruct (rb_find (messages q) (entry_ptr e)) as [x|] eqn:Hf.
  { unfold bus1_queue_link. rewrite Hf. done. }
  intros p Hp. rewrite link_front in Hp.
  destruct (bus1_queue_link q e).2 eqn:Hb.
  - injection Hp as <-. exists e. split; [by apply rb_find_link_new|].
    unfold bus1_queue_link in Hb. rewrite Hf in Hb.
    destruct (link_slot (messages q) e) as [t lm]. simpl in Hb.
    apply andb_true_iff in Hb as [_ Hb]. by apply negb_true_iff in Hb.
  - destruct (Hfr p Hp) as (f & Hff & Hst). exists f.
    split; [by apply rb_find_link_old|done].
Qed.

Lemma erase_safe q p :
  queue_safe q -> front q <> Some p -> queue_safe (relink_erased q p).
Proof.
  intros [Hwf Hfr] Hne. split; [by apply erase_wf|].
  intros x Hx. simpl in Hx. destruct (Hfr x Hx) as (f & Hf & Hst).
  exists f. split; [|done]. simpl. apply rb_find_erase_ne; [done|done|congruence].
Qed.

Lemma unlink_safe q p q' b :
  queue_safe q -> bus1_queue_unlink q p = Ok (q', b) -> queue_safe q'.
Proof.
  intros Hs. unfold bus1_queue_unlink.
  destruct p as [p|]; [|by intros [= <- <-]].
  destruct (rb_find (messages q) p) as [e|] eqn:Hf; [|by intros [= <- <-]].
  case_decide as Hfr.
  - destruct (rb_next (messages q) p) as [nx|] eqn:Hnx; [|done].
    intros [= <- <-]. destruct Hs as [Hwf Hready].
    split; [apply (erase_wf q p Hwf)|].
    intros x Hx. simpl in Hx.
    destruct (staging (seq nx)) eqn:Hst; [done|]. simpl in Hx.
    injection Hx as <-. exists nx. split; [|done]. simpl.
    destruct (list_next_in _ _ _ (proj2 Hwf) Hnx) as [Hin Hne].
    apply rb_find_erase_ne; [done| |done]. by apply rb_find_in.
  - intros [= <- <-]. by apply erase_safe.
Qed.

Lemma relink_safe q p s : queue_safe q -> queue_safe (bus1_queue_relink q p s).1.
Proof.
  intros Hs. unfold bus1_queue_relink.
  destruct (rb_find (messages q) p) as [e|] eqn:Hf; [|done].
  destruct (s =? 0); [done|]. simpl.
  destruct (staging (seq e)) eqn:Hst; [|done]. simpl.
  apply link_safe, erase_safe; [done|].
  intros Hp. destruct Hs as [_ Hready].
  destruct (Hready p Hp) as (f & Hff & Hsf). congruence.
Qed.

Lemma flush_safe q : queue_safe q -> queue_safe (bus1_queue_flush q).
Proof.
  intros Hs. unfold bus1_queue_flush. destruct (messages q); [done|].
  split; [split; simpl; constructor|]. intros p Hp. done.
Qed.

Lemma init_safe : queue_safe bus1_queue_init.
Proof. split; [split; simpl; constructor|]. intros p Hp. done. Qed.

Lemma reachable_safe G q : reachable G q -> queue_safe q.
Proof.
  unfold reachable. revert q. apply rtc_ind_r; [apply init_safe|].
  intros y z _ Hstep IH. destruct Hstep as [q e HG|q p q' b Hu|q p s HG|q|q t Hi].
  - by apply link_safe.
  - by eapply unlink_safe.
  - by apply relink_safe.
  - by apply flush_safe.
  - destruct IH as [[Hs Hnd] Hfr].
    unfold queue_safe, queue_wf, front_is_ready, rb_find in *. simpl.
    rewrite Hi. done.
Qed.

Lemma reachable_disordered : reachable any_link queue_disordered.
Proof.
  eapply rtc_l; [apply (step_link _ _ (entry_a 4)); exact I|].
  eapply rtc_l; [apply (step_link _ _ (entry_b 3)); exact I|].
  apply rtc_refl.
Qed.

Lemma reachable_staged : reachable link_keeps_order (queue_staged 3 4).
Proof.
  eapply rtc_l; [apply (step_link _ _ (entry_a 3)); intros _ _; reflexivity|].
  eapply rtc_l; [apply (step_link _ _ (entry_b 4)); intros _ _; reflexivity|].
  apply rtc_refl.
Qed.

(** X1.  Whatever the callers link, relink, unlink or flush, and however the
    tree is rebalanced, the in-order sequence of the tree stays sorted by
    [seq] and no entry is linked twice. *)
Theorem queue_stays_sorted G q :
  reachable G q ->
  StronglySorted seq_le (inorder (messages q)) /\
  NoDup (entry_ptr <$> inorder (messages q)).
Proof. intros Hr. by destruct (reachable_safe G q Hr) as [Hwf _]. Qed.

Lemma queue_stays_sorted_witness :
  StronglySorted seq_le (inorder (messages queue_disordered)) /\
  NoDup (entry_ptr <$> inorder (messages queue_disordered)).
Proof. exact (queue_stays_sorted any_link _ reachable_disordered). Defined.

(** X2.  Whatever the callers link, [bus1_queue_peek] never yields a staging
    entry nor an entry that is not linked: what it returns is the address
    of an entry in the tree whose [seq] is even. *)
Theorem peek_yields_ready_entry G q p :
  reachable G q -> bus1_queue_peek q = Some p ->
  exists e, e ∈ inorder (messages q) /\ entry_ptr e = p /\
            Z.even (seq e) = true.
Proof.
  intros Hr Hp. destruct (reachable_safe G q Hr) as [_ Hready].
  destruct (Hready p Hp) as (e & Hf & Hst). exists e.
  apply rb_find_Some in Hf as [Hin Hptr].
  split; [done|]. split; [done|]. by apply staging_false_even.
Qed.

Lemma peek_yields_ready_entry_witness :
  exists e, e ∈ inorder (messages queue_disordered) /\
            entry_ptr e = 1%positive /\ Z.even (seq e) = true.
Proof.
  exact (peek_yields_ready_entry any_link queue_disordered 1%positive
           reachable_disordered eq_refl).
Defined.

(** X3.  [bus1_queue_unlink] never reports that the queue became readable:
    in every queue the interface can produce, a call that returns returns
    [false].  The successor is only inspected when the unlinked entry is
    the front, and the front is never a staging entry. *)
Theorem unlink_never_reports_readable G q p q' b :
  reachable G q -> bus1_queue_unlink q p = Ok (q', b) -> b = false.
Proof.
  intros Hr. destruct (reachable_safe G q Hr) as [_ Hready].
  unfold bus1_queue_unlink.
  destruct p as [p|]; [|by intros [= <- <-]].
  destruct (rb_find (messages q) p) as [e|] eqn:Hf; [|by intros [= <- <-]].
  case_decide as Hfr.
  - destruct (rb_next (messages q) p) as [nx|]; [|done].
    intros [= <- <-]. destruct (Hready p Hfr) as (f & Hff & Hst).
    rewrite Hf in Hff. injection Hff as <-. by rewrite Hst.
  - intros [= <- <-]. apply andb_false_r.
Qed.

Lemma unlink_never_reports_readable_witness :
  (bus1_queue_unlink (queue_staged 3 4) (Some 1%positive)) =
    Ok ({| messages := RB_NODE RB_LEAF (entry_b 4) RB_LEAF; front := None |},
        false) /\ false = false.
Proof.
  split; [reflexivity|].
  exact (unlink_never_reports_readable link_keeps_order (queue_staged 3 4)
           (Some 1%positive) _ false reachable_staged eq_refl).
Defined.

(** X4.  When callers never link a staging entry in front of the front,
    the entry [bus1_queue_peek] returns has the smallest [seq] of the
    queue. *)
Theorem peek_yields_smallest q p :
  reachable link_keeps_order q -> bus1_queue_peek q = Some p ->
  exists e, rb_find (messages q) p = Some e /\
            forall x, x ∈ inorder (messages q) -> seq e <= seq x.
Proof.
  intros Hr Hp. destruct (reachable_inv q Hr) as [Hwf Hfr].
  unfold bus1_queue_peek in Hp.
  destruct Hfr as [Hfr|(f & Hf1 & Hf2 & Hf3)]; [congruence|].
  rewrite Hp in Hf1. injection Hf1 as ->. exists f.
  unfold rb_first in Hf2. destruct Hwf as [Hs Hnd].
  destruct (inorder (messages q)) as [|y l] eqn:Hl; [done|].
  simpl in Hf2. injection Hf2 as ->. split.
  - unfold rb_find. rewrite Hl. simpl. unfold has_ptr.
    by rewrite bool_decide_eq_true_2.
  - intros x Hx. apply elem_of_cons in Hx as [->|Hx]; [lia|].
    apply StronglySorted_inv in Hs as [_ Hall].
    rewrite Forall_forall in Hall. by apply Hall.
Qed.

Lemma peek_yields_smallest_witness :
  exists e, rb_find (messages queue_single) 1%positive = Some e /\
            forall x, x ∈ inorder (messages queue_single) -> seq e <= seq x.
Proof.
  apply (peek_yields_smallest queue_single 1%positive); [|reflexivity].
  eapply rtc_l; [apply (step_link _ _ (entry_a 2)); intros _ Hst; done|].
  apply rtc_refl.
Defined.

(** X5.  Unlinking is idempotent: once a call of [bus1_queue_unlink]
    returned, the entry is unlinked and a second call for it changes nothing
    and returns [false]. *)
Theorem unlink_twice q p q' b :
  queue_wf q -> bus1_queue_unlink q p = Ok (q', b) ->
  (forall p', p = Some p' -> rb_find (messages q') p' = None) /\
  bus1_queue_unlink q' p = Ok (q', false).
Proof.
  intros Hwf. unfold bus1_queue_unlink at 1.
  destruct p as [p|]; [|intros [= <- <-]; split; [done|reflexivity]].
  destruct (rb_find (messages q) p) as [e|] eqn:Hf.
  2:{ intros [= <- <-]. split; [by intros p' [= <-]|].
      unfold bus1_queue_unlink. by rewrite Hf. }
  assert (forall fr, rb_find (messages {| messages := rb_erase p (messages q);
                                          front := fr |}) p = None) as Hgone.
  { intros fr. simpl. by apply rb_find_erase_eq. }
  case_decide as Hfr.
  - destruct (rb_next (messages q) p) as [nx|]; [|done].
    intros [= <- <-]. split; [intros p' [= <-]; apply Hgone|].
    unfold bus1_queue_unlink. by rewrite Hgone.
  - intros [= <- <-]. split; [intros p' [= <-]; apply Hgone|].
    unfold bus1_queue_unlink. by rewrite Hgone.
Qed.

Lemma queue_wf_staged : queue_wf (queue_staged 3 4).
Proof. split; [repeat constructor; unfold seq_le; simpl; lia|compute_done]. Qed.

Lemma unlink_twice_witness :
  let q' := {| messages := RB_NODE RB_LEAF (entry_b 4) RB_LEAF;
               front := None |} in
  bus1_queue_unlink q' (Some 1%positive) = Ok (q', false).
Proof.
  exact (proj2 (unlink_twice (queue_staged 3 4) (Some 1%positive) _ false
                  queue_wf_staged eq_refl)).
Defined.

(** X6.  Unlinking an entry right after it was linked.  The unlink
    dereferences NULL exactly when the queue was empty and the entry is
    committed: the entry became the front and has no successor.  In every
    other case the unlink returns [false] and gives back the in-order
    sequence the queue had, and when the link did not make the queue
    readable the front pointer is what it was as well. *)
Theorem link_then_unlink q e :
  queue_safe q -> rb_find (messages q) (entry_ptr e) = None ->
  let q1 := (bus1_queue_link q e).1 in
  let r := bus1_queue_unlink q1 (Some (entry_ptr e)) in
  (r = NullDeref <->
   inorder (messages q) = [] /\ staging (seq e) = false) /\
  (~ (inorder (messages q) = [] /\ staging (seq e) = false) ->
   exists q2,
     r = Ok (q2, false) /\
     inorder (messages q2) = inorder (messages q) /\
     ((bus1_queue_link q e).2 = false -> front q2 = front q)).
Proof.
  intros [Hwf Hready] Hnone q1 r. unfold r, q1. clear r q1.
  set (q1 := (bus1_queue_link q e).1).
  pose proof (link_wf q e Hwf : queue_wf q1) as Hwf1.
  pose proof (rb_find_link_new q e Hwf Hnone
              : rb_find (messages q1) _ = _) as Hnew.
  destruct (link_places_entry q e Hwf Hnone)
    as (l1 & l2 & H0 & H1 & _ & _ & _ & Hret & _).
  assert (inorder (rb_erase (entry_ptr e) (messages q1))
          = inorder (messages q)) as Hback.
  { destruct Hwf1 as [_ Hnd1]. rewrite inorder_erase by done.
    unfold q1. rewrite H1, H0. rewrite filter_app, filter_cons_False
      by (unfold other; tauto).
    apply rb_find_None in Hnone. rewrite H0, fmap_app in Hnone.
    apply not_elem_of_app in Hnone as [Hn1 Hn2].
    by rewrite !filter_other_id. }
  pose proof (link_front q e) as Hfront. fold q1 in Hfront.
  unfold bus1_queue_unlink. rewrite Hnew.
  destruct (bus1_queue_link q e).2 eqn:Hb.
  - (* the entry became the front *)
    destruct (proj1 Hret eq_refl) as [-> Hev].
    apply staging_false_even in Hev. simpl in H0.
    rewrite decide_True by done.
    assert (rb_next (messages q1) (entry_ptr e) = head l2) as ->.
    { unfold rb_next. fold q1 in H1. rewrite H1. simpl. unfold has_ptr.
      by rewrite bool_decide_eq_true_2. }
    rewrite H0, Hev. destruct l2 as [|nx l2]; simpl.
    + split; [done|]. intros Hno. by destruct Hno.
    + split; [split; [done|by intros [? _]]|].
      intros _. eexists. split; [reflexivity|]. simpl.
      split; [by rewrite Hback, H0|done].
  - (* the front is some other entry, or NULL *)
    assert (front q1 <> Some (entry_ptr e)) as Hne.
    { rewrite Hfront. intros Hp.
      destruct (Hready _ Hp) as (f & Hf & _). congruence. }
    rewrite decide_False by done. rewrite andb_false_r.
    assert (~ (inorder (messages q) = [] /\ staging (seq e) = false)) as Hno.
    { intros [Hnil Hst]. rewrite H0 in Hnil.
      apply app_eq_nil in Hnil as [-> _].
      apply staging_false_even in Hst.
      assert (false = true) by (by apply Hret). done. }
    split; [split; [done|by intros ?]|].
    intros _. eexists. split; [reflexivity|]. simpl.
    split; [exact Hback|by intros _].
Qed.

Lemma queue_safe_single : queue_safe queue_single.
Proof.
  apply (reachable_safe any_link).
  eapply rtc_l; [apply (step_link _ _ (entry_a 2)); exact I|]. apply rtc_refl.
Qed.

Lemma link_then_unlink_witness :
  exists q2,
    bus1_queue_unlink (bus1_queue_link queue_single (entry_b 4)).1
      (Some (entry_ptr (entry_b 4))) = Ok (q2, false) /\
    inorder (messages q2) = inorder (messages queue_single) /\
    ((bus1_queue_link queue_single (entry_b 4)).2 = false ->
     front q2 = front queue_single).
Proof.
  apply (proj2 (link_then_unlink queue_single (entry_b 4) queue_safe_single
                  eq_refl)).
  intros [Hnil _]. discriminate Hnil.
Defined.

(** X7.  Flushing any queue the interface can produce leaves exactly a
    freshly initialised queue, also on the early return for an empty tree,
    so that [bus1_queue_destroy] raises no warning afterwards and
    [bus1_queue_peek] yields NULL. *)
Theorem flush_resets_queue G q :
  reachable G q ->
  bus1_queue_flush q = bus1_queue_init /\
  bus1_queue_destroy (bus1_queue_flush q) = false /\
  bus1_queue_peek (bus1_queue_flush q) = None.
Proof.
  intros Hr. destruct (reachable_safe G q Hr) as [_ Hready].
  assert (bus1_queue_flush q = bus1_queue_init) as ->; [|done].
  unfold bus1_queue_flush, bus1_queue_init.
  destruct q as [t fr]. simpl. destruct t as [|l x r] eqn:Ht; [|done].
  destruct fr as [p|]; [|done].
  destruct (Hready p eq_refl) as (e & He & _). done.
Qed.

Lemma flush_resets_queue_witness :
  bus1_queue_flush queue_disordered = bus1_queue_init /\
  bus1_queue_destroy (bus1_queue_flush queue_disordered) = false /\
  bus1_queue_peek (bus1_queue_flush queue_disordered) = None.
Proof. exact (flush_resets_queue any_link _ reachable_disordered). Defined.

End QueueFacts.

(** * Properties of the quota accounting *)

Module QuotaFacts.
Import Quota WordFacts.

Lemma size_t_id x : 0 <= x < 2 ^ 64 -> size_t x = x.
Proof. intros H. unfold size_t. by apply Z.mod_small. Qed.

(** One resource: the local test is the half-of-the-remainder rule, and the
    global counter is decremented exactly when both tests pass. *)
Lemma charge_one_spec g local share charge :
  0 <= charge < 2 ^ 64 -> budget_in_range local share ->
  let r := bus1_user_quota_charge_one g local share charge in
  (r.1 = 0 \/ r.1 = - EDQUOT) /\
  (r.1 = 0 <-> within_budget g local share charge) /\
  r.2 = (fun gv => if r.1 =? 0 then gv - charge else gv) <$> g.
Proof.
  intros Hc (Hl & Hs & Hsl). unfold bus1_user_quota_charge_one, within_budget.
  destruct (Z.ltb_spec local charge) as [Hlt|Hge]; simpl.
  { split; [by right|]. split; [|by destruct g].
    split; [done|]. intros [? _]. lia. }
  rewrite !size_t_id by lia.
  destruct (Z.ltb_spec (local - charge) (share + charge)) as [Hlt|Hge2]; simpl.
  { split; [by right|]. split; [|by destruct g].
    split; [done|]. intros [? _]. lia. }
  destruct g as [g|]; simpl.
  - unfold bus1_atomic_sub_if_ge.
    rewrite (size_t_id (charge * 2)) by lia. rewrite size_t_id by lia.
    destruct (Z.leb_spec (share + charge * 2) g); simpl.
    + split; [by left|]. split; [|done]. split; [lia|done].
    + split; [by right|]. split; [|done]. split; [done|]. lia.
  - split; [by left|]. split; [|done]. split; [lia|done].
Qed.

Lemma stats_at_query alloc_ok stats user arr i :
  bus1_user_quota_query alloc_ok stats user = Some arr ->
  stats_at arr i = stats_at stats i.
Proof.
  unfold bus1_user_quota_query, stats_at.
  destruct (_ <=? _); [|by intros [= ->]].
  destruct alloc_ok; [|done]. intros [= <-].
  destruct (decide (i < length stats)%nat) as [Hlt|Hge].
  - by rewrite lookup_app_l.
  - rewrite lookup_app_r by lia. rewrite (lookup_ge_None_2 stats) by lia.
    simpl. destruct (replicate _ _ !! _) as [x|] eqn:Hx; [|done].
    apply lookup_replicate in Hx as [-> _]. done.
Qed.


(** C7.  Once the slot of the user is found, [bus1_user_quota_charge]
    returns 0 or [-EDQUOT]; it returns 0 exactly when, for the size (local
    budget only), the message, the handles and the file descriptors, the
    remaining local budget and the remaining global budget are at least the
    share plus twice the charge; and when it returns [-EDQUOT] the user's
    global counters, the peer's local counters and every recorded share are
    as before the call. *)
Theorem charge_spec alloc_ok peer user size nh nf arr st :
  bus1_user_quota_query alloc_ok (quota_stats peer) user = Some arr ->
  arr !! Z.to_nat (user_id user) = Some st ->
  charge_in_range peer user st size nh nf ->
  exists r peer' user',
    bus1_user_quota_charge alloc_ok peer user size nh nf
      = Some (r, peer', user') /\
    st = stats_at (quota_stats peer) (Z.to_nat (user_id user)) /\
    (r = 0 \/ r = - EDQUOT) /\
    (r = 0 <->
       within_budget None (n_allocated peer) (s_n_allocated st) size /\
       within_budget (Some (u_n_messages user))
                     (n_messages peer) (s_n_messages st) 1 /\
       within_budget (Some (u_n_handles user))
                     (n_handles peer) (s_n_handles st) nh /\
       within_budget (Some (u_n_fds user))
                     (n_fds peer) (s_n_fds st) nf) /\
    (r = - EDQUOT ->
       user' = user /\
       n_allocated peer' = n_allocated peer /\
       n_messages peer' = n_messages peer /\
       n_handles peer' = n_handles peer /\
       n_fds peer' = n_fds peer /\
       forall i, stats_at (quota_stats peer') i
                 = stats_at (quota_stats peer) i).
Proof.
  intros Hq Hst [(Hum & Huh & Huf) Hsz Hnh Hnf Ha Hm Hh Hf].
  unfold is_int in *.
  assert (st = stats_at (quota_stats peer) (Z.to_nat (user_id user))) as Hshare.
  { rewrite <- (stats_at_query _ _ _ _ _ Hq). unfold stats_at. by rewrite Hst. }
  unfold bus1_user_quota_charge. rewrite Hq, Hst. simpl.
  destruct (charge_one_spec None _ _ size Hsz Ha) as (H1 & H1' & _).
  destruct (charge_one_spec (Some (u_n_messages user)) _ _ 1 ltac:(lia) Hm)
    as (H2 & H2' & H2g).
  destruct (charge_one_spec (Some (u_n_handles user)) _ _ nh Hnh Hh)
    as (H3 & H3' & H3g).
  destruct (charge_one_spec (Some (u_n_fds user)) _ _ nf Hnf Hf)
    as (H4 & H4' & H4g).
  unfold global_of. simpl in *.
  set (r1 := bus1_user_quota_charge_one None _ _ size) in *.
  set (r2 := bus1_user_quota_charge_one (Some (u_n_messages user)) _ _ 1) in *.
  set (r3 := bus1_user_quota_charge_one (Some (u_n_handles user)) _ _ nh) in *.
  set (r4 := bus1_user_quota_charge_one (Some (u_n_fds user)) _ _ nf) in *.
  clearbody r1 r2 r3 r4.
  assert (forall i, stats_at arr i = stats_at (quota_stats peer) i) as Harr
    by (intros i; by eapply stats_at_query).
  assert (- EDQUOT <> 0) as Hne by (unfold EDQUOT; lia).
  destruct H1 as [E1|E1]; rewrite E1 in *; simpl.
  2:{ do 3 eexists. split; [reflexivity|]. split; [done|].
      split; [by right|]. split; [|by destruct user].
      split; [done|]. intros [? _]. tauto. }
  destruct H2 as [E2|E2]; rewrite E2 in *; simpl.
  2:{ do 3 eexists. split; [reflexivity|]. split; [done|].
      split; [by right|]. split; [|by destruct user].
      split; [done|]. intros (_ & ? & _). tauto. }
  rewrite H2g. simpl.
  destruct H3 as [E3|E3]; rewrite E3 in *; simpl.
  2:{ do 3 eexists. split; [reflexivity|]. split; [done|].
      split; [by right|]. split.
      - split; [done|]. intros (_ & _ & ? & _). tauto.
      - intros _. split; [|done]. destruct user; simpl in *. f_equal.
        rewrite int32_id; lia. }
  rewrite H3g. simpl.
  destruct H4 as [E4|E4]; rewrite E4 in *; simpl.
  2:{ do 3 eexists. split; [reflexivity|]. split; [done|].
      split; [by right|]. split.
      - split; [done|]. intros (_ & _ & _ & ?). tauto.
      - intros _. split; [|done].
        assert (0 <= nh < 2 ^ 30) as Hnh'.
        { destruct H3' as [H3' _]. destruct (H3' eq_refl) as [_ Hg].
          destruct Hh as (_ & Hs & _). simpl in Hg. lia. }
        destruct user; simpl in *. rewrite (int32_id nh) by lia.
        f_equal; rewrite int32_id; lia. }
  do 3 eexists. split; [reflexivity|]. split; [done|].
  split; [by left|]. split; [|done].
  split; [|done]. intros _. tauto.
Qed.

Lemma charge_spec_witness :
  charge_in_range peer_example (user_example 0) stats_zero 20 2 1 /\
  exists r peer' user',
    bus1_user_quota_charge true peer_example (user_example 0) 20 2 1
      = Some (r, peer', user') /\
    r = - EDQUOT /\ user' = user_example 0.
Proof.
  assert (charge_in_range peer_example (user_example 0) stats_zero 20 2 1)
    as Hr.
  { split; unfold budget_in_range, is_int; simpl; lia. }
  split; [exact Hr|].
  destruct (charge_spec true peer_example (user_example 0) 20 2 1
              (replicate 16 stats_zero) stats_zero eq_refl eq_refl Hr)
    as (r & peer' & user' & Hc & _ & Hcase & Hiff & Hfail).
  exists r, peer', user'. split; [exact Hc|].
  destruct Hcase as [E|E].
  - apply Hiff in E. destruct E as (_ & _ & _ & _ & Hg). simpl in Hg. lia.
  - split; [exact E|]. apply (Hfail E).
Defined.

(** *** Growth of the array, discharge and commit *)

Lemma land_align x : 0 <= x < 2 ^ 32 -> Z.land x (uint (Z.lnot 7)) = 8 * (x / 8).
Proof.
  intros Hx. change (uint (Z.lnot 7)) with (Z.land (Z.lnot (Z.ones 3)) (Z.ones 32)).
  rewrite Z.land_assoc, (Z.land_comm x), <- Z.land_assoc.
  rewrite (Z.land_ones x 32) by lia. rewrite (Z.mod_small x) by lia.
  rewrite Z.land_comm, <- Z.ldiff_land.
  rewrite Z.ldiff_ones_r by lia. rewrite Z.shiftl_mul_pow2, Z.shiftr_div_pow2 by lia.
  change (2 ^ 3) with 8. lia.
Qed.

Lemma ALIGN8_spec x :
  0 <= x < 2 ^ 32 - 7 -> ALIGN8 x = 8 * ((x + 7) / 8).
Proof.
  intros Hx. unfold ALIGN8, uint at 1. rewrite Z.mod_small by lia.
  apply land_align. lia.
Qed.

Lemma ALIGN8_wrap x : 2 ^ 32 - 7 <= x < 2 ^ 32 -> ALIGN8 x = 0.
Proof.
  intros Hx. unfold ALIGN8, uint at 1.
  replace ((x + 7) mod 2 ^ 32) with (x + 7 - 2 ^ 32).
  2:{ apply Z.mod_unique with 1; lia. }
  rewrite land_align by lia. rewrite Z.div_small; lia.
Qed.

(** X8.  [bus1_user_quota_query] keeps what is recorded and adds zeroed
    slots only: every old slot keeps its content, every new slot is zero.
    When the array has to grow for a user id below 2^32, the slot returned
    for the user lies inside the new array exactly when the id is at most
    2^32 - 16; for the ids above, the rounded size wraps around and the
    slot lies outside the new array. *)
Theorem query_grows_array stats user arr :
  0 <= user_id user < 2 ^ 32 ->
  bus1_user_quota_query true stats user = Some arr ->
  stats `prefix_of` arr /\
  (forall i, stats_at arr i = stats_at stats i) /\
  (Z.of_nat (length stats) <= user_id user ->
     (is_Some (arr !! Z.to_nat (user_id user))
      <-> user_id user <= 2 ^ 32 - 16) /\
     (user_id user <= 2 ^ 32 - 16 ->
        Z.of_nat (length arr) = 8 * ((user_id user + 7) / 8) + 8)) /\
  (user_id user < Z.of_nat (length stats) -> arr = stats).
Proof.
  intros Hid Hq. split; [|split; [intros i; by eapply stats_at_query|split]].
  - unfold bus1_user_quota_query in Hq. destruct (_ <=? _); [|by injection Hq as ->].
    injection Hq as <-. by eexists.
  - intros Hlen. unfold bus1_user_quota_query in Hq.
    destruct (Z.leb_spec (Z.of_nat (length stats)) (user_id user)); [|lia].
    injection Hq as <-. rewrite lookup_lt_is_Some, length_app, length_replicate.
    destruct (decide (user_id user <= 2 ^ 32 - 16)) as [Hs|Hb].
    + rewrite ALIGN8_spec by lia.
      assert (H8 : 8 * ((user_id user + 7) / 8) <= user_id user + 7)
        by (apply Z.mul_div_le; lia).
      assert (H8' : user_id user + 7 < 8 * ((user_id user + 7) / 8) + 8).
      { pose proof (Z.mod_pos_bound (user_id user + 7) 8 ltac:(lia)).
        pose proof (Z.div_mod (user_id user + 7) 8 ltac:(lia)). lia. }
      unfold uint. rewrite Z.mod_small by lia. split; [split; lia|]. lia.
    + split; [|lia]. split; [|lia]. intros Hlt. exfalso.
      assert (uint (ALIGN8 (user_id user) + 8) <= user_id user) as Hw.
      { destruct (decide (user_id user < 2 ^ 32 - 7)) as [Hm|Hm].
        - rewrite ALIGN8_spec by lia.
          assert ((user_id user + 7) / 8 = 2 ^ 29 - 1) as ->.
          { symmetry. apply Z.div_unique with (user_id user + 7 - 8 * (2 ^ 29 - 1)); lia. }
          unfold uint. change ((8 * (2 ^ 29 - 1) + 8) mod 2 ^ 32) with 0. lia.
        - rewrite ALIGN8_wrap by lia. change (uint (0 + 8)) with 8. lia. }
      lia.
  - intros Hlt. unfold bus1_user_quota_query in Hq.
    destruct (Z.leb_spec (Z.of_nat (length stats)) (user_id user)); [lia|].
    by injection Hq as ->.
Qed.

Lemma query_grows_array_witness :
  is_Some ((replicate 16 stats_zero) !! 3%nat) <-> 3 <= 2 ^ 32 - 16.
Proof.
  exact (proj1 (proj1 (proj2 (proj2
    (query_grows_array bus1_user_quota_init (user_example 0)
       (replicate 16 stats_zero) ltac:(simpl; lia) eq_refl)))
    ltac:(simpl; lia))).
Defined.

(** What a charge that returns 0 has done. *)
Lemma charge_success alloc_ok peer user size nh nf arr st peer' user' :
  bus1_user_quota_query alloc_ok (quota_stats peer) user = Some arr ->
  arr !! Z.to_nat (user_id user) = Some st ->
  charge_in_range peer user st size nh nf ->
  bus1_user_quota_charge alloc_ok peer user size nh nf
    = Some (0, peer', user') ->
  (within_budget None (n_allocated peer) (s_n_allocated st) size /\
   within_budget (Some (u_n_messages user))
                 (n_messages peer) (s_n_messages st) 1 /\
   within_budget (Some (u_n_handles user))
                 (n_handles peer) (s_n_handles st) nh /\
   within_budget (Some (u_n_fds user)) (n_fds peer) (s_n_fds st) nf) /\
  peer' = mkPeerInfo (n_allocated peer - size) (n_messages peer - 1)
            (n_handles peer - nh) (n_fds peer - nf)
            (<[Z.to_nat (user_id user) :=
                 mkStats (s_n_allocated st + size) (s_n_messages st + 1)
                         (s_n_handles st + nh) (s_n_fds st + nf)]> arr) /\
  user' = mkUser (user_id user) (u_n_messages user - 1)
            (u_n_handles user - nh) (u_n_fds user - nf).
Proof.
  intros Hq Hst [(Hum & Huh & Huf) Hsz Hnh Hnf Ha Hm Hh Hf].
  unfold bus1_user_quota_charge. rewrite Hq, Hst. simpl.
  destruct (charge_one_spec None _ _ size Hsz Ha) as (H1 & H1' & _).
  destruct (charge_one_spec (Some (u_n_messages user)) _ _ 1 ltac:(lia) Hm)
    as (H2 & H2' & H2g).
  destruct (charge_one_spec (Some (u_n_handles user)) _ _ nh Hnh Hh)
    as (H3 & H3' & H3g).
  destruct (charge_one_spec (Some (u_n_fds user)) _ _ nf Hnf Hf)
    as (H4 & H4' & H4g).
  unfold global_of. simpl in *.
  set (r1 := bus1_user_quota_charge_one None _ _ size) in *.
  set (r2 := bus1_user_quota_charge_one (Some (u_n_messages user)) _ _ 1) in *.
  set (r3 := bus1_user_quota_charge_one (Some (u_n_handles user)) _ _ nh) in *.
  set (r4 := bus1_user_quota_charge_one (Some (u_n_fds user)) _ _ nf) in *.
  clearbody r1 r2 r3 r4.
  assert (- EDQUOT <> 0) as Hne by (unfold EDQUOT; lia).
  destruct H1 as [E1|E1]; rewrite E1 in *; simpl; [|intros [= ? _ _]; done].
  destruct H2 as [E2|E2]; rewrite E2 in *; simpl; [|intros [= ? _ _]; done].
  rewrite H2g. simpl.
  destruct H3 as [E3|E3]; rewrite E3 in *; simpl; [|intros [= ? _ _]; done].
  rewrite H3g. simpl.
  destruct H4 as [E4|E4]; rewrite E4 in *; simpl; [|intros [= ? _ _]; done].
  rewrite H4g. simpl. intros [= <- <-].
  split; [|done]. tauto.
Qed.

Lemma query_no_growth alloc_ok (arr : list bus1_user_stats) user x :
  arr !! Z.to_nat (user_id user) = Some x ->
  bus1_user_quota_query alloc_ok arr user = Some arr.
Proof.
  intros Hx. apply lookup_lt_Some in Hx. unfold bus1_user_quota_query.
  destruct (Z.leb_spec (Z.of_nat (length arr)) (user_id user)); [lia|done].
Qed.

(** X9.  Discharging undoes a charge: after [bus1_user_quota_charge]
    returned 0, [bus1_user_quota_discharge] with the same quantities puts
    back the peer's four local counters, the user's three global counters
    and the user's recorded share, whether or not an allocation would
    succeed by then. *)
Theorem charge_then_discharge alloc_ok alloc_ok' peer user size nh nf
    arr st peer' user' :
  bus1_user_quota_query alloc_ok (quota_stats peer) user = Some arr ->
  arr !! Z.to_nat (user_id user) = Some st ->
  charge_in_range peer user st size nh nf ->
  bus1_user_quota_charge alloc_ok peer user size nh nf
    = Some (0, peer', user') ->
  bus1_user_quota_discharge alloc_ok' peer' user' size nh nf
    = Some (mkPeerInfo (n_allocated peer) (n_messages peer)
                       (n_handles peer) (n_fds peer) arr,
            user).
Proof.
  intros Hq Hst Hr Hc.
  destruct (charge_success _ _ _ _ _ _ _ _ _ _ Hq Hst Hr Hc)
    as ((Wa & Wm & Wh & Wf) & -> & ->).
  destruct Hr as [(Hum & Huh & Huf) Hsz Hnh Hnf Ha Hm Hh Hf].
  unfold within_budget, budget_in_range, is_int in *.
  unfold bus1_user_quota_discharge. simpl.
  assert (Z.to_nat (user_id user) < length arr)%nat as Hlt
    by by eapply lookup_lt_Some.
  erewrite query_no_growth; [|by rewrite list_lookup_insert_eq].
  rewrite list_lookup_insert_eq by done. simpl.
  rewrite list_insert_insert_eq. f_equal. f_equal.
  - f_equal; try lia. destruct st; simpl.
    rewrite <- (list_insert_id arr (Z.to_nat (user_id user)) _ Hst) at 2.
    f_equal. f_equal; lia.
  - destruct user; simpl in *. rewrite (int32_id nh), (int32_id nf) by lia.
    f_equal; rewrite int32_id; lia.
Qed.

Lemma range_example : charge_in_range peer_example user_rich stats_zero 20 2 1.
Proof. split; unfold budget_in_range, is_int; simpl; lia. Qed.

Lemma charge_then_discharge_witness :
  bus1_user_quota_discharge false
    (mkPeerInfo 80 9 8 9
       (<[3%nat := mkStats 20 1 2 1]> (replicate 16 stats_zero)))
    (mkUser 3 9 8 9) 20 2 1
  = Some (mkPeerInfo 100 10 10 10 (replicate 16 stats_zero), user_rich).
Proof.
  exact (charge_then_discharge true false peer_example user_rich 20 2 1
           (replicate 16 stats_zero) stats_zero _ _
           eq_refl eq_refl range_example eq_refl).
Defined.

(** X10.  Committing a charge: after [bus1_user_quota_charge] returned 0,
    [bus1_user_quota_commit] with the same quantities clears the in-flight
    share again and gives the file descriptors back to the user's global
    budget, while the peer's local counters and the user's message and
    handle budgets stay charged. *)
Theorem charge_then_commit alloc_ok alloc_ok' peer user size nh nf
    arr st peer' user' :
  bus1_user_quota_query alloc_ok (quota_stats peer) user = Some arr ->
  arr !! Z.to_nat (user_id user) = Some st ->
  charge_in_range peer user st size nh nf ->
  bus1_user_quota_charge alloc_ok peer user size nh nf
    = Some (0, peer', user') ->
  bus1_user_quota_commit alloc_ok' peer' user' size nh nf
    = Some (mkPeerInfo (n_allocated peer - size) (n_messages peer - 1)
                       (n_handles peer - nh) (n_fds peer - nf) arr,
            mkUser (user_id user) (u_n_messages user - 1)
                   (u_n_handles user - nh) (u_n_fds user)).
Proof.
  intros Hq Hst Hr Hc.
  destruct (charge_success _ _ _ _ _ _ _ _ _ _ Hq Hst Hr Hc)
    as ((Wa & Wm & Wh & Wf) & -> & ->).
  destruct Hr as [(Hum & Huh & Huf) Hsz Hnh Hnf Ha Hm Hh Hf].
  unfold within_budget, budget_in_range, is_int in *.
  unfold bus1_user_quota_commit. simpl.
  assert (Z.to_nat (user_id user) < length arr)%nat as Hlt
    by by eapply lookup_lt_Some.
  erewrite query_no_growth; [|by rewrite list_lookup_insert_eq].
  rewrite list_lookup_insert_eq by done. simpl.
  rewrite list_insert_insert_eq. f_equal. f_equal.
  - f_equal. destruct st; simpl.
    rewrite <- (list_insert_id arr (Z.to_nat (user_id user)) _ Hst) at 2.
    f_equal. f_equal; lia.
  - rewrite (int32_id nf) by lia. f_equal. rewrite int32_id; lia.
Qed.

Lemma charge_then_commit_witness :
  bus1_user_quota_commit false
    (mkPeerInfo 80 9 8 9
       (<[3%nat := mkStats 20 1 2 1]> (replicate 16 stats_zero)))
    (mkUser 3 9 8 9) 20 2 1
  = Some (mkPeerInfo 80 9 8 9 (replicate 16 stats_zero), mkUser 3 9 8 10).
Proof.
  exact (charge_then_commit true false peer_example user_rich 20 2 1
           (replicate 16 stats_zero) stats_zero _ _
           eq_refl eq_refl range_example eq_refl).
Defined.

(** X11.  The half rule as an invariant of the result: after
    [bus1_user_quota_charge] returned 0, what the user has charged on the
    peer (the recorded share, this charge included) exceeds neither what is
    left on the peer nor, for messages, handles and file descriptors, what
    is left of the user's global budget; in particular no global counter
    has dropped below zero. *)
Theorem charge_leaves_half alloc_ok peer user size nh nf arr st peer' user' :
  bus1_user_quota_query alloc_ok (quota_stats peer) user = Some arr ->
  arr !! Z.to_nat (user_id user) = Some st ->
  charge_in_range peer user st size nh nf ->
  bus1_user_quota_charge alloc_ok peer user size nh nf
    = Some (0, peer', user') ->
  let st' := stats_at (quota_stats peer') (Z.to_nat (user_id user)) in
  s_n_allocated st' <= n_allocated peer' /\
  s_n_messages st' <= n_messages peer' /\
  s_n_handles st' <= n_handles peer' /\
  s_n_fds st' <= n_fds peer' /\
  0 <= s_n_messages st' <= u_n_messages user' /\
  0 <= s_n_handles st' <= u_n_handles user' /\
  0 <= s_n_fds st' <= u_n_fds user'.
Proof.
  intros Hq Hst Hr Hc.
  destruct (charge_success _ _ _ _ _ _ _ _ _ _ Hq Hst Hr Hc)
    as ((Wa & Wm & Wh & Wf) & -> & ->).
  destruct Hr as [(Hum & Huh & Huf) Hsz Hnh Hnf Ha Hm Hh Hf].
  unfold within_budget, budget_in_range, is_int in *.
  assert (Z.to_nat (user_id user) < length arr)%nat as Hlt
    by by eapply lookup_lt_Some.
  unfold stats_at. simpl. rewrite list_lookup_insert_eq by done. simpl. lia.
Qed.

Lemma charge_leaves_half_witness :
  let peer' := mkPeerInfo 80 9 8 9
       (<[3%nat := mkStats 20 1 2 1]> (replicate 16 stats_zero)) in
  let st' := stats_at (quota_stats peer') 3%nat in
  s_n_allocated st' <= n_allocated peer' /\
  s_n_messages st' <= n_messages peer' /\
  s_n_handles st' <= n_handles peer' /\
  s_n_fds st' <= n_fds peer' /\
  0 <= s_n_messages st' <= 9 /\
  0 <= s_n_handles st' <= 8 /\
  0 <= s_n_fds st' <= 9.
Proof.
  exact (charge_leaves_half true peer_example user_rich 20 2 1
           (replicate 16 stats_zero) stats_zero _ _
           eq_refl eq_refl range_example eq_refl).
Defined.

End QuotaFacts.

(** * The user registry *)

Module UserFacts.
Import Quota User WordFacts.

Lemma ida_scan_spec ida k fuel r :
  ida_scan ida k fuel = Some r ->
  k <= r /\ (r ∉ ida) /\ forall j, k <= j < r -> j ∈ ida.
Proof.
  revert k. induction fuel as [|fuel IH]; simpl; intros k; [done|].
  case_decide as Hk.
  - intros H. destruct (IH _ H) as (Hle & Hr & Hall).
    split; [lia|]. split; [done|]. intros j Hj.
    destruct (decide (j = k)) as [->|Hne]; [done|]. apply Hall. lia.
  - intros [= <-]. split; [lia|]. split; [done|]. intros j Hj. lia.
Qed.

Lemma ida_scan_none ida k fuel :
  ida_scan ida k fuel = None ->
  forall j, k <= j < k + Z.of_nat fuel -> j ∈ ida.
Proof.
  revert k. induction fuel as [|fuel IH]; simpl; intros k H j Hj; [lia|].
  case_decide as Hk; [|done].
  destruct (decide (j = k)) as [->|Hne]; [done|]. apply (IH _ H). lia.
Qed.

Lemma ida_below_size (ida : gset Z) k :
  0 <= k -> (forall j, 0 <= j < k -> j ∈ ida) -> k <= Z.of_nat (size ida).
Proof.
  intros Hk Hall.
  assert (list_to_set (seqZ 0 k) ⊆ ida) as Hsub.
  { intros j Hj. apply elem_of_list_to_set, elem_of_seqZ in Hj. apply Hall. lia. }
  apply subseteq_size in Hsub.
  rewrite size_list_to_set in Hsub by apply NoDup_seqZ.
  rewrite length_seqZ in Hsub. lia.
Qed.

(** The scan finds an id: among [size ida + 1] candidates one is free. *)
Lemma ida_scan_finds (ida : gset Z) :
  exists k, ida_scan ida 0 (S (size ida)) = Some k /\
            0 <= k <= Z.of_nat (size ida).
Proof.
  destruct (ida_scan ida 0 (S (size ida))) as [k|] eqn:Hs.
  - exists k. split; [done|]. apply ida_scan_spec in Hs as (H0 & _ & Hall).
    split; [done|]. by apply ida_below_size.
  - exfalso. pose proof (ida_scan_none _ _ _ Hs) as Hall.
    pose proof (ida_below_size ida (Z.of_nat (S (size ida))) ltac:(lia)) as Hb.
    specialize (Hb ltac:(intros j Hj; apply Hall; lia)). lia.
Qed.

#[local] Arguments ida_scan : simpl never.

Lemma ida_put_back (ida : gset Z) k : k ∉ ida -> ({[k]} ∪ ida) ∖ {[k]} = ida.
Proof.
  intros Hk. apply set_eq. intros x.
  rewrite elem_of_difference, elem_of_union, elem_of_singleton.
  split; [tauto|]. intros Hx. split; [tauto|congruence].
Qed.

Lemma bindR_eq {A B} (m : R A) (f : A -> R B) t a t1 :
  m t = Some (a, t1) -> (m ≫= f) t = f a t1.
Proof. intros H. unfold mbind, R_bind. by rewrite H. Qed.

Lemma bindR_inv {A B} (m : R A) (f : A -> R B) t r :
  (m ≫= f) t = Some r -> exists a t1, m t = Some (a, t1) /\ f a t1 = Some r.
Proof.
  unfold mbind, R_bind. destruct (m t) as [[a t1]|]; [|done]. eauto.
Qed.

Lemma get_user_eq u ur mem idr ida :
  mem !! u = Some ur ->
  get_user u (mkTable mem idr ida) = Some (ur, mkTable mem idr ida).
Proof. intros H. unfold get_user. simpl. by rewrite H. Qed.

Lemma upd_user_eq u f ur mem idr ida :
  mem !! u = Some ur ->
  upd_user u f (mkTable mem idr ida)
  = Some (tt, mkTable (<[u := f ur]> mem) idr ida).
Proof. intros H. unfold upd_user. simpl. by rewrite H. Qed.

Lemma user_get_unless_zero_eq u ur mem idr ida :
  mem !! u = Some ur ->
  user_get_unless_zero u (mkTable mem idr ida)
  = if u_ref ur =? 0 then Some (false, mkTable mem idr ida)
    else Some (true, mkTable (<[u := set_u_ref (int32 (u_ref ur + 1)) ur]> mem)
                             idr ida).
Proof.
  intros H. unfold user_get_unless_zero.
  erewrite bindR_eq by by apply get_user_eq.
  destruct (u_ref ur =? 0); [done|].
  by erewrite bindR_eq by by apply upd_user_eq.
Qed.

Section user_facts.

Variables BUS1_MESSAGES_MAX BUS1_HANDLES_MAX BUS1_FDS_MAX : Z.


(** Dropping the only reference of a user whose uid is not registered: the
    id, if the user has one, is given back, and the object is freed. *)
Lemma unref_unregistered u ur mem idr ida :
  mem !! u = None -> u_ref ur = 1 -> u_uid ur = INVALID_UID ->
  bus1_user_unref (Some u) (mkTable (<[u := ur]> mem) idr ida)
  = Some (tt, mkTable mem idr
                (if user_id (u_quota ur) =? BUS1_INTERNAL_UID_INVALID
                 then ida else ida ∖ {[user_id (u_quota ur)]})).
Proof.
  intros Hm Hr Hu. unfold bus1_user_unref.
  erewrite bindR_eq by apply get_user_eq, lookup_insert_eq.
  cbv zeta. rewrite Hr. change (int32 (1 - 1)) with 0.
  erewrite bindR_eq by apply upd_user_eq, lookup_insert_eq.
  change (0 =? 0) with true. cbv iota. unfold bus1_user_free.
  erewrite bindR_eq by apply get_user_eq, lookup_insert_eq.
  change (u_uid (set_u_ref 0 ur)) with (u_uid ur). rewrite Hu.
  change (uid_valid INVALID_UID) with false. cbv iota.
  erewrite bindR_eq by reflexivity.
  change (u_quota (set_u_ref 0 ur)) with (u_quota ur).
  rewrite insert_insert_eq.
  destruct (user_id (u_quota ur) =? BUS1_INTERNAL_UID_INVALID); simpl;
    erewrite bindR_eq by reflexivity; unfold kfree_user; simpl;
    rewrite delete_insert_eq, delete_id by done; reflexivity.
Qed.

Lemma table_eta t :
  mkTable (user_mem t) (bus1_user_idr t) (bus1_user_ida t) = t.
Proof. by destruct t. Qed.

Lemma ref_by_uid_cases a ida_ok idr_ok uid t res t' :
  bus1_user_ref_by_uid BUS1_MESSAGES_MAX BUS1_HANDLES_MAX BUS1_FDS_MAX
    a ida_ok idr_ok uid t = Some (res, t') ->
  ref_by_uid_outcome
      BUS1_MESSAGES_MAX BUS1_HANDLES_MAX BUS1_FDS_MAX a uid t res t'.
Proof.
  destruct t as [mem idr ida]. unfold bus1_user_ref_by_uid.
  destruct (uid_valid uid) eqn:Hv; simpl.
  2:{ intros [= <- <-]. constructor. unfold ENOTRECOVERABLE. lia. }
  erewrite bindR_eq by reflexivity. simpl.
  (* what creating a user does, whatever the first lookup found *)
  assert (forall old,
    idr !! uid = old ->
    (forall o, old = Some o -> exists or, mem !! o = Some or /\ u_ref or = 0) ->
    (new ← bus1_user_new BUS1_MESSAGES_MAX BUS1_HANDLES_MAX BUS1_FDS_MAX a;
     match new with
     | None => mret (inl (- ENOMEM) : Z + ptr)
     | Some user =>
         r ← ida_simple_get ida_ok;
         if r <? 0
         then bus1_user_unref (Some user);; mret (inl r : Z + ptr)
         else
           upd_user user (set_u_id r);;
           upd_user user (set_u_uid uid);;
           old_user ← idr_find uid;
           match old_user with
           | None =>
               r0 ← idr_alloc idr_ok user uid;
               if r0 <? 0
               then
                 upd_user user (set_u_uid INVALID_UID);;
                 bus1_user_unref (Some user);;
                 mret (inl r0 : Z + ptr)
               else mret (inr user : Z + ptr)
           | Some old =>
               got ← user_get_unless_zero old;
               if (got : bool)
               then
                 upd_user user (set_u_uid INVALID_UID);;
                 bus1_user_unref (Some user);;
                 mret (inr old : Z + ptr)
               else
                 idr_replace user uid;;
                 upd_user old (set_u_uid INVALID_UID);;
                 mret (inr user : Z + ptr)
           end
     end) (mkTable mem idr ida) = Some (res, t') ->
    ref_by_uid_outcome
        BUS1_MESSAGES_MAX BUS1_HANDLES_MAX BUS1_FDS_MAX
        a uid (mkTable mem idr ida) res t') as Hnew.
  { intros old Hold Hdying.
    destruct a as [n|]; simpl.
    2:{ intros [= <- <-]. constructor. unfold ENOMEM. lia. }
    unfold mbind at 1, R_bind at 1. simpl.
    destruct (mem !! n) as [?|] eqn:Hn; [done|].
    assert (forall e, e < 0 ->
      (bus1_user_unref (Some n);; mret (inl e : Z + ptr))
        (mkTable (<[n := user_created
            BUS1_MESSAGES_MAX BUS1_HANDLES_MAX BUS1_FDS_MAX
            INVALID_UID BUS1_INTERNAL_UID_INVALID]> mem) idr ida) = Some (res, t') ->
      ref_by_uid_outcome
          BUS1_MESSAGES_MAX BUS1_HANDLES_MAX BUS1_FDS_MAX
          (Some n) uid (mkTable mem idr ida) res t') as Hfail.
    { intros e He. erewrite bindR_eq by by apply unref_unregistered.
      simpl. intros [= <- <-]. by constructor. }
    unfold ida_simple_get at 1. unfold mbind at 1, R_bind at 1. simpl.
    destruct ida_ok; [|apply Hfail; unfold ENOMEM; lia].
    destruct (ida_scan ida 0 (S (size ida))) as [k|] eqn:Hs; [|apply Hfail; lia].
    apply ida_scan_spec in Hs as (Hk0 & Hkn & Hkall).
    destruct (Z.ltb_spec k (2 ^ 31)) as [Hk|Hk]; [|apply Hfail; lia].
    destruct (Z.ltb_spec k 0) as [?|_]; [lia|].
    erewrite bindR_eq by apply upd_user_eq, lookup_insert_eq.
    erewrite bindR_eq by apply upd_user_eq, lookup_insert_eq.
    rewrite !insert_insert_eq.
    change (set_u_uid uid (set_u_id k ?x)) with (user_created
        BUS1_MESSAGES_MAX BUS1_HANDLES_MAX BUS1_FDS_MAX uid k).
    erewrite bindR_eq by reflexivity.
    cbn [bus1_user_idr user_mem bus1_user_ida]. rewrite Hold.
    destruct old as [o|].
    - destruct (Hdying o eq_refl) as (or & Hor & Hz).
      assert (n <> o) as Hno by congruence.
      erewrite bindR_eq.
      2:{ erewrite user_get_unless_zero_eq
            by (rewrite lookup_insert_ne by done; exact Hor).
          rewrite Hz. reflexivity. }
      cbv iota. erewrite bindR_eq by reflexivity.
      cbn [bus1_user_idr user_mem bus1_user_ida].
      erewrite bindR_eq
        by (apply upd_user_eq; rewrite lookup_insert_ne by done; exact Hor).
      simpl. intros [= <- <-]. by eapply outcome_replaced.
    - unfold idr_alloc at 1. unfold mbind at 1, R_bind at 1.
      destruct (Z.ltb_spec (int32 uid) 0) as [Hneg|Hpos].
      { change (- 22 <? 0) with true. cbv iota.
        erewrite bindR_eq by apply upd_user_eq, lookup_insert_eq.
        rewrite insert_insert_eq.
        erewrite bindR_eq by by apply unref_unregistered.
        simpl. assert ((k =? BUS1_INTERNAL_UID_INVALID) = false) as ->.
        { apply Z.eqb_neq. unfold BUS1_INTERNAL_UID_INVALID. lia. }
        rewrite ida_put_back by done.
        intros [= <- <-]. constructor. lia. }
      destruct idr_ok.
      + destruct (Z.ltb_spec (int32 uid) 0) as [Hn0|_]; [lia|].
        simpl. intros [= <- <-]. by eapply outcome_created.
      + change (- ENOMEM <? 0) with true. cbv iota.
        erewrite bindR_eq by apply upd_user_eq, lookup_insert_eq.
        rewrite insert_insert_eq.
        erewrite bindR_eq by by apply unref_unregistered.
        simpl. assert ((k =? BUS1_INTERNAL_UID_INVALID) = false) as ->.
        { apply Z.eqb_neq. unfold BUS1_INTERNAL_UID_INVALID. lia. }
        rewrite ida_put_back by done.
        intros [= <- <-]. constructor. unfold ENOMEM. lia. }
  destruct (idr !! uid) as [u|] eqn:Hidr.
  - unfold mbind at 1, R_bind at 1. unfold mbind at 1, R_bind at 1.
    destruct (mem !! u) as [ur|] eqn:Hu.
    2:{ unfold user_get_unless_zero, mbind, R_bind, get_user. simpl.
        by rewrite Hu. }
    rewrite (user_get_unless_zero_eq _ _ _ _ _ Hu).
    destruct (Z.eqb_spec (u_ref ur) 0) as [Hz|Hnz].
    + simpl. apply (Hnew (Some u)); [done|].
      intros o [= <-]. eauto.
    + simpl. intros [= <- <-]. by apply outcome_found.
  - erewrite bindR_eq by reflexivity. apply (Hnew None); [done|]. done.
Qed.

(** What [bus1_user_unref] does. *)
Lemma unref_cases u t t' :
  bus1_user_unref (Some u) t = Some (tt, t') ->
  exists ur, user_mem t !! u = Some ur /\
    ((int32 (u_ref ur - 1) <> 0 /\
      t' = mkTable (<[u := set_u_ref (int32 (u_ref ur - 1)) ur]> (user_mem t))
                   (bus1_user_idr t) (bus1_user_ida t)) \/
     (int32 (u_ref ur - 1) = 0 /\
      t' = mkTable (delete u (user_mem t))
                   (if uid_valid (u_uid ur)
                    then delete (u_uid ur) (bus1_user_idr t)
                    else bus1_user_idr t)
                   (if user_id (u_quota ur) =? BUS1_INTERNAL_UID_INVALID
                    then bus1_user_ida t
                    else bus1_user_ida t ∖ {[user_id (u_quota ur)]}))).
Proof.
  destruct t as [mem idr ida]. unfold bus1_user_unref.
  cbn [bus1_user_idr user_mem bus1_user_ida].
  destruct (mem !! u) as [ur|] eqn:Hu.
  2:{ unfold mbind, R_bind, get_user. simpl. by rewrite Hu. }
  erewrite bindR_eq by by apply get_user_eq.
  cbv zeta. erewrite bindR_eq by by apply upd_user_eq.
  exists ur. split; [done|].
  destruct (Z.eqb_spec (int32 (u_ref ur - 1)) 0) as [Hz|Hnz].
  - right. split; [done|]. revert H. unfold bus1_user_free.
    erewrite bindR_eq by apply get_user_eq, lookup_insert_eq.
    change (u_uid (set_u_ref ?v ur)) with (u_uid ur).
    change (u_quota (set_u_ref ?v ur)) with (u_quota ur).
    destruct (uid_valid (u_uid ur));
      erewrite bindR_eq by reflexivity;
      cbn [bus1_user_idr user_mem bus1_user_ida];
      destruct (user_id (u_quota ur) =? BUS1_INTERNAL_UID_INVALID); simpl;
      erewrite bindR_eq by reflexivity; unfold kfree_user; simpl;
      rewrite delete_insert_eq; by intros [= <-].
  - left. split; [done|]. revert H. by intros [= <-].
Qed.

(** Creating the user of a uid that has no entry. *)
Lemma ref_by_uid_create_run a uid mem idr ida k :
  uid_valid uid = true -> 0 <= int32 uid ->
  idr !! uid = None -> mem !! a = None ->
  ida_scan ida 0 (S (size ida)) = Some k -> k < 2 ^ 31 ->
  bus1_user_ref_by_uid BUS1_MESSAGES_MAX BUS1_HANDLES_MAX BUS1_FDS_MAX
    (Some a) true true uid (mkTable mem idr ida)
  = Some (inr a, mkTable (<[a := user_created
      BUS1_MESSAGES_MAX BUS1_HANDLES_MAX BUS1_FDS_MAX uid k]> mem)
                         (<[uid := a]> idr) ({[k]} ∪ ida)).
Proof.
  intros Hv Hpos Hidr Ha Hs Hk. unfold bus1_user_ref_by_uid. rewrite Hv.
  cbn [negb]. cbv iota.
  erewrite bindR_eq by reflexivity.
  cbn [bus1_user_idr user_mem bus1_user_ida]. rewrite Hidr.
  erewrite bindR_eq by reflexivity. cbv iota.
  erewrite bindR_eq.
  2:{ unfold bus1_user_new. cbn [user_mem bus1_user_idr bus1_user_ida].
      rewrite Ha. reflexivity. }
  cbv iota. erewrite bindR_eq.
  2:{ unfold ida_simple_get. cbn [user_mem bus1_user_idr bus1_user_ida].
      rewrite Hs. destruct (Z.ltb_spec k (2 ^ 31)); [reflexivity|lia]. }
  apply ida_scan_spec in Hs as (Hk0 & _).
  destruct (Z.ltb_spec k 0); [lia|].
  erewrite bindR_eq by apply upd_user_eq, lookup_insert_eq.
  erewrite bindR_eq by apply upd_user_eq, lookup_insert_eq.
  rewrite !insert_insert_eq.
  erewrite bindR_eq by reflexivity.
  cbn [bus1_user_idr user_mem bus1_user_ida]. rewrite Hidr.
  erewrite bindR_eq.
  2:{ unfold idr_alloc. destruct (Z.ltb_spec (int32 uid) 0); [lia|].
      reflexivity. }
  destruct (Z.ltb_spec (int32 uid) 0); [lia|]. reflexivity.
Qed.

(** Taking a reference on the user that a uid resolves to. *)
Lemma ref_by_uid_find_run a ida_ok idr_ok uid mem idr ida u ur :
  uid_valid uid = true -> idr !! uid = Some u -> mem !! u = Some ur ->
  u_ref ur <> 0 ->
  bus1_user_ref_by_uid BUS1_MESSAGES_MAX BUS1_HANDLES_MAX BUS1_FDS_MAX
    a ida_ok idr_ok uid (mkTable mem idr ida)
  = Some (inr u, mkTable (<[u := set_u_ref (int32 (u_ref ur + 1)) ur]> mem)
                         idr ida).
Proof.
  intros Hv Hidr Hu Hr. unfold bus1_user_ref_by_uid. rewrite Hv.
  cbn [negb]. cbv iota.
  erewrite bindR_eq by reflexivity.
  cbn [bus1_user_idr user_mem bus1_user_ida]. rewrite Hidr.
  erewrite bindR_eq.
  2:{ erewrite bindR_eq.
      2:{ rewrite (user_get_unless_zero_eq _ _ _ _ _ Hu).
          rewrite (proj2 (Z.eqb_neq _ _) Hr). reflexivity. }
      reflexivity. }
  reflexivity.
Qed.

Lemma uid_range_valid uid :
  0 <= uid < 2 ^ 31 -> uid_valid uid = true /\ 0 <= int32 uid.
Proof.
  intros H. split.
  - unfold uid_valid, INVALID_UID. apply negb_true_iff, Z.eqb_neq. lia.
  - rewrite int32_id; lia.
Qed.

Lemma ref_by_uid_creates_aux a uid t :
  0 <= uid < 2 ^ 31 ->
  bus1_user_idr t !! uid = None -> user_mem t !! a = None ->
  Z.of_nat (size (bus1_user_ida t)) < 2 ^ 31 ->
  exists k,
    0 <= k /\ (k ∉ bus1_user_ida t) /\
    (forall j, 0 <= j < k -> j ∈ bus1_user_ida t) /\
    bus1_user_ref_by_uid BUS1_MESSAGES_MAX BUS1_HANDLES_MAX BUS1_FDS_MAX
      (Some a) true true uid t
    = Some (inr a,
            mkTable (<[a := user_created
                BUS1_MESSAGES_MAX BUS1_HANDLES_MAX BUS1_FDS_MAX
                uid k]> (user_mem t))
                    (<[uid := a]> (bus1_user_idr t))
                    ({[k]} ∪ bus1_user_ida t)).
Proof.
  intros Huid Hidr Ha Hsize. destruct t as [mem idr ida]. simpl in *.
  destruct (uid_range_valid uid Huid) as [Hv Hpos].
  destruct (ida_scan_finds ida) as (k & Hs & Hk0 & Hk).
  exists k. pose proof (ida_scan_spec _ _ _ _ Hs) as (_ & Hn & Hall).
  split; [done|]. split; [done|]. split; [done|].
  apply ref_by_uid_create_run; try done. lia.
Qed.

(** X12.  [bus1_user_ref_by_uid] for a uid that has no entry, when every
    allocation succeeds: the new user object holds one reference, the uid,
    the smallest id that is not in use and full budgets; it becomes the
    entry of the uid and its id is marked in use; nothing else changes. *)
Theorem ref_by_uid_creates a uid t :
  0 <= uid < 2 ^ 31 ->
  bus1_user_idr t !! uid = None -> user_mem t !! a = None ->
  Z.of_nat (size (bus1_user_ida t)) < 2 ^ 31 ->
  exists k,
    0 <= k /\ (k ∉ bus1_user_ida t) /\
    (forall j, 0 <= j < k -> j ∈ bus1_user_ida t) /\
    bus1_user_ref_by_uid BUS1_MESSAGES_MAX BUS1_HANDLES_MAX BUS1_FDS_MAX
      (Some a) true true uid t
    = Some (inr a,
            mkTable
              (<[a := mkUserObj 1 uid
                        (mkUser k BUS1_MESSAGES_MAX BUS1_HANDLES_MAX
                                BUS1_FDS_MAX)
                        BUS1_MESSAGES_MAX BUS1_HANDLES_MAX BUS1_FDS_MAX]>
                 (user_mem t))
              (<[uid := a]> (bus1_user_idr t))
              ({[k]} ∪ bus1_user_ida t)).
Proof. apply ref_by_uid_creates_aux. Qed.

(** X13.  A uid keeps resolving to the same user object: once
    [bus1_user_ref_by_uid] has returned a user for a uid, the next call for
    that uid returns the same user and does nothing but take one more
    reference, whatever [kmalloc] or the tables' allocations would do. *)
Theorem ref_by_uid_again a i1 i2 a' i1' i2' uid t u t1 :
  (forall x xr, user_mem t !! x = Some xr -> 0 <= u_ref xr < 2 ^ 31 - 1) ->
  bus1_user_ref_by_uid BUS1_MESSAGES_MAX BUS1_HANDLES_MAX BUS1_FDS_MAX
    a i1 i2 uid t = Some (inr u, t1) ->
  exists ur1,
    user_mem t1 !! u = Some ur1 /\ 1 <= u_ref ur1 /\
    bus1_user_ref_by_uid BUS1_MESSAGES_MAX BUS1_HANDLES_MAX BUS1_FDS_MAX
      a' i1' i2' uid t1
    = Some (inr u,
            mkTable (<[u := set_u_ref (int32 (u_ref ur1 + 1)) ur1]>
                       (user_mem t1))
                    (bus1_user_idr t1) (bus1_user_ida t1)).
Proof.
  intros Hrefs Hc. apply ref_by_uid_cases in Hc.
  inversion Hc as [|u0 ur Hv Hidr Hu Hr|u0 k Hv Hpos -> Hu Hidr Hk Hkn Hall
                   |u0 k old or Hv -> Hu Hidr Hold Hz Hk Hkn Hall]; subst.
  - pose proof (Hrefs _ _ Hu) as Hb.
    exists (set_u_ref (int32 (u_ref ur + 1)) ur). simpl.
    rewrite lookup_insert_eq. rewrite (int32_id (u_ref ur + 1)) by lia.
    split; [done|]. split; [simpl; lia|].
    erewrite ref_by_uid_find_run; [|done|done|apply lookup_insert_eq|simpl; lia].
    reflexivity.
  - exists (user_created
      BUS1_MESSAGES_MAX BUS1_HANDLES_MAX BUS1_FDS_MAX
      uid k). simpl. rewrite lookup_insert_eq.
    split; [done|]. split; [simpl; lia|].
    erewrite ref_by_uid_find_run;
      [|done|apply lookup_insert_eq|apply lookup_insert_eq|simpl; lia].
    reflexivity.
  - assert (u <> old) as Hne by congruence.
    exists (user_created
        BUS1_MESSAGES_MAX BUS1_HANDLES_MAX BUS1_FDS_MAX uid k). simpl.
    rewrite lookup_insert_ne, lookup_insert_eq by done.
    split; [done|]. split; [simpl; lia|].
    erewrite ref_by_uid_find_run;
      [|done|apply lookup_insert_eq
       |rewrite lookup_insert_ne by done; apply lookup_insert_eq|simpl; lia].
    reflexivity.
Qed.

(** Dropping the only reference of the registered user of [uid]. *)
Lemma unref_registered a uid k mem idr ida :
  mem !! a = None -> idr !! uid = None -> k ∉ ida -> 0 <= k < 2 ^ 31 ->
  uid_valid uid = true ->
  bus1_user_unref (Some a)
    (mkTable (<[a := user_created
        BUS1_MESSAGES_MAX BUS1_HANDLES_MAX BUS1_FDS_MAX
        uid k]> mem) (<[uid := a]> idr)
             ({[k]} ∪ ida))
  = Some (tt, mkTable mem idr ida).
Proof.
  intros Ha Hidr Hkn Hk Hv. unfold bus1_user_unref.
  erewrite bindR_eq by apply get_user_eq, lookup_insert_eq.
  cbv zeta. cbn [u_ref user_created]. change (int32 (1 - 1)) with 0.
  erewrite bindR_eq by apply upd_user_eq, lookup_insert_eq.
  change (0 =? 0) with true. cbv iota. unfold bus1_user_free.
  erewrite bindR_eq by apply get_user_eq, lookup_insert_eq.
  cbn [set_u_ref user_created u_uid u_quota user_id]. rewrite Hv.
  erewrite bindR_eq by reflexivity.
  assert ((k =? BUS1_INTERNAL_UID_INVALID) = false) as ->.
  { apply Z.eqb_neq. unfold BUS1_INTERNAL_UID_INVALID. lia. }
  cbn [negb]. erewrite bindR_eq by reflexivity.
  unfold kfree_user, idr_remove, ida_simple_remove.
  cbn [bus1_user_idr user_mem bus1_user_ida].
  rewrite insert_insert_eq, !delete_insert_eq, !delete_id by done.
  by rewrite ida_put_back.
Qed.

(** X14.  Creating a user and dropping its reference again leaves no
    trace: the object is freed, the entry of the uid is removed and the id
    is free again, so that the tables are exactly what they were. *)
Theorem ref_by_uid_then_unref a uid t :
  0 <= uid < 2 ^ 31 ->
  bus1_user_idr t !! uid = None -> user_mem t !! a = None ->
  Z.of_nat (size (bus1_user_ida t)) < 2 ^ 31 ->
  exists t1,
    bus1_user_ref_by_uid BUS1_MESSAGES_MAX BUS1_HANDLES_MAX BUS1_FDS_MAX
      (Some a) true true uid t = Some (inr a, t1) /\
    bus1_user_unref (Some a) t1 = Some (tt, t).
Proof.
  intros Huid Hidr Ha Hsize.
  destruct (ref_by_uid_creates_aux a uid t Huid Hidr Ha Hsize)
    as (k & Hk0 & Hkn & Hall & Hrun).
  eexists. split; [exact Hrun|].
  destruct (uid_range_valid uid Huid) as [Hv Hpos].
  pose proof (ida_below_size _ k Hk0 Hall).
  destruct t as [mem idr ida].
  cbn [bus1_user_idr user_mem bus1_user_ida] in *.
  apply unref_registered; try done. lia.
Qed.

(** X15.  [bus1_user_ref_by_uid] is all or nothing: whenever it returns an
    error, the tables and every user object are what they were before the
    call; the user that may have been allocated is freed and its id given
    back.  For an invalid uid the error is [-ENOTRECOVERABLE], and when
    [kmalloc] fails for a uid without a live user it is [-ENOMEM]. *)
Theorem ref_by_uid_fails_clean :
  (forall a ida_ok idr_ok uid t e t',
     bus1_user_ref_by_uid BUS1_MESSAGES_MAX BUS1_HANDLES_MAX BUS1_FDS_MAX
       a ida_ok idr_ok uid t = Some (inl e, t') ->
     t' = t /\ e < 0) /\
  (forall a ida_ok idr_ok t,
     bus1_user_ref_by_uid BUS1_MESSAGES_MAX BUS1_HANDLES_MAX BUS1_FDS_MAX
       a ida_ok idr_ok INVALID_UID t = Some (inl (- ENOTRECOVERABLE), t)) /\
  (forall ida_ok idr_ok uid t,
     uid_valid uid = true -> bus1_user_idr t !! uid = None ->
     bus1_user_ref_by_uid BUS1_MESSAGES_MAX BUS1_HANDLES_MAX BUS1_FDS_MAX
       None ida_ok idr_ok uid t = Some (inl (- ENOMEM), t)).
Proof.
  split; [|split].
  - intros a ida_ok idr_ok uid t e t' Hc. apply ref_by_uid_cases in Hc.
    by inversion Hc.
  - intros. reflexivity.
  - intros ida_ok idr_ok uid t Hv Hidr. unfold bus1_user_ref_by_uid.
    rewrite Hv. cbn [negb]. cbv iota.
    erewrite bindR_eq by reflexivity. rewrite Hidr.
    erewrite bindR_eq by reflexivity. cbv iota.
    erewrite bindR_eq by reflexivity. reflexivity.
Qed.

(** X16.  A user that is being released does not take the new one with it:
    when the entry of the uid refers to a user whose last reference is
    gone, [bus1_user_ref_by_uid] creates a new user, makes it the entry of
    the uid and marks the old user as removed, so that [bus1_user_free] of
    the old user, when it runs, leaves the entry of the uid on the new
    user. *)
Theorem ref_by_uid_replaces_dying a idr_ok uid t old or :
  uid_valid uid = true ->
  bus1_user_idr t !! uid = Some old -> user_mem t !! old = Some or ->
  u_ref or = 0 -> user_mem t !! a = None ->
  Z.of_nat (size (bus1_user_ida t)) < 2 ^ 31 ->
  exists t1 t2,
    bus1_user_ref_by_uid BUS1_MESSAGES_MAX BUS1_HANDLES_MAX BUS1_FDS_MAX
      (Some a) true idr_ok uid t = Some (inr a, t1) /\
    bus1_user_idr t1 !! uid = Some a /\
    bus1_user_free old t1 = Some (tt, t2) /\
    bus1_user_idr t2 !! uid = Some a /\
    user_mem t2 !! old = None /\
    (exists ar, user_mem t2 !! a = Some ar /\ u_ref ar = 1 /\ u_uid ar = uid).
Proof.
  intros Hv Hidr Hold Hz Ha Hsize. destruct t as [mem idr ida].
  cbn [bus1_user_idr user_mem bus1_user_ida] in *.
  assert (a <> old) as Hne by congruence.
  destruct (ida_scan_finds ida) as (k & Hs & Hk0 & Hk).
  pose proof (ida_scan_spec _ _ _ _ Hs) as (_ & Hn & Hall).
  exists (mkTable (<[old := set_u_uid INVALID_UID or]>
                     (<[a := user_created
                         BUS1_MESSAGES_MAX BUS1_HANDLES_MAX BUS1_FDS_MAX
                         uid k]> mem))
                  (<[uid := a]> idr) ({[k]} ∪ ida)).
  exists (mkTable (delete old (<[old := set_u_uid INVALID_UID or]>
                                 (<[a := user_created
                                     BUS1_MESSAGES_MAX BUS1_HANDLES_MAX BUS1_FDS_MAX
                                     uid k]> mem)))
                  (<[uid := a]> idr)
                  (if user_id (u_quota or) =? BUS1_INTERNAL_UID_INVALID
                   then {[k]} ∪ ida
                   else ({[k]} ∪ ida) ∖ {[user_id (u_quota or)]})).
  split; [|split; [apply lookup_insert_eq|]].
  - unfold bus1_user_ref_by_uid. rewrite Hv. cbn [negb]. cbv iota.
    erewrite bindR_eq by reflexivity.
    cbn [bus1_user_idr user_mem bus1_user_ida]. rewrite Hidr.
    erewrite bindR_eq.
    2:{ erewrite bindR_eq.
        2:{ rewrite (user_get_unless_zero_eq _ _ _ _ _ Hold).
            rewrite Hz. reflexivity. }
        reflexivity. }
    cbv iota. erewrite bindR_eq.
    2:{ unfold bus1_user_new. cbn [user_mem bus1_user_idr bus1_user_ida].
        rewrite Ha. reflexivity. }
    cbv iota. erewrite bindR_eq.
    2:{ unfold ida_simple_get. cbn [user_mem bus1_user_idr bus1_user_ida].
        rewrite Hs. destruct (Z.ltb_spec k (2 ^ 31)); [reflexivity|lia]. }
    destruct (Z.ltb_spec k 0); [lia|].
    erewrite bindR_eq by apply upd_user_eq, lookup_insert_eq.
    erewrite bindR_eq by apply upd_user_eq, lookup_insert_eq.
    rewrite !insert_insert_eq.
    erewrite bindR_eq by reflexivity.
    cbn [bus1_user_idr user_mem bus1_user_ida]. rewrite Hidr.
    erewrite bindR_eq.
    2:{ erewrite user_get_unless_zero_eq
          by (rewrite lookup_insert_ne by done; exact Hold).
        rewrite Hz. reflexivity. }
    cbv iota. erewrite bindR_eq by reflexivity.
    cbn [bus1_user_idr user_mem bus1_user_ida].
    erewrite bindR_eq
      by (apply upd_user_eq; rewrite lookup_insert_ne by done; exact Hold).
    reflexivity.
  - unfold bus1_user_free.
    erewrite bindR_eq by apply get_user_eq, lookup_insert_eq.
    cbn [set_u_uid u_uid u_quota].
    change (uid_valid INVALID_UID) with false. cbv iota.
    erewrite bindR_eq by reflexivity.
    split.
    + destruct (user_id (u_quota or) =? BUS1_INTERNAL_UID_INVALID);
        cbn [negb]; erewrite bindR_eq by reflexivity; reflexivity.
    + cbn [bus1_user_idr user_mem bus1_user_ida].
      split; [apply lookup_insert_eq|].
      split; [apply lookup_delete_eq|].
      exists (user_created
          BUS1_MESSAGES_MAX BUS1_HANDLES_MAX BUS1_FDS_MAX
          uid k). split; [|done].
      rewrite lookup_delete_ne, lookup_insert_ne, lookup_insert_eq by done.
      reflexivity.
Qed.

(** *** The tables stay consistent *)

Lemma table_ok_upd u ur ur' mem idr ida :
  mem !! u = Some ur -> u_uid ur' = u_uid ur ->
  user_id (u_quota ur') = user_id (u_quota ur) ->
  table_ok (mkTable mem idr ida) ->
  table_ok (mkTable (<[u := ur']> mem) idr ida).
Proof.
  intros Hu Huid Hid [Hidr Hvalid Hida Hids].
  cbn [bus1_user_idr user_mem bus1_user_ida] in *.
  assert (forall x xr', <[u := ur']> mem !! x = Some xr' ->
            exists xr, mem !! x = Some xr /\ u_uid xr' = u_uid xr /\
                       user_id (u_quota xr') = user_id (u_quota xr)) as Hold.
  { intros x xr' Hx. apply lookup_insert_Some in Hx as [[<- <-]|[Hne Hx]]; eauto. }
  split; cbn [bus1_user_idr user_mem bus1_user_ida].
  - intros uid x Hx. destruct (Hidr _ _ Hx) as (xr & Hxr & Hxu & Hv).
    destruct (decide (x = u)) as [->|Hne].
    + exists ur'. rewrite lookup_insert_eq. split; [done|].
      split; [congruence|done].
    + exists xr. by rewrite lookup_insert_ne.
  - intros x xr' Hx Hv. destruct (Hold _ _ Hx) as (xr & Hxr & E1 & E2).
    rewrite E1 in *. by apply (Hvalid _ xr).
  - intros x xr' Hx. destruct (Hold _ _ Hx) as (xr & Hxr & E1 & E2).
    rewrite E2. by apply (Hida x).
  - intros x1 x2 r1 r2 H1 H2 E.
    destruct (Hold _ _ H1) as (y1 & Hy1 & _ & E1).
    destruct (Hold _ _ H2) as (y2 & Hy2 & _ & E2).
    apply (Hids _ _ _ _ Hy1 Hy2). congruence.
Qed.

Lemma table_ok_created a uid k mem idr ida :
  uid_valid uid = true -> mem !! a = None -> idr !! uid = None ->
  0 <= k < 2 ^ 31 -> k ∉ ida ->
  table_ok (mkTable mem idr ida) ->
  table_ok (mkTable (<[a := user_created
      BUS1_MESSAGES_MAX BUS1_HANDLES_MAX BUS1_FDS_MAX
      uid k]> mem) (<[uid := a]> idr)
                    ({[k]} ∪ ida)).
Proof.
  intros Hv Ha Hnone Hk Hkn [Hidr Hvalid Hida Hids].
  cbn [bus1_user_idr user_mem bus1_user_ida] in *.
  split; cbn [bus1_user_idr user_mem bus1_user_ida].
  - intros uid' x Hx. apply lookup_insert_Some in Hx as [[<- <-]|[Hne Hx]].
    + exists (user_created
        BUS1_MESSAGES_MAX BUS1_HANDLES_MAX BUS1_FDS_MAX
        uid k). by rewrite lookup_insert_eq.
    + destruct (Hidr _ _ Hx) as (xr & Hxr & Hxu & Hxv).
      exists xr. split; [|done]. rewrite lookup_insert_ne; [done|congruence].
  - intros x xr Hx Hxv. apply lookup_insert_Some in Hx as [[<- <-]|[Hne Hx]].
    + apply lookup_insert_eq.
    + pose proof (Hvalid _ _ Hx Hxv) as Hi.
      rewrite lookup_insert_ne; [done|congruence].
  - intros x xr Hx. apply lookup_insert_Some in Hx as [[<- <-]|[Hne Hx]].
    + split; [done|]. apply elem_of_union. left. by apply elem_of_singleton.
    + destruct (Hida _ _ Hx). split; [done|]. apply elem_of_union. by right.
  - intros x1 x2 r1 r2 H1 H2 E.
    apply lookup_insert_Some in H1 as [[<- <-]|[Hn1 H1]];
      apply lookup_insert_Some in H2 as [[<- <-]|[Hn2 H2]].
    + done.
    + destruct (Hida _ _ H2) as [_ Hin]. simpl in E. by rewrite <- E in Hin.
    + destruct (Hida _ _ H1) as [_ Hin]. simpl in E. by rewrite E in Hin.
    + by apply (Hids _ _ _ _ H1 H2).
Qed.

Lemma table_ok_replaced a uid k old or mem idr ida :
  uid_valid uid = true -> mem !! a = None ->
  idr !! uid = Some old -> mem !! old = Some or ->
  0 <= k < 2 ^ 31 -> k ∉ ida ->
  table_ok (mkTable mem idr ida) ->
  table_ok (mkTable (<[old := set_u_uid INVALID_UID or]>
                       (<[a := user_created
                           BUS1_MESSAGES_MAX BUS1_HANDLES_MAX BUS1_FDS_MAX
                           uid k]> mem))
                    (<[uid := a]> idr) ({[k]} ∪ ida)).
Proof.
  intros Hv Ha Hentry Hold Hk Hkn [Hidr Hvalid Hida Hids].
  cbn [bus1_user_idr user_mem bus1_user_ida] in *.
  assert (a <> old) as Hne by congruence.
  assert (forall x xr',
    <[old := set_u_uid INVALID_UID or]> (<[a := user_created
        BUS1_MESSAGES_MAX BUS1_HANDLES_MAX BUS1_FDS_MAX uid k]> mem) !! x
      = Some xr' ->
    (x = a /\ xr' = user_created
        BUS1_MESSAGES_MAX BUS1_HANDLES_MAX BUS1_FDS_MAX uid k) \/
    (x <> a /\ exists xr, mem !! x = Some xr /\
       user_id (u_quota xr') = user_id (u_quota xr) /\
       (uid_valid (u_uid xr') = true -> x <> old /\ xr' = xr))) as Hcase.
  { intros x xr' Hx. apply lookup_insert_Some in Hx as [[<- <-]|[Hn1 Hx]].
    - right. split; [done|]. exists or. split; [done|]. split; [done|].
      simpl. done.
    - apply lookup_insert_Some in Hx as [[<- <-]|[Hn2 Hx]]; [by left|].
      right. split; [done|]. exists xr'. eauto. }
  split; cbn [bus1_user_idr user_mem bus1_user_ida].
  - intros uid' x Hx. apply lookup_insert_Some in Hx as [[<- <-]|[Hn Hx]].
    + exists (user_created
        BUS1_MESSAGES_MAX BUS1_HANDLES_MAX BUS1_FDS_MAX uid k).
      by rewrite lookup_insert_ne, lookup_insert_eq.
    + destruct (Hidr _ _ Hx) as (xr & Hxr & Hxu & Hxv).
      destruct (Hidr _ _ Hentry) as (or' & Hor' & Hou & _).
      exists xr. split; [|done].
      rewrite !lookup_insert_ne; [done|congruence|congruence].
  - intros x xr' Hx Hxv. destruct (Hcase _ _ Hx) as [[-> ->]|(Hxa & xr & Hxr & _ & Hsame)].
    + apply lookup_insert_eq.
    + destruct (Hsame Hxv) as [Hxo ->].
      pose proof (Hvalid _ _ Hxr Hxv) as Hi.
      rewrite lookup_insert_ne; [done|congruence].
  - intros x xr' Hx. destruct (Hcase _ _ Hx) as [[-> ->]|(Hxa & xr & Hxr & E & _)].
    + split; [done|]. apply elem_of_union. left. by apply elem_of_singleton.
    + rewrite E. destruct (Hida _ _ Hxr). split; [done|].
      apply elem_of_union. by right.
  - intros x1 x2 r1 r2 H1 H2 E.
    destruct (Hcase _ _ H1) as [[-> ->]|(Hxa1 & y1 & Hy1 & E1 & _)];
      destruct (Hcase _ _ H2) as [[-> ->]|(Hxa2 & y2 & Hy2 & E2 & _)].
    + done.
    + destruct (Hida _ _ Hy2) as [_ Hin]. simpl in E.
      rewrite <- E2, <- E in Hin. done.
    + destruct (Hida _ _ Hy1) as [_ Hin]. simpl in E.
      rewrite <- E1, E in Hin. done.
    + apply (Hids _ _ _ _ Hy1 Hy2). congruence.
Qed.

Lemma table_ok_freed u ur mem idr ida :
  mem !! u = Some ur ->
  table_ok (mkTable mem idr ida) ->
  table_ok (mkTable (delete u mem)
              (if uid_valid (u_uid ur) then delete (u_uid ur) idr else idr)
              (if user_id (u_quota ur) =? BUS1_INTERNAL_UID_INVALID
               then ida else ida ∖ {[user_id (u_quota ur)]})).
Proof.
  intros Hu [Hidr Hvalid Hida Hids].
  cbn [bus1_user_idr user_mem bus1_user_ida] in *.
  assert (forall uid x,
    (if uid_valid (u_uid ur) then delete (u_uid ur) idr else idr) !! uid
      = Some x -> idr !! uid = Some x /\ x <> u) as Hentry.
  { intros uid x Hx. destruct (uid_valid (u_uid ur)) eqn:Hv.
    - apply lookup_delete_Some in Hx as [Hn Hx]. split; [done|].
      intros ->. destruct (Hidr _ _ Hx) as (xr & Hxr & Hxu & _). congruence.
    - split; [done|]. intros ->.
      destruct (Hidr _ _ Hx) as (xr & Hxr & Hxu & Hxv). congruence. }
  split; cbn [bus1_user_idr user_mem bus1_user_ida].
  - intros uid x Hx. destruct (Hentry _ _ Hx) as [Hx' Hne].
    destruct (Hidr _ _ Hx') as (xr & Hxr & Hrest). exists xr.
    by rewrite lookup_delete_ne.
  - intros x xr Hx Hxv. apply lookup_delete_Some in Hx as [Hne Hx].
    pose proof (Hvalid _ _ Hx Hxv) as Hi.
    destruct (uid_valid (u_uid ur)) eqn:Hv; [|done].
    rewrite lookup_delete_ne; [done|]. intros E.
    pose proof (Hvalid _ _ Hu Hv) as Hi'. congruence.
  - intros x xr Hx. apply lookup_delete_Some in Hx as [Hne Hx].
    destruct (Hida _ _ Hx) as [Hr Hin]. split; [done|].
    destruct (_ =? _); [done|]. apply elem_of_difference. split; [done|].
    rewrite elem_of_singleton. intros E. apply Hne. symmetry.
    by apply (Hids _ _ _ _ Hx Hu).
  - intros x1 x2 r1 r2 H1 H2 E.
    apply lookup_delete_Some in H1 as [_ H1].
    apply lookup_delete_Some in H2 as [_ H2].
    by apply (Hids _ _ _ _ H1 H2).
Qed.

Lemma table_ok_empty : table_ok table_empty.
Proof. split; simpl; intros *; by rewrite ?lookup_empty. Qed.

Lemma user_step_ok t t' :
  user_step BUS1_MESSAGES_MAX BUS1_HANDLES_MAX BUS1_FDS_MAX t t' ->
  table_ok t -> table_ok t'.
Proof.
  intros [o t0 t0' Hrun] Hok. destruct o as [a ida_ok idr_ok uid|u|u];
    unfold run_user_op in Hrun.
  - apply bindR_inv in Hrun as (res & t1 & Hc & [= <-]).
    apply ref_by_uid_cases in Hc. destruct t0 as [mem idr ida].
    inversion Hc as [|u0 ur Hv Hidr Hu Hr|u0 k Hv Hpos -> Hu Hidr Hk Hkn Hall
                     |u0 k old or Hv -> Hu Hidr Hold Hz Hk Hkn Hall]; subst;
      cbn [bus1_user_idr user_mem bus1_user_ida] in *.
    + done.
    + by eapply table_ok_upd.
    + by apply table_ok_created.
    + by apply table_ok_replaced.
  - apply bindR_inv in Hrun as (res & t1 & Hc & [= <-]).
    unfold bus1_user_ref in Hc.
    apply bindR_inv in Hc as ([] & t2 & Hupd & [= _ <-]).
    unfold upd_user in Hupd. destruct t0 as [mem idr ida].
    cbn [bus1_user_idr user_mem bus1_user_ida] in *.
    destruct (mem !! u) as [ur|] eqn:Hu; [|done]. injection Hupd as <-.
    by eapply table_ok_upd.
  - apply unref_cases in Hrun as (ur & Hu & [[_ ->]|[_ ->]]);
      destruct t0 as [mem idr ida];
      cbn [bus1_user_idr user_mem bus1_user_ida] in *.
    + by eapply table_ok_upd.
    + by apply table_ok_freed.
Qed.

Lemma user_reachable_ok t :
  user_reachable BUS1_MESSAGES_MAX BUS1_HANDLES_MAX BUS1_FDS_MAX t ->
  table_ok t.
Proof.
  unfold user_reachable. revert t. apply rtc_ind_r; [apply table_ok_empty|].
  intros y z _ Hstep IH. by eapply user_step_ok.
Qed.

(** X17.  No two users share a quota slot, and the idr is exact.  In every
    state reached from the empty tables by calls of
    [bus1_user_ref_by_uid], [bus1_user_ref] and [bus1_user_unref] that
    return, whatever allocations fail: two distinct user objects carry
    different ids; every id in use by a user lies in [0, 2^31) and is
    marked in the ida; every entry of the idr refers to an allocated user
    that carries the uid of the entry; and a user that carries a valid uid
    is the entry of that uid. *)
Theorem users_have_their_own_id t :
  user_reachable BUS1_MESSAGES_MAX BUS1_HANDLES_MAX BUS1_FDS_MAX t ->
  (forall u1 u2 ur1 ur2,
     user_mem t !! u1 = Some ur1 -> user_mem t !! u2 = Some ur2 ->
     u1 <> u2 -> user_id (u_quota ur1) <> user_id (u_quota ur2)) /\
  (forall u ur, user_mem t !! u = Some ur ->
     0 <= user_id (u_quota ur) < 2 ^ 31 /\
     user_id (u_quota ur) ∈ bus1_user_ida t) /\
  (forall uid u, bus1_user_idr t !! uid = Some u ->
     exists ur, user_mem t !! u = Some ur /\ u_uid ur = uid) /\
  (forall u ur, user_mem t !! u = Some ur -> uid_valid (u_uid ur) = true ->
     bus1_user_idr t !! u_uid ur = Some u).
Proof.
  intros Hr. destruct (user_reachable_ok t Hr) as [Hidr Hvalid Hida Hids].
  split; [|split; [|split]].
  - intros u1 u2 r1 r2 H1 H2 Hne E. apply Hne. by apply (Hids _ _ _ _ H1 H2).
  - done.
  - intros uid u Hu. destruct (Hidr _ _ Hu) as (ur & ? & ? & _). eauto.
  - done.
Qed.

End user_facts.
Lemma table_empty_refs x xr :
  user_mem table_empty !! x = Some xr -> 0 <= u_ref xr < 2 ^ 31 - 1.
Proof. unfold table_empty. simpl. intros H. by rewrite lookup_empty in H. Qed.

Lemma table_empty_size : Z.of_nat (size (bus1_user_ida table_empty)) < 2 ^ 31.
Proof. reflexivity. Qed.

Lemma ref_by_uid_creates_witness :
  exists k,
    0 <= k /\ (k ∉ bus1_user_ida table_empty) /\
    (forall j, 0 <= j < k -> j ∈ bus1_user_ida table_empty) /\
    bus1_user_ref_by_uid 7 7 7 (Some user_a) true true 1000 table_empty
    = Some (inr user_a,
            mkTable {[ user_a := mkUserObj 1 1000 (mkUser k 7 7 7) 7 7 7 ]}
                    {[ 1000 := user_a ]} ({[k]} ∪ ∅)).
Proof.
  exact (ref_by_uid_creates 7 7 7 user_a 1000 table_empty ltac:(lia)
           eq_refl eq_refl table_empty_size).
Defined.

Lemma ref_by_uid_again_witness :
  exists ur1,
    user_mem (table_one 1) !! user_a = Some ur1 /\ 1 <= u_ref ur1 /\
    bus1_user_ref_by_uid 7 7 7 None false false 1000 (table_one 1)
    = Some (inr user_a,
            mkTable (<[user_a := set_u_ref (int32 (u_ref ur1 + 1)) ur1]>
                       (user_mem (table_one 1)))
                    (bus1_user_idr (table_one 1))
                    (bus1_user_ida (table_one 1))).
Proof.
  apply (ref_by_uid_again 7 7 7 (Some user_a) true true None false false
           1000 table_empty user_a (table_one 1) table_empty_refs).
  vm_compute. reflexivity.
Defined.

Lemma ref_by_uid_then_unref_witness :
  exists t1,
    bus1_user_ref_by_uid 7 7 7 (Some user_a) true true 1000 table_empty
      = Some (inr user_a, t1) /\
    bus1_user_unref (Some user_a) t1 = Some (tt, table_empty).
Proof.
  exact (ref_by_uid_then_unref 7 7 7 user_a 1000 table_empty ltac:(lia)
           eq_refl eq_refl table_empty_size).
Defined.

Lemma ref_by_uid_fails_clean_witness :
  table_one 1 = table_one 1 /\ - ENOMEM < 0.
Proof.
  apply (proj1 (ref_by_uid_fails_clean 7 7 7)
           (Some user_b) false true 1001 (table_one 1)).
  vm_compute. reflexivity.
Defined.

Lemma ref_by_uid_replaces_dying_witness :
  exists t1 t2,
    bus1_user_ref_by_uid 7 7 7 (Some user_b) true true 1000 (table_one 0)
      = Some (inr user_b, t1) /\
    bus1_user_idr t1 !! 1000 = Some user_b /\
    bus1_user_free user_a t1 = Some (tt, t2) /\
    bus1_user_idr t2 !! 1000 = Some user_b /\
    user_mem t2 !! user_a = None /\
    (exists ar, user_mem t2 !! user_b = Some ar /\ u_ref ar = 1 /\
                u_uid ar = 1000).
Proof.
  apply (ref_by_uid_replaces_dying 7 7 7 user_b true 1000 (table_one 0)
           user_a (mkUserObj 0 1000 (mkUser 0 7 7 7) 7 7 7));
    reflexivity.
Defined.

Lemma table_one_reachable : user_reachable 7 7 7 (table_one 1).
Proof.
  eapply rtc_l; [|apply rtc_refl].
  apply (user_step_op 7 7 7 (UserRefByUid (Some user_a) true true 1000)).
  vm_compute. reflexivity.
Qed.

Lemma users_have_their_own_id_witness :
  exists ur, user_mem (table_one 1) !! user_a = Some ur /\ u_uid ur = 1000.
Proof.
  exact (proj1 (proj2 (proj2
    (users_have_their_own_id 7 7 7 (table_one 1) table_one_reachable)))
    1000 user_a eq_refl).
Defined.

End UserFacts.

(** * Properties of handles *)

Module HandleFacts.
Import Handle WordFacts.

(** *** Inversion of monadic computations *)

Lemma bind_inv {A B} (m : M A) (f : A -> M B) w r :
  (m ≫= f) w = Some r -> exists a w1, m w = Some (a, w1) /\ f a w1 = Some r.
Proof.
  unfold mbind, M_bind. destruct (m w) as [[a w1]|]; [|done]. eauto.
Qed.

Lemma bind_Some {A B} (m : M A) (f : A -> M B) w a w1 r :
  m w = Some (a, w1) -> f a w1 = r -> (m ≫= f) w = r.
Proof. intros Hm Hf. unfold mbind, M_bind. by rewrite Hm. Qed.

Lemma ret_inv {A} (a b : A) w w' :
  (mret a : M A) w = Some (b, w') -> b = a /\ w' = w.
Proof. unfold mret, M_ret. by intros [= -> ->]. Qed.

Lemma get_handle_inv h w hr w' :
  get_handle h w = Some (hr, w') -> handles w !! h = Some hr /\ w' = w.
Proof. unfold get_handle. destruct (handles w !! h); by intros [= -> ->]. Qed.

Lemma get_node_inv n w nr w' :
  get_node n w = Some (nr, w') -> nodes w !! n = Some nr /\ w' = w.
Proof. unfold get_node. destruct (nodes w !! n); by intros [= -> ->]. Qed.

Lemma get_peer_inv p w pr w' :
  get_peer p w = Some (pr, w') -> peers w !! p = Some pr /\ w' = w.
Proof. unfold get_peer. destruct (peers w !! p); by intros [= -> ->]. Qed.

Lemma upd_handle_inv h f w u w' :
  upd_handle h f w = Some (u, w') ->
  exists hr, handles w !! h = Some hr /\
    w' = mkWorld (<[h := f hr]> (handles w)) (nodes w) (peers w).
Proof.
  unfold upd_handle. destruct (handles w !! h) as [hr|]; [|done].
  intros [= _ <-]. eauto.
Qed.

Lemma get_handle_Some h w hr :
  handles w !! h = Some hr -> get_handle h w = Some (hr, w).
Proof. intros H. unfold get_handle. by rewrite H. Qed.

Lemma get_peer_Some p w pr :
  peers w !! p = Some pr -> get_peer p w = Some (pr, w).
Proof. intros H. unfold get_peer. by rewrite H. Qed.

Lemma upd_handle_Some h f w hr :
  handles w !! h = Some hr ->
  upd_handle h f w
    = Some (tt, mkWorld (<[h := f hr]> (handles w)) (nodes w) (peers w)).
Proof. intros H. unfold upd_handle. by rewrite H. Qed.

Ltac minv1 :=
  match goal with
  | H : (_ ≫= _) _ = Some _ |- _ =>
      apply bind_inv in H as (? & ? & ? & H)
  | H : @mret M _ _ _ _ = Some (_, _) |- _ =>
      apply ret_inv in H as [? ?]; subst
  | H : get_handle _ _ = Some (_, _) |- _ =>
      apply get_handle_inv in H as [H ?]; subst
  | H : get_node _ _ = Some (_, _) |- _ =>
      apply get_node_inv in H as [H ?]; subst
  | H : get_peer _ _ = Some (_, _) |- _ =>
      apply get_peer_inv in H as [H ?]; subst
  | H : fault _ = Some _ |- _ => discriminate H
  end.
Ltac minv := repeat minv1.

(** Invert the first step of a computation only. *)
Tactic Notation "mstep" hyp(H) "as" ident(a) ident(H1) :=
  let w1 := fresh "w" in
  apply bind_inv in H as (a & w1 & H1 & H);
  first [ apply get_handle_inv in H1 as [H1 ->]
        | apply get_node_inv in H1 as [H1 ->]
        | apply get_peer_inv in H1 as [H1 ->]
        | idtac ].

(** *** Computations that leave the counters alone *)

Lemma frame_refl w : frame w w.
Proof. intros h hr H. eauto. Qed.

Lemma frame_same_handles w w' : handles w' = handles w -> frame w w'.
Proof. intros E h hr H. rewrite E in H. eauto. Qed.

Lemma frame_trans w1 w2 w3 : frame w1 w2 -> frame w2 w3 -> frame w1 w3.
Proof.
  intros H12 H23 h hr3 H3. destruct (H23 _ _ H3) as (hr2 & H2 & E2).
  destruct (H12 _ _ H2) as (hr1 & H1 & E1). exists hr1. split; [done|congruence].
Qed.

Lemma frame_frame_to h0 c w1 w2 w3 :
  frame w1 w2 -> frame_to h0 c w2 w3 -> frame_to h0 c w1 w3.
Proof.
  intros H12 H23 h hr3 H3. destruct (H23 _ _ H3) as (hr2 & H2 & E2).
  destruct (H12 _ _ H2) as (hr1 & H1 & E1). exists hr1. split; [done|].
  case_decide; congruence.
Qed.

Lemma frame_to_frame h0 c w1 w2 w3 :
  frame_to h0 c w1 w2 -> frame w2 w3 -> frame_to h0 c w1 w3.
Proof.
  intros H12 H23 h hr3 H3. destruct (H23 _ _ H3) as (hr2 & H2 & E2).
  destruct (H12 _ _ H2) as (hr1 & H1 & E1). exists hr1. split; [done|].
  case_decide; congruence.
Qed.

Lemma frame_to_trans h0 c c' w1 w2 w3 :
  frame_to h0 c w1 w2 -> frame_to h0 c' w2 w3 -> frame_to h0 c' w1 w3.
Proof.
  intros H12 H23 h hr3 H3. destruct (H23 _ _ H3) as (hr2 & H2 & E2).
  destruct (H12 _ _ H2) as (hr1 & H1 & E1). exists hr1. split; [done|].
  case_decide; congruence.
Qed.

Lemma frame_to_same h0 hr0 w w' :
  handles w !! h0 = Some hr0 -> frame w w' -> frame_to h0 (cnt hr0) w w'.
Proof.
  intros H0 Hf h hr' H. destruct (Hf _ _ H) as (hr & Hh & E).
  exists hr. split; [done|]. case_decide; [|done]. congruence.
Qed.

Lemma upd_handle_frame_to h f w u w' hr :
  handles w !! h = Some hr ->
  upd_handle h f w = Some (u, w') -> frame_to h (cnt (f hr)) w w'.
Proof.
  intros Hh H. apply upd_handle_inv in H as (hr0 & H0 & ->).
  assert (hr0 = hr) as -> by congruence.
  intros x xr. simpl. destruct (decide (x = h)) as [->|Hne].
  - rewrite lookup_insert_eq. intros [= <-]. eauto.
  - rewrite lookup_insert_ne by done. eauto.
Qed.

Lemma preserves_ret {A} (a : A) : preserves (mret a).
Proof. intros w b w' H. minv. apply frame_refl. Qed.

Lemma preserves_bind {A B} (m : M A) (f : A -> M B) :
  preserves m -> (forall a, preserves (f a)) -> preserves (m ≫= f).
Proof.
  intros Hm Hf w b w' H. minv. eapply frame_trans; [by eapply Hm|by eapply Hf].
Qed.

Lemma preserves_fault {A} : preserves (@fault A).
Proof. intros w a w' H. discriminate H. Qed.

Lemma preserves_get_handle h : preserves (get_handle h).
Proof. intros w a w' H. minv. apply frame_refl. Qed.

Lemma preserves_get_node n : preserves (get_node n).
Proof. intros w a w' H. minv. apply frame_refl. Qed.

Lemma preserves_get_peer p : preserves (get_peer p).
Proof. intros w a w' H. minv. apply frame_refl. Qed.

Lemma preserves_upd_handle h f :
  (forall hr, cnt (f hr) = cnt hr) -> preserves (upd_handle h f).
Proof.
  intros Hf w a w' H.
  pose proof H as H'. apply upd_handle_inv in H' as (hr & Hh & _).
  pose proof (upd_handle_frame_to _ _ _ _ _ _ Hh H) as Hft.
  intros x xr Hx. destruct (Hft _ _ Hx) as (hr1 & H1 & E). exists hr1.
  split; [done|]. case_decide; [|done]. subst. rewrite Hf in E. congruence.
Qed.

Lemma preserves_upd_node n f : preserves (upd_node n f).
Proof.
  intros w a w'. unfold upd_node. destruct (nodes w !! n); [|done].
  intros [= _ <-]. by apply frame_same_handles.
Qed.

Lemma preserves_upd_peer p f : preserves (upd_peer p f).
Proof.
  intros w a w'. unfold upd_peer. destruct (peers w !! p); [|done].
  intros [= _ <-]. by apply frame_same_handles.
Qed.

Lemma preserves_node_free n : preserves (bus1_handle_node_free n).
Proof.
  intros w a w'. unfold bus1_handle_node_free. intros [= _ <-].
  intros h hr. simpl. intros H. apply lookup_delete_Some in H as [_ H]. eauto.
Qed.

Lemma preserves_kfree_handle h : preserves (kfree_handle h).
Proof.
  intros w a w'. unfold kfree_handle. intros [= _ <-].
  intros x hr. simpl. intros H. apply lookup_delete_Some in H as [_ H]. eauto.
Qed.

Create HintDb pres discriminated.
#[local] Hint Resolve preserves_ret preserves_fault preserves_get_handle
  preserves_get_node preserves_get_peer preserves_upd_node preserves_upd_peer
  preserves_node_free preserves_kfree_handle : pres.

Ltac pres_step :=
  match goal with
  | |- preserves (_ ≫= _) => apply preserves_bind; [|intros ?]
  | |- preserves (if ?b then _ else _) => destruct b
  | |- preserves (match ?x with _ => _ end) => destruct x
  | |- preserves (upd_handle _ _) =>
      apply preserves_upd_handle; intros []; reflexivity
  | |- preserves _ => solve [eauto with pres]
  end.
Ltac pres := repeat pres_step.

Lemma preserves_destroy h : preserves (bus1_handle_destroy h).
Proof. unfold bus1_handle_destroy. pres. Qed.
#[local] Hint Resolve preserves_destroy : pres.

Lemma preserves_free h : preserves (bus1_handle_free h).
Proof. unfold bus1_handle_free. pres. Qed.
#[local] Hint Resolve preserves_free : pres.

Lemma preserves_ref h : preserves (bus1_handle_ref h).
Proof. unfold bus1_handle_ref. pres. Qed.
#[local] Hint Resolve preserves_ref : pres.

Lemma preserves_unref h : preserves (bus1_handle_unref h).
Proof. unfold bus1_handle_unref. pres. Qed.
#[local] Hint Resolve preserves_unref : pres.

Lemma preserves_peer_acquire p : preserves (bus1_peer_acquire p).
Proof. unfold bus1_peer_acquire. pres. Qed.
#[local] Hint Resolve preserves_peer_acquire : pres.

Lemma preserves_lock_holder h : preserves (bus1_handle_lock_holder h).
Proof. unfold bus1_handle_lock_holder. pres. Qed.
#[local] Hint Resolve preserves_lock_holder : pres.

Lemma preserves_lock_owner h : preserves (bus1_handle_lock_owner h).
Proof. unfold bus1_handle_lock_owner. pres. Qed.
#[local] Hint Resolve preserves_lock_owner : pres.

Lemma preserves_unlink_rb h p : preserves (bus1_handle_unlink_rb h p).
Proof. unfold bus1_handle_unlink_rb. pres. Qed.
#[local] Hint Resolve preserves_unlink_rb : pres.

Lemma preserves_list_del_init h n : preserves (list_del_init h n).
Proof. unfold list_del_init. pres. Qed.
#[local] Hint Resolve preserves_list_del_init : pres.

Lemma preserves_commit_destruction h p l :
  preserves (bus1_handle_commit_destruction h p l).
Proof. unfold bus1_handle_commit_destruction. pres. Qed.
#[local] Hint Resolve preserves_commit_destruction : pres.

Lemma preserves_finalize_destruction l :
  preserves (bus1_handle_finalize_destruction l).
Proof. induction l as [|h l IH]; simpl; pres. Qed.
#[local] Hint Resolve preserves_finalize_destruction : pres.

Lemma preserves_get_inorder_id h ts :
  preserves (bus1_handle_get_inorder_id h ts).
Proof. unfold bus1_handle_get_inorder_id. pres. Qed.
#[local] Hint Resolve preserves_get_inorder_id : pres.

Lemma preserves_find_by_id p i : preserves (bus1_handle_find_by_id p i).
Proof. unfold bus1_handle_find_by_id. pres. Qed.
#[local] Hint Resolve preserves_find_by_id : pres.


(** *** What the operations do to the counters of their handle *)

Lemma upd_then_preserves {A} h f (rest : M A) w a w' hr :
  handles w !! h = Some hr -> preserves rest ->
  (upd_handle h f;; rest) w = Some (a, w') -> frame_to h (cnt (f hr)) w w'.
Proof.
  intros Hh Hp H. apply bind_inv in H as (u & w1 & H1 & H2).
  eapply frame_to_frame; [by eapply upd_handle_frame_to|by eapply Hp].
Qed.

Lemma dec_then_preserves {A} h v (rest : M A) w a w' hr :
  handles w !! h = Some hr -> preserves rest ->
  (upd_handle h (set_n_inflight v);; rest) w = Some (a, w') ->
  frame_to h (v, n_user hr) w w'.
Proof.
  intros Hh Hp H.
  apply (upd_then_preserves h (set_n_inflight v) rest w a w' hr Hh Hp H).
Qed.

Lemma release_owner_frame h p w u w' hr :
  handles w !! h = Some hr ->
  bus1_handle_release_owner h p w = Some (u, w') ->
  frame_to h (int32 (n_inflight hr - 1), n_user hr) w w'.
Proof.
  intros Hh H. unfold bus1_handle_release_owner in H. mstep H as hr0 Hh0.
  assert (hr0 = hr) as -> by congruence.
  eapply (dec_then_preserves _ _ _ _ _ _ _ Hh); [|exact H]. pres.
Qed.

Lemma release_holder_frame h p w u w' hr :
  handles w !! h = Some hr ->
  bus1_handle_release_holder h p w = Some (u, w') ->
  frame_to h (int32 (n_inflight hr - 1), n_user hr) w w'.
Proof.
  intros Hh H. unfold bus1_handle_release_holder in H. mstep H as hr0 Hh0.
  assert (hr0 = hr) as -> by congruence.
  eapply (dec_then_preserves _ _ _ _ _ _ _ Hh); [|exact H]. pres.
Qed.

Lemma release_last_frame h p w u w' hr :
  handles w !! h = Some hr ->
  bus1_handle_release_last h p w = Some (u, w') ->
  frame_to h (int32 (n_inflight hr - 1), n_user hr) w w'.
Proof.
  intros Hh H. unfold bus1_handle_release_last in H. mstep H as hr0 Hh0.
  destruct (bus1_handle_is_owner h hr0).
  - by eapply release_owner_frame.
  - by eapply release_holder_frame.
Qed.

Lemma dec_frame h v w u w' hr :
  handles w !! h = Some hr ->
  upd_handle h (set_n_inflight v) w = Some (u, w') ->
  frame_to h (v, n_user hr) w w'.
Proof.
  intros Hh H. apply (upd_handle_frame_to h (set_n_inflight v) w u w' hr Hh H).
Qed.

Lemma peer_acquire_same p w r w' :
  bus1_peer_acquire p w = Some (r, w') -> w' = w.
Proof. unfold bus1_peer_acquire. destruct p; intros H; by minv. Qed.

Lemma release_spec h w u w' hr :
  handles w !! h = Some hr ->
  bus1_handle_release h w = Some (u, w') ->
  if bus1_handle_is_public hr
  then frame_to h (int32 (n_inflight hr - 1), n_user hr) w w'
  else w' = w.
Proof.
  intros Hh H. unfold bus1_handle_release in H. mstep H as hr0 Hh0.
  assert (hr0 = hr) as -> by congruence.
  destruct (bus1_handle_is_public hr); simpl in H; [|by minv].
  destruct (n_inflight hr =? 1); simpl in H; [|by eapply dec_frame].
  mstep H as peer Hp. apply peer_acquire_same in Hp as ->.
  destruct peer as [p|]; [by eapply release_last_frame|by eapply dec_frame].
Qed.

Lemma release_pinned_spec h p w u w' hr :
  handles w !! h = Some hr ->
  bus1_handle_release_pinned h p w = Some (u, w') ->
  if bus1_handle_is_public hr
  then frame_to h (int32 (n_inflight hr - 1), n_user hr) w w'
  else w' = w.
Proof.
  intros Hh H. unfold bus1_handle_release_pinned in H. mstep H as hr0 Hh0.
  assert (hr0 = hr) as -> by congruence.
  destruct (bus1_handle_is_public hr); simpl in H; [|by minv].
  destruct (n_inflight hr =? 1); simpl in H; [|by eapply dec_frame].
  by eapply release_last_frame.
Qed.

Lemma acquire_spec h w r w' hr :
  handles w !! h = Some hr ->
  bus1_handle_acquire h w = Some (r, w') ->
  (r = None /\ w' = w) \/
  (r = Some h /\ 0 <= n_inflight hr /\
   (n_inflight hr <> 0 \/ bus1_handle_is_owner h hr = true) /\
   frame_to h (int32 (n_inflight hr + 1), n_user hr) w w').
Proof.
  intros Hh H. unfold bus1_handle_acquire in H. mstep H as hr0 Hh0.
  assert (hr0 = hr) as -> by congruence.
  unfold bus1_handle_is_public in H.
  destruct (Z.leb_spec 0 (n_inflight hr)); simpl in H; [|left; by minv].
  assert (forall w2 r',
    (upd_handle h (set_n_inflight (int32 (n_inflight hr + 1)));;
     mret (Some h)) w = Some (r', w2) ->
    r' = Some h /\ frame_to h (int32 (n_inflight hr + 1), n_user hr) w w2)
    as Hinc.
  { intros w2 r' H'. mstep H' as u Hu. minv. split; [done|].
    by eapply dec_frame. }
  destruct (Z.eqb_spec (n_inflight hr) 0); simpl in H.
  - destruct (bus1_handle_is_owner h hr) eqn:Ho; [|left; by minv].
    right. destruct (Hinc _ _ H). auto.
  - right. destruct (Hinc _ _ H). auto.
Qed.

Lemma inorder_id_inv h seq w v w' :
  bus1_handle_get_inorder_id h seq w = Some (v, w') ->
  w' = w /\ exists hr nr,
    handles w !! h = Some hr /\ nodes w !! node hr = Some nr /\
    v = if destroyed_before (timestamp nr) seq
        then BUS1_HANDLE_INVALID else id hr.
Proof.
  unfold bus1_handle_get_inorder_id. intros H. minv. eauto 10.
Qed.

Lemma upd_handle_lookup h f w u w' hr :
  handles w !! h = Some hr -> upd_handle h f w = Some (u, w') ->
  handles w' !! h = Some (f hr).
Proof.
  intros Hh H. apply upd_handle_inv in H as (hr0 & H0 & ->). simpl.
  rewrite lookup_insert_eq. congruence.
Qed.

Lemma release_to_inflight_spec h seq w v w' hr :
  handles w !! h = Some hr -> bus1_handle_is_public hr = true ->
  bus1_handle_release_to_inflight h seq w = Some (v, w') ->
  (exists nr, nodes w !! node hr = Some nr /\
     v = if destroyed_before (timestamp nr) seq
         then BUS1_HANDLE_INVALID else id hr) /\
  frame_to h (after_commit hr v) w w'.
Proof.
  intros Hh Hpub H. unfold bus1_handle_release_to_inflight in H.
  mstep H as ts Hts.
  apply inorder_id_inv in Hts as (-> & hr0 & nr & Hh0 & Hn & Hv).
  assert (hr0 = hr) as -> by congruence.
  apply bind_inv in H as (u & w2 & H & Hret).
  apply ret_inv in Hret as [-> ->].
  split; [eauto|]. clear Hv. unfold after_commit.
  destruct (ts =? BUS1_HANDLE_INVALID).
  - pose proof (release_spec _ _ _ _ _ Hh H) as Hr. by rewrite Hpub in Hr.
  - mstep H as hr0 Hh1. assert (hr0 = hr) as -> by congruence.
    mstep H as u1 Hupd.
    pose proof (upd_handle_lookup _ _ _ _ _ _ Hh Hupd) as Hh2.
    pose proof (upd_handle_frame_to _ _ _ _ _ _ Hh Hupd) as Hf1.
    destruct (int32 (n_user hr + 1) =? 1); simpl in H.
    + minv. exact Hf1.
    + pose proof (release_spec _ _ _ _ _ Hh2 H) as Hr.
      change (bus1_handle_is_public (set_n_user (int32 (n_user hr + 1)) hr))
        with (bus1_handle_is_public hr) in Hr. rewrite Hpub in Hr.
      eapply frame_to_trans; [exact Hf1|exact Hr].
Qed.

Lemma attach_spec h p w b w' hr :
  handles w !! h = Some hr ->
  bus1_handle_attach_unlocked h p w = Some (b, w') ->
  frame w w' \/ (n_inflight hr < 0 /\ frame_to h (1, n_user hr) w w').
Proof.
  intros Hh H. unfold bus1_handle_attach_unlocked in H. mstep H as hr0 Hh0.
  assert (hr0 = hr) as -> by congruence.
  unfold bus1_handle_is_public in H.
  destruct (bool_decide (is_Some (holder hr))); simpl in H;
    [left; minv; apply frame_refl|].
  destruct (Z.leb_spec 0 (n_inflight hr)); simpl in H;
    [left; minv; apply frame_refl|].
  mstep H as or Ho.
  destruct (bool_decide (holder or = None) && negb (bus1_handle_is_owner h hr));
    [left; minv; apply frame_refl|].
  right. split; [done|].
  eapply (upd_then_preserves h
            (fun x => set_holder (Some p) (set_n_inflight 1 x)) _ _ _ _ _ Hh);
    [|exact H]. pres.
Qed.

Lemma find_by_id_inv p i w r w' :
  bus1_handle_find_by_id p i w = Some (r, w') ->
  frame w w' /\
  match r with
  | Some h => exists hr hr', handles w !! h = Some hr /\
                handles w' !! h = Some hr' /\ cnt hr' = cnt hr
  | None => True
  end.
Proof.
  intros H. split; [by eapply preserves_find_by_id|].
  unfold bus1_handle_find_by_id in H. mstep H as pr Hp.
  destruct (tree_find i (map_handles_by_id pr)) as [h|]; [|by minv].
  mstep H as hr Hh. destruct (ref hr =? 0); [by minv|].
  mstep H as u Hu. minv. unfold bus1_handle_ref in Hu.
  exists hr, (set_ref (int32 (ref hr + 1)) hr). split; [done|]. split; [|done].
  by eapply (upd_handle_lookup h (fun hr => set_ref (int32 (ref hr + 1)) hr)).
Qed.

Lemma release_by_id_spec p i w r w' :
  bus1_handle_release_by_id p i w = Some (r, w') ->
  frame w w' \/
  exists h hr, handles w !! h = Some hr /\
    frame_to h (after_release_by_id hr) w w'.
Proof.
  intros H. unfold bus1_handle_release_by_id in H. mstep H as handle Hfind.
  apply find_by_id_inv in Hfind as [Hf Hr].
  destruct handle as [h|]; [|left; by minv].
  destruct Hr as (hr & hr1 & Hh & Hh1 & Hc). right. exists h, hr.
  split; [done|]. eapply frame_frame_to; [exact Hf|].
  assert (after_release_by_id hr = after_release_by_id hr1) as ->.
  { unfold cnt in Hc. injection Hc as E1 E2.
    unfold after_release_by_id, bus1_handle_is_public, cnt. by rewrite E1, E2. }
  clear Hf Hh Hc hr. unfold after_release_by_id.
  mstep H as hr0 Hh0. assert (hr0 = hr1) as -> by congruence.
  set (v := int32 (n_user hr1 - 1)) in *.
  apply bind_inv in H as (u1 & w2 & Hdec & H).
  apply bind_inv in H as (r1 & w3 & Hrel & H).
  assert (frame w3 w') as Hf3.
  { eapply (preserves_bind (bus1_handle_unref h) (fun _ => mret r1));
      [apply preserves_unref|intros; apply preserves_ret|exact H]. }
  eapply frame_to_frame; [|exact Hf3]. clear H Hf3.
  destruct (Z.ltb_spec v 0) as [Hneg|Hpos].
  - rewrite (proj2 (Z.leb_gt 0 v)) in Hdec by lia. minv.
    by apply frame_to_same, frame_refl.
  - rewrite (proj2 (Z.leb_le 0 v)) in Hdec by lia.
    pose proof (upd_handle_lookup _ _ _ _ _ _ Hh1 Hdec) as Hh2.
    pose proof (upd_handle_frame_to _ _ _ _ _ _ Hh1 Hdec) as Hf2.
    destruct (0 <? v).
    + minv. exact Hf2.
    + mstep Hrel as u2 Hpin. minv.
      pose proof (release_pinned_spec _ _ _ _ _ _ Hh2 Hpin) as Hr.
      change (bus1_handle_is_public (set_n_user v hr1))
        with (bus1_handle_is_public hr1) in Hr.
      destruct (bus1_handle_is_public hr1).
      * eapply frame_to_trans; [exact Hf2|exact Hr].
      * subst. exact Hf2.
Qed.

Lemma install_spec flag h w r w' :
  bus1_handle_install_unlocked flag h w = Some (r, w') ->
  frame w w' \/
  exists iter ir, handles w !! iter = Some ir /\ 0 <= n_inflight ir /\
    frame_to iter (int32 (n_inflight ir + 1), n_user ir) w w'.
Proof.
  intros H. unfold bus1_handle_install_unlocked in H. mstep H as hr Hh.
  destruct (negb (bus1_handle_is_public hr)); [left; minv; apply frame_refl|].
  destruct (negb (id hr =? BUS1_HANDLE_INVALID));
    [left; minv; apply frame_refl|].
  destruct (holder hr) as [p|]; [|left; minv; apply frame_refl].
  mstep H as pr Hp.
  destruct (tree_find (node hr) (map_handles_by_node pr)) as [iter|].
  - mstep H as u1 Href. mstep H as acq Hacq. minv.
    pose proof (preserves_ref _ _ _ _ Href) as Hf.
    unfold bus1_handle_ref in Href.
    pose proof Href as Href'. apply upd_handle_inv in Href' as (ir & Hi & _).
    pose proof (upd_handle_lookup _ _ _ _ _ _ Hi Href) as Hi1.
    destruct (acquire_spec _ _ _ _ _ Hi1 Hacq)
      as [[_ ->]|(_ & Hpub & _ & Hft)].
    + by left.
    + right. exists iter, ir. split; [done|]. split; [done|].
      eapply frame_frame_to; [exact Hf|exact Hft].
  - left. revert H. generalize w w'.
    match goal with
    | |- forall w1 w2, ?m w1 = Some (r, w2) -> _ =>
        assert (preserves m) as Hpres by pres
    end.
    intros w1 w2 H. by eapply Hpres.
Qed.


(** *** The invariant of the counters *)

Lemma refs_frame w w' x hr' :
  frame w w' -> handles w' !! x = Some hr' ->
  inflight_refs w' x = inflight_refs w x.
Proof.
  intros Hf Hx. destruct (Hf _ _ Hx) as (hr & Hw & E).
  unfold inflight_refs. rewrite Hx, Hw. injection E as E1 _. by rewrite E1.
Qed.

Lemma refs_frame_to w w' h0 c x hr' :
  frame_to h0 c w w' -> handles w' !! x = Some hr' ->
  inflight_refs w' x =
  if decide (x = h0) then Z.max 0 c.1 else inflight_refs w x.
Proof.
  intros Hf Hx. destruct (Hf _ _ Hx) as (hr & Hw & E).
  unfold inflight_refs. rewrite Hx. case_decide.
  - unfold cnt in E. destruct c. injection E as -> _. done.
  - rewrite Hw. injection E as E1 _. by rewrite E1.
Qed.

Lemma counters_ok_frame w w' held held' :
  counters_ok w held -> frame w w' ->
  (forall x hr', handles w' !! x = Some hr' -> held' x = held x) ->
  counters_ok w' held'.
Proof.
  intros Hok Hf Hh x hr' Hx. destruct (Hf _ _ Hx) as (hr & Hw & E).
  injection E as E1 E2. rewrite (Hh _ _ Hx), E1, E2. by apply Hok.
Qed.

Lemma counters_ok_frame_to w w' held held' h0 c :
  counters_ok w held -> frame_to h0 c w w' ->
  (forall x hr', x <> h0 -> handles w' !! x = Some hr' -> held' x = held x) ->
  (forall hr', handles w' !! h0 = Some hr' ->
     (c.1 = -1 /\ c.2 = 0 /\ held' h0 = 0) \/
     (0 <= c.2 /\ 0 <= held' h0 /\
      c.1 = held' h0 + (if 0 <? c.2 then 1 else 0))) ->
  counters_ok w' held'.
Proof.
  intros Hok Hf Hh Hc x hr' Hx. destruct (Hf _ _ Hx) as (hr & Hw & E).
  case_decide as Hd.
  - subst x. specialize (Hc _ Hx). unfold cnt in E. destruct c as [c1 c2].
    injection E as -> ->. exact Hc.
  - injection E as E1 E2. rewrite (Hh _ _ Hd Hx), E1, E2. by apply Hok.
Qed.

(** Every operation that returns keeps the invariant. *)
Lemma step_ok flag w held o w' :
  counters_ok w held -> below_max w -> allowed o held ->
  run_op flag o w = Some (tt, w') ->
  counters_ok w' (fun x => held x + gained o w w' x).
Proof.
  intros Hok Hmax Hal Hrun. destruct o as [h p|h|h|h|h seq|p i]; simpl in *.
  - (* attach *)
    mstep Hrun as b Hat. minv.
    assert (exists hr, handles w !! h = Some hr) as [hr Hh].
    { pose proof Hat as H'. unfold bus1_handle_attach_unlocked in H'.
      mstep H' as hr Hh. eauto. }
    destruct (attach_spec _ _ _ _ _ _ Hh Hat) as [Hf|[Hneg Hf]].
    + eapply counters_ok_frame; [done|done|]. intros x hr' Hx. simpl.
      rewrite (refs_frame _ _ _ _ Hf Hx). lia.
    + eapply counters_ok_frame_to; [done|exact Hf| |].
      * intros x hr' Hne Hx. simpl. rewrite (refs_frame_to _ _ _ _ _ _ Hf Hx).
        rewrite decide_False by done. lia.
      * intros hr' Hx. simpl. rewrite (refs_frame_to _ _ _ _ _ _ Hf Hx).
        rewrite decide_True by done. simpl. unfold inflight_refs. rewrite Hh.
        destruct (Hok _ _ Hh) as [(E1 & E2 & E3)|(E1 & E2 & E3)].
        -- right. rewrite E2, E3. simpl. lia.
        -- destruct (0 <? n_user hr); lia.
  - (* install *)
    mstep Hrun as r Hin. minv.
    destruct (install_spec _ _ _ _ _ Hin) as [Hf|(iter & ir & Hi & Hpub & Hf)].
    + eapply counters_ok_frame; [done|done|]. intros x hr' Hx. simpl.
      rewrite (refs_frame _ _ _ _ Hf Hx). lia.
    + destruct (Hmax _ _ Hi) as [Hm1 Hm2].
      rewrite int32_id in Hf by lia.
      eapply counters_ok_frame_to; [done|exact Hf| |].
      * intros x hr' Hne Hx. simpl. rewrite (refs_frame_to _ _ _ _ _ _ Hf Hx).
        rewrite decide_False by done. lia.
      * intros hr' Hx. simpl. rewrite (refs_frame_to _ _ _ _ _ _ Hf Hx).
        rewrite decide_True by done. simpl. unfold inflight_refs. rewrite Hi.
        destruct (Hok _ _ Hi) as [(E1 & E2 & E3)|(E1 & E2 & E3)]; [lia|].
        right. destruct (0 <? n_user ir); lia.
  - (* acquire *)
    mstep Hrun as r Hac. minv.
    assert (exists hr, handles w !! h = Some hr) as [hr Hh].
    { pose proof Hac as H'. unfold bus1_handle_acquire in H'.
      mstep H' as hr Hh. eauto. }
    destruct (acquire_spec _ _ _ _ _ Hh Hac) as [[_ ->]|(_ & Hpub & _ & Hf)].
    + eapply counters_ok_frame; [done|apply frame_refl|]. intros x hr' Hx.
      simpl. lia.
    + destruct (Hmax _ _ Hh) as [Hm1 Hm2].
      rewrite int32_id in Hf by lia.
      eapply counters_ok_frame_to; [done|exact Hf| |].
      * intros x hr' Hne Hx. simpl. rewrite (refs_frame_to _ _ _ _ _ _ Hf Hx).
        rewrite decide_False by done. lia.
      * intros hr' Hx. simpl. rewrite (refs_frame_to _ _ _ _ _ _ Hf Hx).
        rewrite decide_True by done. simpl. unfold inflight_refs. rewrite Hh.
        destruct (Hok _ _ Hh) as [(E1 & E2 & E3)|(E1 & E2 & E3)]; [lia|].
        right. destruct (0 <? n_user hr); lia.
  - (* release *)
    assert (exists hr, handles w !! h = Some hr) as [hr Hh].
    { pose proof Hrun as H'. unfold bus1_handle_release in H'.
      mstep H' as hr Hh. eauto. }
    pose proof (release_spec _ _ _ _ _ Hh Hrun) as Hf.
    destruct (Hmax _ _ Hh) as [Hm1 Hm2].
    destruct (Hok _ _ Hh) as [(E1 & E2 & E3)|(E1 & E2 & E3)]; [lia|].
    assert (1 <= n_inflight hr) as Hge by (destruct (0 <? n_user hr); lia).
    unfold bus1_handle_is_public in Hf.
    rewrite (proj2 (Z.leb_le 0 (n_inflight hr))) in Hf by lia.
    rewrite int32_id in Hf by lia.
    eapply counters_ok_frame_to; [done|exact Hf| |].
    + intros x hr' Hne Hx. simpl. rewrite decide_False by done. lia.
    + intros hr' Hx. simpl. rewrite decide_True by done. right.
      destruct (0 <? n_user hr); lia.
  - (* commit *)
    mstep Hrun as v Hc. minv.
    assert (exists hr, handles w !! h = Some hr) as [hr Hh].
    { pose proof Hc as H'. unfold bus1_handle_release_to_inflight in H'.
      mstep H' as ts Hts. apply inorder_id_inv in Hts as (_ & ? & ? & ? & _).
      eauto. }
    destruct (Hmax _ _ Hh) as [Hm1 Hm2].
    destruct (Hok _ _ Hh) as [(E1 & E2 & E3)|(E1 & E2 & E3)]; [lia|].
    assert (1 <= n_inflight hr) as Hge by (destruct (0 <? n_user hr); lia).
    assert (bus1_handle_is_public hr = true) as Hpub
      by (unfold bus1_handle_is_public; apply Z.leb_le; lia).
    destruct (release_to_inflight_spec _ _ _ _ _ _ Hh Hpub Hc) as [_ Hf].
    unfold after_commit in Hf. rewrite !int32_id in Hf by lia.
    eapply counters_ok_frame_to; [done|exact Hf| |].
    + intros x hr' Hne Hx. simpl. rewrite decide_False by done. lia.
    + intros hr' Hx. simpl. rewrite decide_True by done. right.
      destruct (v =? BUS1_HANDLE_INVALID); simpl.
      { destruct (0 <? n_user hr); lia. }
      destruct (Z.eqb_spec (n_user hr + 1) 1) as [E|E]; simpl.
      { rewrite E. simpl. assert (n_user hr = 0) as E0 by lia.
        rewrite E0 in E3. simpl in E3. lia. }
      assert (0 < n_user hr) as Hpos by lia.
      rewrite (proj2 (Z.ltb_lt 0 (n_user hr))) in E3 by lia.
      rewrite (proj2 (Z.ltb_lt 0 (n_user hr + 1))) by lia. lia.
  - (* release by id *)
    mstep Hrun as r Hr. minv.
    destruct (release_by_id_spec _ _ _ _ _ Hr) as [Hf|(h & hr & Hh & Hf)].
    + eapply counters_ok_frame; [done|done|]. intros x hr' Hx. simpl. lia.
    + destruct (Hmax _ _ Hh) as [Hm1 Hm2].
      eapply counters_ok_frame_to; [done|exact Hf| |].
      * intros x hr' Hne Hx. simpl. lia.
      * intros hr' Hx. simpl. rewrite Z.add_0_r.
        unfold after_release_by_id, bus1_handle_is_public.
        destruct (Hok _ _ Hh) as [(E1 & E2 & E3)|(E1 & E2 & E3)].
        -- rewrite E2. simpl. left. done.
        -- rewrite int32_id by lia.
           destruct (Z.ltb_spec (n_user hr - 1) 0); simpl; [by right|].
           destruct (Z.ltb_spec 0 (n_user hr - 1)); simpl.
           ++ right. rewrite (proj2 (Z.ltb_lt 0 (n_user hr))) in E3 by lia.
              rewrite (proj2 (Z.ltb_lt 0 (n_user hr - 1))) by lia. lia.
           ++ assert (n_user hr = 1) as E0 by lia. rewrite E0 in *.
              simpl in *. rewrite (proj2 (Z.leb_le 0 (n_inflight hr))) by lia.
              rewrite int32_id by lia. simpl. right. lia.
Qed.

Lemma trace_counters_ok flag w held : trace flag w held -> counters_ok w held.
Proof.
  induction 1 as [w Hfresh|w held o w' Ht IH Hal Hmax Hrun].
  - intros h hr Hh. left. destruct (Hfresh _ _ Hh). done.
  - by eapply step_ok.
Qed.


Lemma run_trace_sound flag ops w held w' held' :
  trace flag w held -> run_trace flag ops w held = Some (w', held') ->
  trace flag w' held'.
Proof.
  revert w held. induction ops as [|o ops IH]; simpl; intros w held Ht H.
  - by injection H as <- <-.
  - case_decide as Hd; [|done]. destruct Hd as [Hal Hmax].
    destruct (run_op flag o w) as [[[] w1]|] eqn:Hrun; [|done].
    eapply IH; [|exact H]. by eapply trace_step.
Qed.

Lemma world_fresh_is_fresh : fresh world_fresh.
Proof.
  intros h hr H. unfold world_fresh in H. simpl in H.
  apply lookup_singleton_Some in H as [_ <-]. done.
Qed.

(** C2, with the shared inflight reference made explicit.  In every world reached from fresh handles by attach,
    install, acquire, release, commit and release-by-id calls that return,
    where every release and commit drops an inflight reference held by a
    caller and no counter is at [INT_MAX], every public handle has
    [0 <= n_user] and [0 <= n_inflight], and [n_user > 0] implies
    [n_inflight >= 1]: the inflight references are those held by callers
    plus one that all user references share. *)
Theorem counters_invariant flag w held h hr :
  trace flag w held -> handles w !! h = Some hr ->
  bus1_handle_is_public hr = true ->
  0 <= n_user hr /\ 0 <= n_inflight hr /\
  (0 < n_user hr -> 1 <= n_inflight hr) /\
  0 <= held h /\
  n_inflight hr = held h + (if 0 <? n_user hr then 1 else 0).
Proof.
  intros Ht Hh Hpub. apply trace_counters_ok in Ht.
  unfold bus1_handle_is_public in Hpub. apply Z.leb_le in Hpub.
  destruct (Ht _ _ Hh) as [(E1 & E2 & E3)|(E1 & E2 & E3)]; [lia|].
  destruct (Z.ltb_spec 0 (n_user hr)); repeat split; lia.
Qed.

(** The operations of the example: the owner handle is attached, installed
    and acquired once more, and both inflight references are committed. *)
Lemma counters_example :
  exists w held,
    trace 1 w held /\
    handles w !! owner_a
      = Some (mkHandle true node_a 5 (Some peer_a) 3 1 2).
Proof.
  destruct (run_trace 1 [OpAttach owner_a peer_a; OpInstall owner_a;
                         OpAcquire owner_a; OpCommit owner_a 2;
                         OpCommit owner_a 2] world_fresh (fun _ => 0))
    as [[w held]|] eqn:Hrun; [|by vm_compute in Hrun].
  exists w, held. split.
  - eapply run_trace_sound; [|exact Hrun].
    apply trace_init, world_fresh_is_fresh.
  - vm_compute in Hrun. injection Hrun as <- _. reflexivity.
Qed.

Lemma counters_invariant_witness :
  exists w held hr,
    trace 1 w held /\ handles w !! owner_a = Some hr /\
    bus1_handle_is_public hr = true /\
    0 <= n_user hr /\ 0 <= n_inflight hr /\
    (0 < n_user hr -> 1 <= n_inflight hr) /\
    0 <= held owner_a /\
    n_inflight hr = held owner_a + (if 0 <? n_user hr then 1 else 0).
Proof.
  destruct counters_example as (w & held & Ht & Hh).
  exists w, held, (mkHandle true node_a 5 (Some peer_a) 3 1 2).
  split; [exact Ht|]. split; [exact Hh|]. split; [reflexivity|].
  apply (counters_invariant 1 w held owner_a _ Ht Hh). reflexivity.
Defined.

(** C2, counterexample.  [n_user <= n_inflight] does not hold: after two
    commits on the same handle there are two user references and one
    inflight reference. *)
Lemma counters_claim_fails :
  ~ (forall w held h hr,
       trace 1 w held -> handles w !! h = Some hr ->
       bus1_handle_is_public hr = true ->
       0 <= n_user hr <= n_inflight hr).
Proof.
  intros Hclaim. destruct counters_example as (w & held & Ht & Hh).
  specialize (Hclaim w held owner_a _ Ht Hh eq_refl). simpl in Hclaim. lia.
Qed.


(** *** The ids reported by a commit *)

Lemma destroyed_before_iff ts seq :
  0 <= ts ->
  destroyed_before ts seq = true <-> destroyed_at_or_before ts seq.
Proof.
  intros Hts. unfold destroyed_before, destroyed_at_or_before.
  rewrite !andb_true_iff, Z.ltb_lt, Z.leb_le, Z.eqb_eq.
  change 1 with (Z.ones 1) at 1. rewrite Z.land_ones by lia.
  change (2 ^ 1) with 2. rewrite Zmod_even.
  destruct (Z.even ts); split; intros H; repeat split; try lia; try tauto.
Qed.

Lemma release_to_inflight_value h seq w v w' :
  bus1_handle_release_to_inflight h seq w = Some (v, w') ->
  exists hr nr,
    handles w !! h = Some hr /\ nodes w !! node hr = Some nr /\
    v = if destroyed_before (timestamp nr) seq
        then BUS1_HANDLE_INVALID else id hr.
Proof.
  intros H. unfold bus1_handle_release_to_inflight in H.
  mstep H as ts Hts.
  apply inorder_id_inv in Hts as (-> & hr & nr & Hh & Hn & Hv).
  apply bind_inv in H as (u & w2 & H & Hret).
  apply ret_inv in Hret as [-> ->]. eauto.
Qed.

Lemma commit_entries_lookup es seq w vs w' i h :
  commit_entries es seq w = Some (vs, w') ->
  es !! i = Some (entry_handle (Some h)) ->
  exists vs0 wi hr nr v,
    commit_entries (take i es) seq w = Some (vs0, wi) /\
    handles wi !! h = Some hr /\ nodes wi !! node hr = Some nr /\
    vs !! i = Some v /\
    v = if destroyed_before (timestamp nr) seq
        then BUS1_HANDLE_INVALID else id hr.
Proof.
  revert w vs i. induction es as [|e es IH]; intros w vs i H Hi; [done|].
  simpl in H. mstep H as v0 Hstep. mstep H as vs' Hrest.
  apply ret_inv in H as [-> ->].
  destruct i as [|i]; simpl in Hi.
  - injection Hi as ->. mstep Hstep as v1 Hrel. mstep Hstep as u Hunref.
    apply ret_inv in Hstep as [-> ->].
    destruct (release_to_inflight_value _ _ _ _ _ Hrel)
      as (hr & nr & Hh & Hn & Hv).
    exists [], w, hr, nr, v1. done.
  - destruct (IH _ _ _ Hrest Hi) as (vs0 & wi & hr & nr & v & Hc & Hh & Hn & Hl & Hv).
    exists (v0 :: vs0), wi, hr, nr, v. split; [|done].
    simpl. eapply bind_Some; [exact Hstep|].
    eapply bind_Some; [exact Hc|]. reflexivity.
Qed.

Lemma commit_entries_length es seq w vs w' :
  commit_entries es seq w = Some (vs, w') -> length vs = length es.
Proof.
  revert w vs. induction es as [|e es IH]; intros w vs H; simpl in H.
  - apply ret_inv in H as [-> _]. done.
  - mstep H as v0 Hstep. mstep H as vs' Hrest.
    apply ret_inv in H as [-> ->]. simpl. f_equal. by eapply IH.
Qed.

(** What a commit that returns has written into the slots. *)
Lemma inflight_commit_when_returns inflight seq w inflight' w' i h :
  bus1_handle_inflight_commit inflight seq w = Some (inflight', w') ->
  (i < n_handles_ (batch inflight))%nat ->
  entries (batch inflight) !! i = Some (entry_handle (Some h)) ->
  exists vs wi hr nr v,
    commit_entries (take i (entries (batch inflight))) seq w = Some (vs, wi) /\
    handles wi !! h = Some hr /\ nodes wi !! node hr = Some nr /\
    entries (batch inflight') !! i = Some (entry_id v) /\
    (bus1_handle_has_id hr = true -> 0 <= timestamp nr ->
     (v = BUS1_HANDLE_INVALID <->
        destroyed_at_or_before (timestamp nr) seq) /\
     (~ destroyed_at_or_before (timestamp nr) seq -> v = id hr)).
Proof.
  intros H Hi He. unfold bus1_handle_inflight_commit in H.
  mstep H as vs Hc. apply ret_inv in H as [-> ->].
  assert (take (n_handles_ (batch inflight)) (entries (batch inflight)) !! i
          = Some (entry_handle (Some h))) as He'.
  { rewrite lookup_take_lt by lia. done. }
  destruct (commit_entries_lookup _ _ _ _ _ _ _ Hc He')
    as (vs0 & wi & hr & nr & v & Hpre & Hh & Hn & Hl & Hv).
  exists vs0, wi, hr, nr, v.
  rewrite take_take in Hpre. rewrite Nat.min_l in Hpre by lia.
  split; [done|]. split; [done|]. split; [done|]. split.
  - simpl. rewrite lookup_app_l.
    + by rewrite list_lookup_fmap, Hl.
    + rewrite length_fmap. by eapply lookup_lt_Some.
  - intros Hid Hts. pose proof (destroyed_before_iff _ seq Hts) as Hiff.
    unfold bus1_handle_has_id in Hid. apply negb_true_iff in Hid.
    apply Z.eqb_neq in Hid.
    destruct (destroyed_before (timestamp nr) seq).
    + split; [|tauto]. split; [tauto|done].
    + subst v. split; [|done]. split; [done|]. intros Hd.
      apply Hiff in Hd. done.
Qed.


Lemma with_handle_id w h hr : handles w !! h = Some hr -> with_handle w h hr = w.
Proof.
  intros H. unfold with_handle. rewrite insert_id by done. by destruct w.
Qed.

Lemma with_handle_twice w h hr hr' :
  with_handle (with_handle w h hr) h hr' = with_handle w h hr'.
Proof. unfold with_handle. simpl. by rewrite insert_insert_eq. Qed.

Lemma with_handle_lookup w h hr : handles (with_handle w h hr) !! h = Some hr.
Proof. simpl. apply lookup_insert_eq. Qed.

Lemma same_except_with_handle w h hr : same_except h w (with_handle w h hr).
Proof.
  split; [done|]. split; [done|]. intros x Hx. simpl.
  by rewrite lookup_insert_ne.
Qed.

Lemma upd_handle_with h f w hr :
  handles w !! h = Some hr ->
  upd_handle h f w = Some (tt, with_handle w h (f hr)).
Proof. apply upd_handle_Some. Qed.

(** A release that is not the last one, or on a handle without holder,
    only moves the counter. *)
Lemma release_simple h w hr :
  handles w !! h = Some hr ->
  n_inflight hr <> 1 \/ holder hr = None ->
  exists hr', bus1_handle_release h w = Some (tt, with_handle w h hr') /\
              ref hr' = ref hr.
Proof.
  intros Hh Hc. unfold bus1_handle_release.
  destruct (bus1_handle_is_public hr) eqn:Hpub.
  - exists (set_n_inflight (int32 (n_inflight hr - 1)) hr). split; [|done].
    eapply bind_Some; [by apply get_handle_Some|]. rewrite Hpub. simpl.
    destruct (Z.eqb_spec (n_inflight hr) 1) as [E|E]; simpl.
    + destruct Hc as [Hc|Hc]; [done|]. rewrite Hc. simpl.
      eapply bind_Some; [reflexivity|]. by apply upd_handle_with.
    + by apply upd_handle_with.
  - exists hr. split; [|done].
    eapply bind_Some; [by apply get_handle_Some|]. rewrite Hpub. simpl.
    unfold mret, M_ret. by rewrite with_handle_id.
Qed.

Lemma commit_step_simple w seq h :
  commit_ready w seq h ->
  exists v w1,
    (bus1_handle_release_to_inflight h seq ≫= fun v =>
       bus1_handle_unref h;; mret v) w = Some (v, w1) /\
    same_except h w w1 /\
    forall hr nr, handles w !! h = Some hr -> nodes w !! node hr = Some nr ->
      v = if destroyed_before (timestamp nr) seq
          then BUS1_HANDLE_INVALID else id hr.
Proof.
  intros (hr & nr & Hh & Hn & Href & Hc).
  set (v := if destroyed_before (timestamp nr) seq
            then BUS1_HANDLE_INVALID else id hr).
  assert (exists hr', bus1_handle_release_to_inflight h seq w
            = Some (v, with_handle w h hr') /\ ref hr' = ref hr)
    as (hr' & Hrel & Hr').
  { unfold bus1_handle_release_to_inflight.
    assert (bus1_handle_get_inorder_id h seq w = Some (v, w)) as Hid.
    { unfold bus1_handle_get_inorder_id.
      eapply bind_Some; [by apply get_handle_Some|].
      eapply bind_Some; [unfold get_node; by rewrite Hn|]. reflexivity. }
    destruct (Z.eqb_spec v BUS1_HANDLE_INVALID) as [Ev|Ev].
    - assert (n_inflight hr <> 1 \/ holder hr = None) as Hc'.
      { destruct Hc as [?|[?|(Hid' & Hd & _)]]; [tauto|tauto|].
        exfalso. unfold v in Ev. rewrite Hd in Ev.
        unfold bus1_handle_has_id in Hid'. apply negb_true_iff in Hid'.
        apply Z.eqb_neq in Hid'. done. }
      destruct (release_simple _ _ _ Hh Hc') as (hr' & Hrel & Hr').
      exists hr'. split; [|done].
      eapply bind_Some; [exact Hid|].
      rewrite (proj2 (Z.eqb_eq v BUS1_HANDLE_INVALID)) by done.
      eapply bind_Some; [exact Hrel|]. reflexivity.
    - set (hr1 := set_n_user (int32 (n_user hr + 1)) hr).
      destruct (Z.eqb_spec (int32 (n_user hr + 1)) 1) as [E1|E1].
      + exists hr1. split; [|done].
        eapply bind_Some; [exact Hid|].
        rewrite (proj2 (Z.eqb_neq v BUS1_HANDLE_INVALID)) by done.
        eapply bind_Some; [|reflexivity].
        eapply bind_Some; [by apply get_handle_Some|].
        eapply bind_Some; [by apply upd_handle_with|].
        rewrite (proj2 (Z.eqb_eq _ 1)) by done. reflexivity.
      + assert (n_inflight hr1 <> 1 \/ holder hr1 = None) as Hc'.
        { destruct Hc as [?|[?|(_ & _ & Hu)]]; [by left|by right|].
          exfalso. rewrite Hu in E1. done. }
        destruct (release_simple h (with_handle w h hr1) hr1
                    (with_handle_lookup _ _ _) Hc') as (hr' & Hrel & Hr').
        rewrite with_handle_twice in Hrel.
        exists hr'. split; [|done].
        eapply bind_Some; [exact Hid|].
        rewrite (proj2 (Z.eqb_neq v BUS1_HANDLE_INVALID)) by done.
        eapply bind_Some; [|reflexivity].
        eapply bind_Some; [by apply get_handle_Some|].
        eapply bind_Some; [by apply upd_handle_with|].
        rewrite (proj2 (Z.eqb_neq _ 1)) by done. exact Hrel. }
  exists v, (with_handle w h (set_ref (int32 (ref hr' - 1)) hr')).
  split; [|split].
  - eapply bind_Some; [exact Hrel|].
    eapply bind_Some; [|reflexivity].
    unfold bus1_handle_unref.
    eapply bind_Some; [apply get_handle_Some, with_handle_lookup|].
    eapply bind_Some; [apply upd_handle_with, with_handle_lookup|].
    rewrite with_handle_twice. rewrite Hr', int32_id by lia.
    rewrite (proj2 (Z.eqb_neq (ref hr - 1) 0)) by lia. reflexivity.
  - apply same_except_with_handle.
  - intros hr0 nr0 Hh0 Hn0. assert (hr0 = hr) as -> by congruence.
    assert (nr0 = nr) as -> by congruence. done.
Qed.

Lemma commit_ready_same h x w w1 seq :
  same_except h w w1 -> x <> h -> commit_ready w seq x ->
  commit_ready w1 seq x.
Proof.
  intros (Hn & _ & Hh) Hx (hr & nr & H1 & H2 & H3).
  exists hr, nr. rewrite Hh by done. rewrite Hn. done.
Qed.

Lemma commit_entries_total es seq w :
  Forall is_entry_handle es -> NoDup (pinned es) ->
  (forall h, h ∈ pinned es -> commit_ready w seq h) ->
  exists vs w',
    commit_entries es seq w = Some (vs, w') /\
    nodes w' = nodes w /\
    forall i h hr nr,
      es !! i = Some (entry_handle (Some h)) ->
      handles w !! h = Some hr -> nodes w !! node hr = Some nr ->
      vs !! i = Some (if destroyed_before (timestamp nr) seq
                      then BUS1_HANDLE_INVALID else id hr).
Proof.
  revert w. induction es as [|e es IH]; intros w Hall Hnd Hready.
  - exists [], w. split; [reflexivity|]. split; [done|]. intros i h hr nr Hi.
    done.
  - apply Forall_cons in Hall as [[oh ->] Hall].
    destruct oh as [h|].
    + simpl in Hnd. apply NoDup_cons in Hnd as [Hh Hnd].
      destruct (commit_step_simple w seq h) as (v & w1 & Hstep & Hsame & Hv);
        [apply Hready; simpl; left|].
      destruct (IH w1 Hall Hnd) as (vs & w' & Hrest & Hn' & Hvs).
      { intros x Hx. eapply commit_ready_same; [exact Hsame| |].
        - intros ->. done.
        - apply Hready. simpl. by right. }
      exists (v :: vs), w'. split; [|split].
      * simpl. eapply bind_Some; [exact Hstep|].
        eapply bind_Some; [exact Hrest|]. reflexivity.
      * destruct Hsame as (Hn & _). congruence.
      * intros i x hr nr Hi Hx Hnx. destruct i as [|i]; simpl in *.
        -- injection Hi as <-. f_equal. by apply Hv.
        -- destruct Hsame as (Hn & _ & Hother).
           assert (x <> h) as Hne.
           { intros ->. apply Hh. unfold pinned.
             apply list_elem_of_omap. exists (entry_handle (Some h)).
             split; [|done]. by eapply list_elem_of_lookup_2. }
           apply (Hvs i x hr nr Hi); [by rewrite Hother|by rewrite Hn].
    + simpl in Hnd. destruct (IH w Hall Hnd) as (vs & w' & Hrest & Hn' & Hvs).
      { intros x Hx. apply Hready. done. }
      exists (BUS1_HANDLE_INVALID :: vs), w'. split; [|split; [done|]].
      * simpl. eapply bind_Some; [reflexivity|].
        eapply bind_Some; [exact Hrest|]. reflexivity.
      * intros i x hr nr Hi Hx Hnx. destruct i as [|i]; simpl in *; [done|].
        by eapply Hvs.
Qed.

(** A commit whose pinned handles are distinct and ready returns, and the
    ids it writes follow the timestamps the nodes have when it starts. *)
Lemma inflight_commit_returns inflight seq w :
  let es := take (n_handles_ (batch inflight)) (entries (batch inflight)) in
  Forall is_entry_handle es -> NoDup (pinned es) ->
  (forall h, h ∈ pinned es -> commit_ready w seq h) ->
  exists inflight' w',
    bus1_handle_inflight_commit inflight seq w = Some (inflight', w') /\
    forall i h hr nr,
      es !! i = Some (entry_handle (Some h)) ->
      handles w !! h = Some hr -> nodes w !! node hr = Some nr ->
      bus1_handle_has_id hr = true -> 0 <= timestamp nr ->
      exists v,
        entries (batch inflight') !! i = Some (entry_id v) /\
        (v = BUS1_HANDLE_INVALID <->
           destroyed_at_or_before (timestamp nr) seq) /\
        (~ destroyed_at_or_before (timestamp nr) seq -> v = id hr).
Proof.
  intros es Hall Hnd Hready.
  destruct (commit_entries_total es seq w Hall Hnd Hready)
    as (vs & w' & Hc & _ & Hvs).
  eexists _, w'. split.
  - unfold bus1_handle_inflight_commit. eapply bind_Some; [exact Hc|].
    reflexivity.
  - intros i h hr nr Hi Hh Hn Hid Hts. specialize (Hvs i h hr nr Hi Hh Hn).
    eexists. split; [|split].
    + simpl. rewrite lookup_app_l.
      * by rewrite list_lookup_fmap, Hvs.
      * rewrite length_fmap. by eapply lookup_lt_Some.
    + pose proof (destroyed_before_iff _ seq Hts) as Hiff.
      unfold bus1_handle_has_id in Hid. apply negb_true_iff in Hid.
      apply Z.eqb_neq in Hid.
      destruct (destroyed_before (timestamp nr) seq); [tauto|].
      split; [done|]. intros Hd. apply Hiff in Hd. done.
    + pose proof (destroyed_before_iff _ seq Hts) as Hiff.
      destruct (destroyed_before (timestamp nr) seq); [tauto|done].
Qed.

(** C1.  For every pinned entry of an inflight context that holds an
    installed handle, with [ts] the destruction timestamp of the handle's
    node when the entry is committed, the id that
    [bus1_handle_inflight_commit] with sequence number [seq] writes into
    the slot is [BUS1_HANDLE_INVALID] exactly when [ts] is even, nonzero and
    at most [seq], and is the id of the handle otherwise.  This holds
    whenever the commit returns; and it does return, with [ts] the timestamp
    at the start of the commit, when the pinned handles are distinct and
    their release takes no peer lock. *)
Theorem inflight_commit_reports inflight seq w :
  let es := take (n_handles_ (batch inflight)) (entries (batch inflight)) in
  (forall inflight' w' i h,
     bus1_handle_inflight_commit inflight seq w = Some (inflight', w') ->
     es !! i = Some (entry_handle (Some h)) ->
     exists vs wi hr nr v,
       commit_entries (take i es) seq w = Some (vs, wi) /\
       handles wi !! h = Some hr /\ nodes wi !! node hr = Some nr /\
       entries (batch inflight') !! i = Some (entry_id v) /\
       (bus1_handle_has_id hr = true -> 0 <= timestamp nr ->
        (v = BUS1_HANDLE_INVALID <->
           destroyed_at_or_before (timestamp nr) seq) /\
        (~ destroyed_at_or_before (timestamp nr) seq -> v = id hr))) /\
  (Forall is_entry_handle es -> NoDup (pinned es) ->
   (forall h, h ∈ pinned es -> commit_ready w seq h) ->
   exists inflight' w',
     bus1_handle_inflight_commit inflight seq w = Some (inflight', w') /\
     forall i h hr nr,
       es !! i = Some (entry_handle (Some h)) ->
       handles w !! h = Some hr -> nodes w !! node hr = Some nr ->
       bus1_handle_has_id hr = true -> 0 <= timestamp nr ->
       exists v,
         entries (batch inflight') !! i = Some (entry_id v) /\
         (v = BUS1_HANDLE_INVALID <->
            destroyed_at_or_before (timestamp nr) seq) /\
         (~ destroyed_at_or_before (timestamp nr) seq -> v = id hr)).
Proof.
  intros es. split.
  - intros inflight' w' i h Hrun Hi.
    assert (i < n_handles_ (batch inflight))%nat as Hlt.
    { apply lookup_lt_Some in Hi. unfold es in Hi.
      rewrite length_take in Hi. lia. }
    assert (entries (batch inflight) !! i = Some (entry_handle (Some h)))
      as Hi'.
    { unfold es in Hi. by rewrite lookup_take_lt in Hi by lia. }
    destruct (inflight_commit_when_returns _ _ _ _ _ _ _ Hrun Hlt Hi')
      as (vs & wi & hr & nr & v & Hpre & Hrest).
    exists vs, wi, hr, nr, v. split; [|exact Hrest].
    unfold es. rewrite take_take, Nat.min_l by lia. exact Hpre.
  - apply inflight_commit_returns.
Qed.

(** Destruction against a send: the node was destroyed at timestamp 4; a
    commit at sequence number 6 reports the invalid id and drops the
    handle's last inflight reference, a commit at sequence number 2 reports
    the id of the handle and turns the reference into a user reference. *)
Lemma race_destroy_vs_send :
  (exists w', bus1_handle_inflight_commit (inflight_single handle_b) 6
                (world_destroyed 4)
              = Some (mkInflight (mkBatch 1 0 [entry_id BUS1_HANDLE_INVALID])
                                 0 0, w') /\
              handles w' !! handle_b
                = Some (mkHandle true node_a 9 None 1 0 0)) /\
  (exists w', bus1_handle_inflight_commit (inflight_single handle_b) 2
                (world_destroyed 4)
              = Some (mkInflight (mkBatch 1 0 [entry_id 9]) 0 0, w') /\
              handles w' !! handle_b
                = Some (mkHandle true node_a 9 None 1 1 1)).
Proof. split; eexists; split; vm_compute; reflexivity. Qed.

Lemma inflight_commit_reports_witness :
  exists inflight' w',
    bus1_handle_inflight_commit (inflight_single handle_b) 6
      (world_destroyed 4) = Some (inflight', w') /\
    forall i h hr nr,
      [entry_handle (Some handle_b)] !! i = Some (entry_handle (Some h)) ->
      handles (world_destroyed 4) !! h = Some hr ->
      nodes (world_destroyed 4) !! node hr = Some nr ->
      bus1_handle_has_id hr = true -> 0 <= timestamp nr ->
      exists v,
        entries (batch inflight') !! i = Some (entry_id v) /\
        (v = BUS1_HANDLE_INVALID <->
           destroyed_at_or_before (timestamp nr) 6) /\
        (~ destroyed_at_or_before (timestamp nr) 6 -> v = id hr).
Proof.
  apply (proj2 (inflight_commit_reports (inflight_single handle_b) 6
                  (world_destroyed 4))).
  - repeat constructor. by exists (Some handle_b).
  - compute_done.
  - intros h Hh. apply list_elem_of_singleton in Hh as ->.
    exists (mkHandle true node_a 9 None 2 1 0), (mkNode 2 [] 4).
    split; [reflexivity|]. split; [reflexivity|]. split; [simpl; lia|].
    right; left; reflexivity.
Defined.


(** *** Releasing an id without a user reference *)

Lemma set_ref_back hr v : set_ref (ref hr) (set_ref v hr) = hr.
Proof. by destruct hr. Qed.

(** *** The lookup by id on an ordered tree *)

Lemma tree_find_app (i : Z) (l1 l2 : list (Z * ptr)) :
  tree_find i (l1 ++ l2)
  = match tree_find i l1 with
    | Some h => Some h
    | None => tree_find i l2
    end.
Proof.
  induction l1 as [|[k h] l1 IH]; simpl; [done|].
  by destruct (decide (i = k)).
Qed.

Lemma tree_find_other (i : Z) (l : list (Z * ptr)) :
  Forall (fun kv : Z * ptr => kv.1 <> i) l -> tree_find i l = None.
Proof.
  induction 1 as [|[k h] l Hk Hl IH]; simpl; [done|].
  by rewrite decide_False by (simpl in Hk; congruence).
Qed.

(** On a tree that is ordered by id, the descent of the lookup finds what
    the scan of the in-order sequence finds, whatever the shape of the
    tree. *)
Lemma descend_scan i t :
  by_id_sorted (id_inorder t) ->
  id_descend i t = tree_find i (id_inorder t).
Proof.
  unfold by_id_sorted. induction t as [|l IHl k h r IHr]; simpl; [done|].
  intros Hs. apply StronglySorted_app in Hs as (Hlr & Hl & Hr).
  apply StronglySorted_inv in Hr as [Hr Hk].
  assert (Forall (fun kv : Z * ptr => kv.1 < k) (id_inorder l)) as Hlk.
  { apply Forall_forall. intros x Hx.
    apply (Hlr x (k, h) Hx). apply elem_of_cons. by left. }
  rewrite tree_find_app. simpl.
  destruct (Z.eqb_spec i k) as [->|Hne].
  - rewrite (tree_find_other k (id_inorder l)).
    + by rewrite decide_True.
    + eapply Forall_impl; [exact Hlk|]. simpl. lia.
  - rewrite decide_False by done.
    destruct (Z.ltb_spec i k) as [Hlt|Hge].
    + rewrite IHl by done.
      destruct (tree_find i (id_inorder l)); [done|].
      symmetry. apply tree_find_other.
      eapply Forall_impl; [exact Hk|]. simpl. lia.
    + rewrite IHr by done. rewrite (tree_find_other i (id_inorder l)); [done|].
      eapply Forall_impl; [exact Hlk|]. simpl. lia.
Qed.

(** On an ordered tree an id names one handle. *)
Lemma by_id_sorted_unique (i : Z) h (t : list (Z * ptr)) :
  by_id_sorted t -> tree_find i t = Some h ->
  Forall (fun kv : Z * ptr => kv.1 = i -> kv.2 = h) t.
Proof.
  unfold by_id_sorted. induction 1 as [|[k x] t Hs IH Hk]; [done|].
  simpl. intros Hf. destruct (decide (i = k)) as [->|Hne].
  - injection Hf as ->. apply Forall_cons_2; [done|].
    eapply Forall_impl; [exact Hk|]. simpl. lia.
  - apply Forall_cons_2; [simpl; congruence|by apply IH].
Qed.

(** What the scan finds on an ordered tree, the descent finds; and what is
    not in the sequence, the descent does not find on any tree. *)
Lemma descend_finds i h l t :
  by_id_sorted l -> tree_find i l = Some h -> id_inorder t = l ->
  id_descend i t = Some h.
Proof. intros Hs Hf <-. by rewrite descend_scan. Qed.

Lemma descend_absent i t :
  tree_find i (id_inorder t) = None -> id_descend i t = None.
Proof.
  induction t as [|l IHl k h r IHr]; simpl; [done|].
  rewrite tree_find_app.
  destruct (tree_find i (id_inorder l)) eqn:El; [done|]. simpl.
  destruct (decide (i = k)) as [->|Hne]; [done|]. intros Hr.
  rewrite (proj2 (Z.eqb_neq _ _)) by done.
  destruct (i <? k); auto.
Qed.

(** Without the order the descent can miss an id that is in the sequence:
    an id smaller than the one before it, as the wrapped counter produces,
    hangs to the right of the larger id, where the descent does not go. *)
Lemma descend_unordered_misses :
  tree_find 1 (id_inorder (ID_NODE ID_LEAF 9 handle_b
                             (ID_NODE ID_LEAF 1 owner_a ID_LEAF)))
  = Some owner_a /\
  id_descend 1 (ID_NODE ID_LEAF 9 handle_b
                  (ID_NODE ID_LEAF 1 owner_a ID_LEAF)) = None.
Proof. split; reflexivity. Qed.

(** Installing and unlinking keep the order: [bus1_handle_install_unlocked]
    appends an id that is larger than the ids of the tree (as long as the
    counter does not wrap), and [rb_erase] takes entries out. *)
Lemma by_id_sorted_snoc (i : Z) h (t : list (Z * ptr)) :
  by_id_sorted t -> Forall (fun kv : Z * ptr => kv.1 < i) t ->
  by_id_sorted (t ++ [(i, h)]).
Proof.
  unfold by_id_sorted. intros Hs Hlt. apply StronglySorted_app_2.
  - intros x1 x2 H1 H2. apply list_elem_of_singleton in H2 as ->.
    exact (proj1 (Forall_forall _ _) Hlt x1 H1).
  - done.
  - repeat constructor.
Qed.

Lemma by_id_sorted_erase h (t : list (Z * ptr)) :
  by_id_sorted t -> by_id_sorted (tree_erase h t).
Proof.
  unfold by_id_sorted, tree_erase.
  induction 1 as [|kv t Hs IH Hk]; [by constructor|].
  rewrite filter_cons. case_decide; [|done].
  constructor; [done|]. apply Forall_forall. intros x Hx.
  apply list_elem_of_filter in Hx as [_ Hx].
  exact (proj1 (Forall_forall _ _) Hk x Hx).
Qed.

(** C8.  Releasing by id a handle that is linked under that id in the
    peer's id tree, is alive and has [n_user = 0], returns [-ESTALE] and
    leaves the whole state as it was; so does doing it twice.  The id tree
    is ordered by id, so that the descent of the lookup finds the handle
    whatever the shape of the tree. *)
Theorem release_by_id_stale w p i pr h hr :
  peers w !! p = Some pr ->
  by_id_sorted (map_handles_by_id pr) ->
  tree_find i (map_handles_by_id pr) = Some h ->
  handles w !! h = Some hr ->
  0 < ref hr < 2 ^ 31 ->
  n_user hr = 0 ->
  (forall t, id_inorder t = map_handles_by_id pr -> id_descend i t = Some h) /\
  bus1_handle_release_by_id p i w = Some (- ESTALE, w) /\
  (bus1_handle_release_by_id p i;; bus1_handle_release_by_id p i) w
    = Some (- ESTALE, w).
Proof.
  intros Hp Hsorted Hfind Hh Href Hu.
  split; [intros t Ht; by eapply descend_finds|].
  assert (bus1_handle_release_by_id p i w = Some (- ESTALE, w)) as Hone.
  { set (hr1 := set_ref (int32 (ref hr + 1)) hr).
    set (w1 := mkWorld (<[h := hr1]> (handles w)) (nodes w) (peers w)).
    assert (bus1_handle_find_by_id p i w = Some (Some h, w1)) as Hf.
    { unfold bus1_handle_find_by_id.
      eapply bind_Some; [by apply get_peer_Some|]. rewrite Hfind.
      eapply bind_Some; [by apply get_handle_Some|].
      rewrite (proj2 (Z.eqb_neq (ref hr) 0)) by lia.
      eapply bind_Some; [by apply upd_handle_Some|]. reflexivity. }
    assert (handles w1 !! h = Some hr1) as Hh1
      by (simpl; apply lookup_insert_eq).
    unfold bus1_handle_release_by_id.
    eapply bind_Some; [exact Hf|].
    eapply bind_Some; [by apply get_handle_Some|].
    change (n_user hr1) with (n_user hr). rewrite Hu.
    change (int32 (0 - 1)) with (-1). simpl.
    eapply bind_Some; [reflexivity|].
    eapply bind_Some; [reflexivity|].
    unfold bus1_handle_unref.
    eapply bind_Some; [|].
    { eapply bind_Some; [by apply get_handle_Some|].
      eapply bind_Some; [by apply upd_handle_Some|].
      change (ref hr1) with (int32 (ref hr + 1)).
      rewrite int32_succ_pred by lia.
      rewrite (proj2 (Z.eqb_neq (ref hr) 0)) by lia. reflexivity. }
    simpl. unfold mret, M_ret. do 2 f_equal.
    unfold hr1. rewrite set_ref_back.
    rewrite insert_insert_eq, insert_id by done. by destruct w. }
  split; [exact Hone|].
  eapply bind_Some; [exact Hone|]. exact Hone.
Qed.

Lemma release_by_id_stale_witness :
  bus1_handle_release_by_id peer_a 5 (world_installed 0 0)
    = Some (- ESTALE, world_installed 0 0) /\
  (bus1_handle_release_by_id peer_a 5;; bus1_handle_release_by_id peer_a 5)
    (world_installed 0 0) = Some (- ESTALE, world_installed 0 0).
Proof.
  refine (proj2 (release_by_id_stale (world_installed 0 0) peer_a 5
           (mkPeer true [(5, owner_a)] [(node_a, owner_a)] 1)
           owner_a (handle_installed 0) _ _ _ _ _ _));
    [reflexivity|repeat constructor|reflexivity|reflexivity|simpl; lia
    |reflexivity].
Defined.


(** *** Installing a handle for a node the peer already has *)

Lemma tree_find_node_insert n h (t : list (ptr * ptr)) :
  tree_find n t = None -> tree_find n (node_insert n h t) = Some h.
Proof.
  induction t as [|[n' h'] t IH]; simpl; intros Hf.
  - by rewrite decide_True.
  - destruct (decide (n = n')) as [->|Hne]; [done|].
    destruct (n <? n')%positive; simpl.
    + by rewrite decide_True.
    + rewrite decide_False by done. by apply IH.
Qed.





(** *** Running the handle operations forward *)

(** *** Running computations forward *)

Lemma bind_eq {A B} (m : M A) (f : A -> M B) w a w1 :
  m w = Some (a, w1) -> (m ≫= f) w = f a w1.
Proof. intros H. unfold mbind, M_bind. by rewrite H. Qed.

Lemma bind_assoc {A B C} (m : M A) (f : A -> M B) (g : B -> M C) w :
  ((m ≫= f) ≫= g) w = (m ≫= (fun a => f a ≫= g)) w.
Proof. unfold mbind, M_bind. by destruct (m w) as [[a w1]|]. Qed.

Lemma get_handle_eq h hr hs ns ps :
  hs !! h = Some hr ->
  get_handle h (mkWorld hs ns ps) = Some (hr, mkWorld hs ns ps).
Proof. intros H. unfold get_handle. simpl. by rewrite H. Qed.

Lemma get_node_eq n nr hs ns ps :
  ns !! n = Some nr ->
  get_node n (mkWorld hs ns ps) = Some (nr, mkWorld hs ns ps).
Proof. intros H. unfold get_node. simpl. by rewrite H. Qed.

Lemma get_peer_eq p pr hs ns ps :
  ps !! p = Some pr ->
  get_peer p (mkWorld hs ns ps) = Some (pr, mkWorld hs ns ps).
Proof. intros H. unfold get_peer. simpl. by rewrite H. Qed.

Lemma upd_handle_eq h f hr hs ns ps :
  hs !! h = Some hr ->
  upd_handle h f (mkWorld hs ns ps)
  = Some (tt, mkWorld (<[h := f hr]> hs) ns ps).
Proof. intros H. unfold upd_handle. simpl. by rewrite H. Qed.

Lemma upd_node_eq n f nr hs ns ps :
  ns !! n = Some nr ->
  upd_node n f (mkWorld hs ns ps)
  = Some (tt, mkWorld hs (<[n := f nr]> ns) ps).
Proof. intros H. unfold upd_node. simpl. by rewrite H. Qed.

Lemma upd_peer_eq p f pr hs ns ps :
  ps !! p = Some pr ->
  upd_peer p f (mkWorld hs ns ps)
  = Some (tt, mkWorld hs ns (<[p := f pr]> ps)).
Proof. intros H. unfold upd_peer. simpl. by rewrite H. Qed.

Ltac look :=
  first [ eassumption
        | apply lookup_insert_eq
        | rewrite lookup_insert_ne by (done || congruence); look
        | rewrite lookup_delete_ne by (done || congruence); look ].

(** One step of a computation whose first action reads or writes an object
    that is known to be allocated. *)
Ltac mrun1 :=
  first
    [ erewrite (bind_eq (get_handle _)) by (apply get_handle_eq; look)
    | erewrite (bind_eq (get_node _)) by (apply get_node_eq; look)
    | erewrite (bind_eq (get_peer _)) by (apply get_peer_eq; look)
    | erewrite (bind_eq (upd_handle _ _)) by (apply upd_handle_eq; look)
    | erewrite (bind_eq (upd_node _ _)) by (apply upd_node_eq; look)
    | erewrite (bind_eq (upd_peer _ _)) by (apply upd_peer_eq; look)
    | erewrite (bind_eq (mret _)) by reflexivity
    | erewrite (bind_eq (init_handle _ _)) by reflexivity
    | erewrite (bind_eq (init_node _ _)) by reflexivity
    | erewrite (bind_eq (kfree_handle _)) by reflexivity
    | erewrite (bind_eq (bus1_handle_node_free _)) by reflexivity
    | rewrite bind_assoc ];
  cbn [handles nodes peers]; cbv beta iota zeta.
Ltac mrun := repeat mrun1.

Lemma set_n_inflight_back hr v :
  set_n_inflight (n_inflight hr) (set_n_inflight v hr) = hr.
Proof. by destruct hr. Qed.

Lemma set_node_ref_back nr v :
  set_node_ref (node_ref nr) (set_node_ref v nr) = nr.
Proof. by destruct nr. Qed.

Lemma world_eta w : mkWorld (handles w) (nodes w) (peers w) = w.
Proof. by destruct w. Qed.

(** X18.  References are given back exactly: taking an object reference
    and dropping it, or acquiring an inflight reference on a handle that
    has one and releasing it, leaves the whole state as it was. *)
Theorem reference_round_trips h w hr :
  handles w !! h = Some hr ->
  (1 <= ref hr < 2 ^ 31 - 1 ->
   exists w1, bus1_handle_ref h w = Some (tt, w1) /\
              bus1_handle_unref h w1 = Some (tt, w)) /\
  (1 <= n_inflight hr < 2 ^ 31 - 1 ->
   exists w1, bus1_handle_acquire h w = Some (Some h, w1) /\
              bus1_handle_release h w1 = Some (tt, w)).
Proof.
  intros Hh. destruct w as [hs ns ps]. simpl in Hh. split.
  - intros Hr. eexists. split.
    + unfold bus1_handle_ref. by apply upd_handle_eq.
    + unfold bus1_handle_unref. mrun. cbv zeta. cbn [ref set_ref].
      rewrite (int32_id (ref hr + 1)) by lia.
      replace (ref hr + 1 - 1) with (ref hr) by lia.
      rewrite int32_id by lia. mrun.
      destruct (Z.eqb_spec (ref hr) 0) as [?|_]; [lia|].
      rewrite insert_insert_eq, set_ref_back, insert_id by done. reflexivity.
  - intros Hn. eexists. split.
    + unfold bus1_handle_acquire. mrun. unfold bus1_handle_is_public.
      destruct (Z.leb_spec 0 (n_inflight hr)) as [_|?]; [|lia].
      destruct (Z.eqb_spec (n_inflight hr) 0) as [?|_]; [lia|].
      cbn [negb]. mrun. reflexivity.
    + unfold bus1_handle_release. mrun. unfold bus1_handle_is_public.
      cbn [n_inflight set_n_inflight].
      rewrite (int32_id (n_inflight hr + 1)) by lia.
      destruct (Z.leb_spec 0 (n_inflight hr + 1)) as [_|?]; [|lia].
      destruct (Z.eqb_spec (n_inflight hr + 1) 1) as [?|_]; [lia|].
      cbn [negb].
      erewrite upd_handle_eq by look.
      replace (n_inflight hr + 1 - 1) with (n_inflight hr) by lia.
      rewrite int32_id by lia.
      rewrite insert_insert_eq, set_n_inflight_back, insert_id by done.
      reflexivity.
Qed.

Lemma kmalloc_node_eq n hs ns ps :
  ns !! n = None -> hs !! owner_of n = None ->
  kmalloc_node n (mkWorld hs ns ps) = Some (tt, mkWorld hs ns ps).
Proof. intros H1 H2. unfold kmalloc_node. simpl. by rewrite H1, H2. Qed.

Lemma kmalloc_handle_eq h hs ns ps :
  hs !! h = None ->
  kmalloc_handle h (mkWorld hs ns ps) = Some (tt, mkWorld hs ns ps).
Proof. intros H. unfold kmalloc_handle. simpl. by rewrite H. Qed.

(** What [bus1_handle_new] builds, and that dropping the reference of the
    owner handle frees it again. *)
Lemma allocation_new_run n hs ns ps :
  ns !! n = None -> hs !! owner_of n = None ->
  bus1_handle_new (Some n) (mkWorld hs ns ps)
  = Some (Some (owner_of n),
          mkWorld (<[owner_of n := handle_private n]> hs)
                  (<[n := mkNode 1 [] 0]> ns) ps) /\
  bus1_handle_unref (owner_of n)
    (mkWorld (<[owner_of n := handle_private n]> hs)
             (<[n := mkNode 1 [] 0]> ns) ps)
  = Some (tt, mkWorld hs ns ps).
Proof.
  intros Hn Ho. split.
  - unfold bus1_handle_new.
    erewrite bind_eq by by apply kmalloc_node_eq.
    mrun. unfold bus1_handle_init. mrun.
    cbn [set_node_ref node_ref list_handles timestamp].
    rewrite !insert_insert_eq. reflexivity.
  - unfold bus1_handle_unref. mrun. cbv zeta.
    cbn [ref handle_private]. change (int32 (1 - 1)) with 0.
    mrun. change (0 =? 0) with true. cbv iota.
    unfold bus1_handle_free. mrun.
    unfold bus1_handle_is_owner. cbn [node set_ref handle_private].
    rewrite bool_decide_eq_true_2 by done.
    unfold bus1_handle_destroy. mrun. cbn [node set_ref handle_private].
    mrun. cbv zeta. cbn [node_ref]. change (int32 (1 - 1)) with 0.
    mrun. change (0 =? 0) with true. cbv iota. mrun.
    unfold mret, M_ret.
    rewrite !insert_insert_eq, !delete_insert_eq, !delete_id by done.
    reflexivity.
Qed.

(** X19.  Allocation and release are balanced.  A handle created by
    [bus1_handle_new] or [bus1_handle_new_copy] is private, unlinked and
    holds one reference; dropping that reference frees what was allocated
    (the node with its owner handle, or the copy) and gives back the
    reference on the node, so that the state is what it was. *)
Theorem allocation_round_trips w :
  (forall n,
     nodes w !! n = None -> handles w !! owner_of n = None ->
     let w1 := mkWorld (<[owner_of n := handle_private n]> (handles w))
                       (<[n := mkNode 1 [] 0]> (nodes w)) (peers w) in
     bus1_handle_new (Some n) w = Some (Some (owner_of n), w1) /\
     bus1_handle_unref (owner_of n) w1 = Some (tt, w)) /\
  (forall h e er nr,
     handles w !! h = None -> handles w !! e = Some er ->
     nodes w !! node er = Some nr -> 1 <= node_ref nr < 2 ^ 31 - 1 ->
     h <> owner_of (node er) ->
     let w1 := mkWorld (<[h := handle_private (node er)]> (handles w))
                       (<[node er := set_node_ref (node_ref nr + 1) nr]>
                          (nodes w))
                       (peers w) in
     bus1_handle_new_copy (Some h) e w = Some (Some h, w1) /\
     bus1_handle_unref h w1 = Some (tt, w)).
Proof.
  destruct w as [hs ns ps]. cbn [handles nodes peers]. split.
  - intros n Hn Ho. by apply allocation_new_run.
  - intros h e er nr Hh He Hn Hr Hne.
    assert (h <> e) as Hhe by congruence. split.
    + unfold bus1_handle_new_copy.
      erewrite bind_eq by by apply kmalloc_handle_eq.
      mrun. unfold bus1_handle_init. mrun.
      rewrite (int32_id (node_ref nr + 1)) by lia. reflexivity.
    + unfold bus1_handle_unref. mrun. cbv zeta.
      cbn [ref handle_private]. change (int32 (1 - 1)) with 0.
      mrun. change (0 =? 0) with true. cbv iota.
      unfold bus1_handle_free. mrun.
      unfold bus1_handle_is_owner. cbn [node set_ref handle_private].
      rewrite bool_decide_eq_false_2 by done.
      unfold bus1_handle_destroy. mrun. cbn [node set_ref handle_private].
      mrun. cbv zeta. cbn [node_ref set_node_ref].
      replace (node_ref nr + 1 - 1) with (node_ref nr) by lia.
      rewrite int32_id by lia. mrun.
      destruct (Z.eqb_spec (node_ref nr) 0) as [?|_]; [lia|].
      mrun. unfold kfree_handle. cbn [handles nodes peers].
      rewrite !insert_insert_eq, !delete_insert_eq, !delete_id by done.
      change (set_node_ref (node_ref nr) (set_node_ref (node_ref nr + 1) nr))
        with (set_node_ref (node_ref nr) nr).
      replace (set_node_ref (node_ref nr) nr) with nr by by destruct nr.
      rewrite insert_id by done. reflexivity.
Qed.

(** *** Installing a handle *)

Lemma lor_low_bits m flag :
  0 <= m -> 0 <= flag < 4 -> Z.lor (Z.shiftl m 2) flag = 4 * m + flag.
Proof.
  intros Hm Hf. rewrite <- Z.add_nocarry_lor.
  - rewrite Z.shiftl_mul_pow2 by lia. lia.
  - replace flag with (Z.land flag (Z.ones 2)).
    2:{ rewrite Z.land_ones by lia. apply Z.mod_small.
        change (2 ^ 2) with 4. lia. }
    rewrite (Z.land_comm flag), Z.land_assoc, Z.land_ones by lia.
    rewrite Z.shiftl_mul_pow2 by lia. rewrite Z.mod_mul by lia.
    apply Z.land_0_l.
Qed.

Lemma next_id_value k flag :
  0 <= k < 2 ^ 62 - 1 -> 0 <= flag < 4 ->
  Z.lor (u64 (Z.shiftl (u64 (k + 1)) 2)) flag = 4 * (k + 1) + flag.
Proof.
  intros Hk Hf. unfold u64. rewrite (Z.mod_small (k + 1)) by lia.
  rewrite Z.shiftl_mul_pow2 by lia. rewrite Z.mod_small by lia.
  rewrite <- Z.shiftl_mul_pow2 by lia. apply lor_low_bits; lia.
Qed.

Lemma tree_find_app_last (k : Z) h (t : list (Z * ptr)) :
  Forall (fun kv : Z * ptr => kv.1 <> k) t ->
  tree_find k (t ++ [(k, h)]) = Some h.
Proof.
  induction 1 as [|[k' h'] t Hk Ht IH]; simpl.
  - by rewrite decide_True.
  - rewrite decide_False by (simpl in Hk; congruence). done.
Qed.

Lemma tree_find_app_old (k k0 : Z) h (t : list (Z * ptr)) :
  k <> k0 -> tree_find k (t ++ [(k0, h)]) = tree_find k t.
Proof.
  intros Hne. induction t as [|[k' h'] t IH]; simpl.
  - by rewrite decide_False.
  - by rewrite IH.
Qed.

(** Installing a handle for a node that the peer has no handle for. *)
Lemma install_run flag h hr p pr hs ns ps :
  hs !! h = Some hr -> ps !! p = Some pr ->
  bus1_handle_is_public hr = true -> id hr = BUS1_HANDLE_INVALID ->
  holder hr = Some p ->
  tree_find (node hr) (map_handles_by_node pr) = None ->
  bus1_handle_install_unlocked flag h (mkWorld hs ns ps)
  = Some (Some h,
      mkWorld
        (<[h := set_rb_linked true
                  (set_id (Z.lor (u64 (Z.shiftl (u64 (handle_ids pr + 1)) 2))
                                 flag)
                     (set_ref (int32 (ref hr + 1)) hr))]> hs)
        ns
        (<[p := mkPeer (active pr)
                  (map_handles_by_id pr ++
                   [(Z.lor (u64 (Z.shiftl (u64 (handle_ids pr + 1)) 2)) flag,
                     h)])
                  (node_insert (node hr) h (map_handles_by_node pr))
                  (u64 (handle_ids pr + 1))]> ps)).
Proof.
  intros Hh Hp Hpub Hid Hholder Hfind. unfold bus1_handle_install_unlocked.
  mrun. rewrite Hpub, Hid, Z.eqb_refl, Hholder. cbn [negb]. mrun.
  rewrite Hfind. unfold bus1_handle_ref. mrun. cbv zeta. mrun.
  rewrite insert_insert_eq. reflexivity.
Qed.

(** Below the wrap of the counter an install keeps the by-id tree ordered. *)
Lemma install_keeps_order flag h hr p pr hs ns ps :
  0 <= flag < 4 -> hs !! h = Some hr -> ps !! p = Some pr ->
  bus1_handle_is_public hr = true -> id hr = BUS1_HANDLE_INVALID ->
  holder hr = Some p ->
  tree_find (node hr) (map_handles_by_node pr) = None ->
  0 <= handle_ids pr < 2 ^ 62 - 1 -> ids_below pr ->
  by_id_sorted (map_handles_by_id pr) ->
  exists w1 pr1,
    bus1_handle_install_unlocked flag h (mkWorld hs ns ps)
    = Some (Some h, w1) /\
    peers w1 !! p = Some pr1 /\ by_id_sorted (map_handles_by_id pr1).
Proof.
  intros Hf Hh Hp Hpub Hid Hholder Hfind Hk Hbelow Hsorted.
  do 2 eexists. split; [by apply install_run|].
  cbn [peers]. rewrite lookup_insert_eq. split; [done|].
  cbn [map_handles_by_id]. rewrite next_id_value by (done || lia).
  apply by_id_sorted_snoc; [done|].
  eapply Forall_impl; [exact Hbelow|]. cbn beta. intros kv Hkv. lia.
Qed.

(** X20.  Ids are handed out in sequence and never reused: installing a
    handle for a node the peer has no handle for gives it the id
    [4 * (handle_ids + 1) + BUS1_NODE_FLAG_MANAGED], which is a valid id
    larger than every id in the peer's tree; the handle goes to the end of
    the by-id tree, the counter advances by one, and the ids of the tree
    stay below what the counter will hand out next. *)
Theorem install_assigns_next_id flag h hr p pr w :
  0 <= flag < 4 ->
  handles w !! h = Some hr -> peers w !! p = Some pr ->
  bus1_handle_is_public hr = true -> id hr = BUS1_HANDLE_INVALID ->
  holder hr = Some p ->
  tree_find (node hr) (map_handles_by_node pr) = None ->
  0 <= handle_ids pr < 2 ^ 62 - 2 -> ids_below pr ->
  exists w1 hr1 pr1,
    bus1_handle_install_unlocked flag h w = Some (Some h, w1) /\
    handles w1 !! h = Some hr1 /\ peers w1 !! p = Some pr1 /\
    id hr1 = 4 * (handle_ids pr + 1) + flag /\
    id hr1 <> BUS1_HANDLE_INVALID /\
    Forall (fun kv : Z * ptr => kv.1 < id hr1) (map_handles_by_id pr) /\
    map_handles_by_id pr1 = map_handles_by_id pr ++ [(id hr1, h)] /\
    handle_ids pr1 = handle_ids pr + 1 /\
    ids_below pr1.
Proof.
  intros Hf Hh Hp Hpub Hid Hholder Hfind Hk Hbelow.
  destruct w as [hs ns ps]. cbn [handles nodes peers] in *.
  do 3 eexists. split; [by apply install_run|].
  cbn [handles nodes peers]. rewrite !lookup_insert_eq.
  split; [done|]. split; [done|].
  cbn [id set_rb_linked set_id map_handles_by_id handle_ids].
  rewrite next_id_value by (done || lia).
  split; [done|]. split; [unfold BUS1_HANDLE_INVALID; lia|].
  split; [|split; [done|split]].
  - eapply Forall_impl; [exact Hbelow|]. cbn beta. intros kv Hkv. lia.
  - unfold u64. rewrite Z.mod_small; lia.
  - unfold ids_below. cbn [map_handles_by_id handle_ids].
    unfold u64. rewrite Z.mod_small by lia. apply Forall_app. split.
    + eapply Forall_impl; [exact Hbelow|]. cbn beta. intros kv Hkv. lia.
    + constructor; [simpl; lia|constructor].
Qed.

(** X21.  What was installed is found: after
    [bus1_handle_install_unlocked] installed a handle, the lookup by its id
    and the lookup by node, for any handle of the same node, both return
    that handle and do nothing but take an object reference on it. *)
Theorem install_then_lookup flag h hr p pr w e er :
  0 <= flag < 4 ->
  handles w !! h = Some hr -> peers w !! p = Some pr ->
  bus1_handle_is_public hr = true -> id hr = BUS1_HANDLE_INVALID ->
  holder hr = Some p ->
  tree_find (node hr) (map_handles_by_node pr) = None ->
  0 <= handle_ids pr < 2 ^ 62 - 1 -> ids_below pr ->
  0 <= ref hr < 2 ^ 31 - 2 ->
  handles w !! e = Some er -> node er = node hr ->
  exists w1 hr1,
    bus1_handle_install_unlocked flag h w = Some (Some h, w1) /\
    handles w1 !! h = Some hr1 /\
    let w2 := mkWorld (<[h := set_ref (ref hr1 + 1) hr1]> (handles w1))
                      (nodes w1) (peers w1) in
    bus1_handle_find_by_id p (id hr1) w1 = Some (Some h, w2) /\
    bus1_handle_find_by_node p e w1 = Some (Some h, w2).
Proof.
  intros Hf Hh Hp Hpub Hid Hholder Hfind Hk Hbelow Hr He Hnode.
  destruct w as [hs ns ps]. cbn [handles nodes peers] in *.
  do 2 eexists. split; [by apply install_run|].
  cbn [handles nodes peers]. rewrite lookup_insert_eq.
  split; [done|]. cbv zeta.
  cbn [id ref set_rb_linked set_id set_ref].
  rewrite (int32_id (ref hr + 1)) by lia.
  set (hr1 := set_rb_linked true (set_id _ (set_ref (ref hr + 1) hr))).
  assert (ref hr1 = ref hr + 1) as Hr1 by reflexivity.
  split.
  - unfold bus1_handle_find_by_id. mrun. cbn [map_handles_by_id].
    rewrite tree_find_app_last.
    2:{ rewrite next_id_value by done.
        eapply Forall_impl; [exact Hbelow|]. cbn beta. intros kv Hkv. lia. }
    mrun. rewrite Hr1.
    destruct (Z.eqb_spec (ref hr + 1) 0) as [?|_]; [lia|].
    unfold bus1_handle_ref. mrun. rewrite Hr1.
    rewrite (int32_id (ref hr + 1 + 1)) by lia. reflexivity.
  - unfold bus1_handle_find_by_node. mrun. cbn [map_handles_by_node].
    assert (exists er', <[h := hr1]> hs !! e = Some er' /\ node er' = node hr)
      as (er' & He' & Hn').
    { destruct (decide (e = h)) as [->|Hne].
      - exists hr1. by rewrite lookup_insert_eq.
      - exists er. by rewrite lookup_insert_ne. }
    erewrite (bind_eq (get_handle e)) by (apply get_handle_eq; exact He').
    rewrite Hn', tree_find_node_insert by done.
    mrun. rewrite Hr1.
    destruct (Z.eqb_spec (ref hr + 1) 0) as [?|_]; [lia|].
    unfold bus1_handle_ref. mrun. rewrite Hr1.
    rewrite (int32_id (ref hr + 1 + 1)) by lia. reflexivity.
Qed.

(** *** Computations that leave the timestamps alone *)

Lemma ts_frame_refl w : ts_frame w w.
Proof. intros n nr H. eauto. Qed.

Lemma ts_frame_same_nodes w w' : nodes w' = nodes w -> ts_frame w w'.
Proof. intros E n nr H. rewrite E in H. eauto. Qed.

Lemma ts_frame_trans w1 w2 w3 :
  ts_frame w1 w2 -> ts_frame w2 w3 -> ts_frame w1 w3.
Proof.
  intros H12 H23 n nr3 H3. destruct (H23 _ _ H3) as (nr2 & H2 & E2).
  destruct (H12 _ _ H2) as (nr1 & H1 & E1). exists nr1. split; [done|congruence].
Qed.

Lemma ts_preserves_ret {A} (a : A) : ts_preserves (mret a).
Proof. intros w b w' H. minv. apply ts_frame_refl. Qed.

Lemma ts_preserves_bind {A B} (m : M A) (f : A -> M B) :
  ts_preserves m -> (forall a, ts_preserves (f a)) -> ts_preserves (m ≫= f).
Proof.
  intros Hm Hf w b w' H. minv.
  eapply ts_frame_trans; [by eapply Hm|by eapply Hf].
Qed.

Lemma ts_preserves_fault {A} : ts_preserves (@fault A).
Proof. intros w a w' H. discriminate H. Qed.

Lemma ts_preserves_get_handle h : ts_preserves (get_handle h).
Proof. intros w a w' H. minv. apply ts_frame_refl. Qed.

Lemma ts_preserves_get_node n : ts_preserves (get_node n).
Proof. intros w a w' H. minv. apply ts_frame_refl. Qed.

Lemma ts_preserves_get_peer p : ts_preserves (get_peer p).
Proof. intros w a w' H. minv. apply ts_frame_refl. Qed.

Lemma ts_preserves_upd_handle h f : ts_preserves (upd_handle h f).
Proof.
  intros w a w' H. apply upd_handle_inv in H as (hr & _ & ->).
  by apply ts_frame_same_nodes.
Qed.

Lemma ts_preserves_upd_peer p f : ts_preserves (upd_peer p f).
Proof.
  intros w a w'. unfold upd_peer. destruct (peers w !! p); [|done].
  intros [= _ <-]. by apply ts_frame_same_nodes.
Qed.

Lemma ts_preserves_upd_node n f :
  (forall nr, timestamp (f nr) = timestamp nr) -> ts_preserves (upd_node n f).
Proof.
  intros Hf w a w'. unfold upd_node.
  destruct (nodes w !! n) as [nr|] eqn:Hn; [|done].
  intros [= _ <-]. intros m mr. simpl.
  destruct (decide (m = n)) as [->|Hne].
  - rewrite lookup_insert_eq. intros [= <-]. exists nr. by rewrite Hf.
  - rewrite lookup_insert_ne by done. eauto.
Qed.

Lemma ts_preserves_node_free n : ts_preserves (bus1_handle_node_free n).
Proof.
  intros w a w'. unfold bus1_handle_node_free. intros [= _ <-].
  intros m mr. simpl. intros H. apply lookup_delete_Some in H as [_ H]. eauto.
Qed.

Lemma ts_preserves_kfree_handle h : ts_preserves (kfree_handle h).
Proof.
  intros w a w'. unfold kfree_handle. intros [= _ <-].
  by apply ts_frame_same_nodes.
Qed.

Create HintDb tsp discriminated.
#[local] Hint Resolve ts_preserves_ret ts_preserves_fault
  ts_preserves_get_handle ts_preserves_get_node ts_preserves_get_peer
  ts_preserves_upd_handle ts_preserves_upd_peer ts_preserves_node_free
  ts_preserves_kfree_handle : tsp.

Ltac tsp_step :=
  match goal with
  | |- ts_preserves (_ ≫= _) => apply ts_preserves_bind; [|intros ?]
  | |- ts_preserves (if ?b then _ else _) => destruct b
  | |- ts_preserves (match ?x with _ => _ end) => destruct x
  | |- ts_preserves (upd_node _ _) =>
      apply ts_preserves_upd_node; intros []; reflexivity
  | |- ts_preserves _ => solve [eauto with tsp]
  end.
Ltac tsp := repeat tsp_step.

Lemma ts_preserves_destroy h : ts_preserves (bus1_handle_destroy h).
Proof. unfold bus1_handle_destroy. tsp. Qed.
#[local] Hint Resolve ts_preserves_destroy : tsp.

Lemma ts_preserves_free h : ts_preserves (bus1_handle_free h).
Proof. unfold bus1_handle_free. tsp. Qed.
#[local] Hint Resolve ts_preserves_free : tsp.

Lemma ts_preserves_ref h : ts_preserves (bus1_handle_ref h).
Proof. unfold bus1_handle_ref. tsp. Qed.
#[local] Hint Resolve ts_preserves_ref : tsp.

Lemma ts_preserves_unref h : ts_preserves (bus1_handle_unref h).
Proof. unfold bus1_handle_unref. tsp. Qed.
#[local] Hint Resolve ts_preserves_unref : tsp.

Lemma ts_preserves_peer_acquire p : ts_preserves (bus1_peer_acquire p).
Proof. unfold bus1_peer_acquire. tsp. Qed.
#[local] Hint Resolve ts_preserves_peer_acquire : tsp.

Lemma ts_preserves_lock_holder h : ts_preserves (bus1_handle_lock_holder h).
Proof. unfold bus1_handle_lock_holder. tsp. Qed.
#[local] Hint Resolve ts_preserves_lock_holder : tsp.

Lemma ts_preserves_unlink_rb h p : ts_preserves (bus1_handle_unlink_rb h p).
Proof. unfold bus1_handle_unlink_rb. tsp. Qed.
#[local] Hint Resolve ts_preserves_unlink_rb : tsp.

Lemma ts_preserves_list_del_init h n : ts_preserves (list_del_init h n).
Proof. unfold list_del_init. tsp. Qed.
#[local] Hint Resolve ts_preserves_list_del_init : tsp.

Lemma ts_preserves_finalize_destruction l :
  ts_preserves (bus1_handle_finalize_destruction l).
Proof. induction l as [|h l IH]; simpl; tsp. Qed.
#[local] Hint Resolve ts_preserves_finalize_destruction : tsp.

Lemma ts_preserves_find_by_id p i : ts_preserves (bus1_handle_find_by_id p i).
Proof. unfold bus1_handle_find_by_id. tsp. Qed.
#[local] Hint Resolve ts_preserves_find_by_id : tsp.

Lemma upd_node_inv n f w u w' :
  upd_node n f w = Some (u, w') ->
  exists nr, nodes w !! n = Some nr /\
    w' = mkWorld (handles w) (<[n := f nr]> (nodes w)) (peers w).
Proof.
  unfold upd_node. destruct (nodes w !! n) as [nr|]; [|done].
  intros [= _ <-]. eauto.
Qed.

(** Once the destruction of a node is committed, its timestamp is 2 for as
    long as the node exists. *)
Lemma commit_destruction_ts h p lst w lst' w' hr :
  handles w !! h = Some hr ->
  bus1_handle_commit_destruction h p lst w = Some (lst', w') ->
  forall nr', nodes w' !! node hr = Some nr' -> timestamp nr' = 2.
Proof.
  intros Hh H. unfold bus1_handle_commit_destruction in H.
  mstep H as hr0 H0. assert (hr0 = hr) as -> by congruence.
  mstep H as u1 H1. mstep H as u2 H2. mstep H as u3 H3.
  mstep H as nr4 H4. mstep H as u5 H5. mstep H as u6 H6.
  assert (ts_preserves
    (upd_handle h (set_holder None);;
     bus1_handle_unlink_rb h p;; mret (lst ++ list_handles nr4))) as Hrest
    by tsp.
  specialize (Hrest _ _ _ H).
  apply upd_node_inv in H6 as (nr6 & Hn6 & ->). intros nr' Hn'.
  destruct (Hrest _ _ Hn') as (nr & Hnr & ->). simpl in Hnr.
  rewrite lookup_insert_eq in Hnr. by injection Hnr as <-.
Qed.

(** X22.  Destruction is ordered before every later commit: when
    [bus1_handle_destroy_by_id] returns 0, the id named the owner handle of
    a node whose timestamp was 0, and afterwards the timestamp of that node
    is 2 for as long as the node exists, whatever handles were linked to
    it.  Hence [bus1_handle_get_inorder_id], for any handle of that node
    and any sequence number from 2 on, yields [BUS1_HANDLE_INVALID]
    whenever it returns. *)
Theorem destroy_by_id_invalidates p i w w' :
  bus1_handle_destroy_by_id p i w = Some (0, w') ->
  exists pr h hr nr,
    peers w !! p = Some pr /\
    tree_find i (map_handles_by_id pr) = Some h /\
    handles w !! h = Some hr /\ h = owner_of (node hr) /\
    nodes w !! node hr = Some nr /\ timestamp nr = 0 /\
    (forall nr', nodes w' !! node hr = Some nr' -> timestamp nr' = 2) /\
    (forall x xr seq v w'',
       handles w' !! x = Some xr -> node xr = node hr -> 2 <= seq ->
       bus1_handle_get_inorder_id x seq w' = Some (v, w'') ->
       v = BUS1_HANDLE_INVALID).
Proof.
  intros H. unfold bus1_handle_destroy_by_id in H.
  apply bind_inv in H as (r & w1 & Hfind & H).
  pose proof (ts_preserves_find_by_id _ _ _ _ _ Hfind) as Hts1.
  unfold bus1_handle_find_by_id in Hfind.
  mstep Hfind as pr Hp.
  destruct (tree_find i (map_handles_by_id pr)) as [h|] eqn:Ht.
  2:{ apply ret_inv in Hfind as [-> ->]. apply ret_inv in H as [H _].
      unfold ENXIO in H. lia. }
  mstep Hfind as hr Hh.
  destruct (ref hr =? 0).
  { apply ret_inv in Hfind as [-> ->]. apply ret_inv in H as [H _].
    unfold ENXIO in H. lia. }
  apply bind_inv in Hfind as ([] & w1' & Href & Hret).
  apply ret_inv in Hret as [-> ->].
  unfold bus1_handle_ref in Href.
  apply upd_handle_inv in Href as (hr0 & Hh0 & ->).
  assert (hr0 = hr) as -> by congruence.
  mstep H as hr1 Hh1. simpl in Hh1. rewrite lookup_insert_eq in Hh1.
  injection Hh1 as <-.
  change (node (set_ref (int32 (ref hr + 1)) hr)) with (node hr) in H.
  change (bus1_handle_is_owner h (set_ref (int32 (ref hr + 1)) hr))
    with (bus1_handle_is_owner h hr) in H.
  apply bind_inv in H as (res & w2 & Hmid & H).
  destruct (bus1_handle_is_owner h hr) eqn:Ho; simpl in Hmid.
  2:{ apply ret_inv in Hmid as [-> ->].
      apply bind_inv in H as ([] & w3 & _ & H). apply ret_inv in H as [H _].
      unfold EPERM in H. lia. }
  mstep Hmid as nr Hn. simpl in Hn.
  destruct (Z.eqb_spec (timestamp nr) 0) as [Hz|Hnz]; simpl in Hmid.
  2:{ apply ret_inv in Hmid as [-> ->].
      apply bind_inv in H as ([] & w3 & _ & H). apply ret_inv in H as [H _].
      unfold EINPROGRESS in H. lia. }
  apply bind_inv in Hmid as (lst & w2' & Hcommit & Hret).
  apply ret_inv in Hret as [-> ->].
  assert (forall nr', nodes w2' !! node hr = Some nr' -> timestamp nr' = 2)
    as Hts2.
  { eapply (commit_destruction_ts h p [] _ lst w2'
              (set_ref (int32 (ref hr + 1)) hr)); [|exact Hcommit].
    simpl. apply lookup_insert_eq. }
  assert (ts_preserves
    (bus1_handle_finalize_destruction lst;; bus1_handle_unref h;; mret 0))
    as Hrest by tsp.
  specialize (Hrest _ _ _ H).
  assert (forall nr', nodes w' !! node hr = Some nr' -> timestamp nr' = 2)
    as Hfinal.
  { intros nr' Hn'. destruct (Hrest _ _ Hn') as (nr2 & Hn2 & ->).
    by apply Hts2. }
  exists pr, h, hr, nr. unfold bus1_handle_is_owner in Ho.
  apply bool_decide_eq_true in Ho.
  split; [done|]. split; [done|]. split; [done|]. split; [done|].
  split; [done|]. split; [done|]. split; [done|].
  intros x xr seq v w'' Hx Hnode Hseq Hget.
  unfold bus1_handle_get_inorder_id in Hget.
  mstep Hget as xr0 Hx0. assert (xr0 = xr) as -> by congruence.
  mstep Hget as nr' Hn'. apply ret_inv in Hget as [-> ->].
  rewrite Hnode in Hn'. rewrite (Hfinal _ Hn').
  unfold destroyed_before. simpl.
  destruct (Z.leb_spec 2 seq) as [_|?]; [done|lia].
Qed.

(** Dropping an object reference that is not the last one. *)
Lemma unref_eq h hr hs ns ps :
  hs !! h = Some hr -> int32 (ref hr - 1) <> 0 ->
  bus1_handle_unref h (mkWorld hs ns ps)
  = Some (tt, mkWorld (<[h := set_ref (int32 (ref hr - 1)) hr]> hs) ns ps).
Proof.
  intros Hh Hr. unfold bus1_handle_unref. mrun. cbv zeta. mrun.
  by rewrite (proj2 (Z.eqb_neq _ _) Hr).
Qed.

Lemma find_by_id_none p i pr hs ns ps :
  ps !! p = Some pr -> tree_find i (map_handles_by_id pr) = None ->
  bus1_handle_find_by_id p i (mkWorld hs ns ps)
  = Some (None, mkWorld hs ns ps).
Proof. intros Hp Ht. unfold bus1_handle_find_by_id. mrun. by rewrite Ht. Qed.

Lemma find_by_id_some p i pr h hr hs ns ps :
  ps !! p = Some pr -> tree_find i (map_handles_by_id pr) = Some h ->
  hs !! h = Some hr -> ref hr <> 0 ->
  bus1_handle_find_by_id p i (mkWorld hs ns ps)
  = Some (Some h,
          mkWorld (<[h := set_ref (int32 (ref hr + 1)) hr]> hs) ns ps).
Proof.
  intros Hp Ht Hh Hr. unfold bus1_handle_find_by_id. mrun. rewrite Ht. mrun.
  rewrite (proj2 (Z.eqb_neq _ _) Hr). unfold bus1_handle_ref. mrun.
  reflexivity.
Qed.

(** X23.  A destroy that is refused changes nothing.
    [bus1_handle_destroy_by_id] returns [-ENXIO] when the id is not in the
    peer's by-id tree, which the descent then misses on a tree of any
    shape.  When the tree is ordered by id and holds a live handle under
    the id, the descent finds that handle, and the call returns [-EPERM]
    when the handle is not the owner of its node and [-EINPROGRESS] when
    the destruction of the node has already begun.  In all three cases the
    state is what it was before the call. *)
Theorem destroy_by_id_refused p i w pr :
  peers w !! p = Some pr ->
  (tree_find i (map_handles_by_id pr) = None ->
   (forall t, id_inorder t = map_handles_by_id pr -> id_descend i t = None) /\
   bus1_handle_destroy_by_id p i w = Some (- ENXIO, w)) /\
  (forall h hr,
     by_id_sorted (map_handles_by_id pr) ->
     tree_find i (map_handles_by_id pr) = Some h ->
     handles w !! h = Some hr -> 1 <= ref hr < 2 ^ 31 - 1 ->
     (forall t, id_inorder t = map_handles_by_id pr ->
                id_descend i t = Some h) /\
     (h <> owner_of (node hr) ->
      bus1_handle_destroy_by_id p i w = Some (- EPERM, w)) /\
     (forall nr, h = owner_of (node hr) ->
        nodes w !! node hr = Some nr -> timestamp nr <> 0 ->
        bus1_handle_destroy_by_id p i w = Some (- EINPROGRESS, w))).
Proof.
  intros Hp. destruct w as [hs ns ps]. cbn [handles nodes peers] in *.
  split.
  - intros Ht. split; [intros t Hi; apply descend_absent; by rewrite Hi|].
    unfold bus1_handle_destroy_by_id.
    erewrite bind_eq by by eapply find_by_id_none. reflexivity.
  - intros h hr Hsorted Ht Hh Hr.
    split; [intros t Hi; by eapply descend_finds|].
    assert (forall e : Z,
      (bus1_handle_unref h;; (mret e : M Z))
        (mkWorld (<[h := set_ref (int32 (ref hr + 1)) hr]> hs) ns ps)
      = Some (e, mkWorld hs ns ps)) as Hback.
    { intros e. erewrite bind_eq.
      2:{ apply unref_eq; [apply lookup_insert_eq|].
          cbn [ref set_ref]. rewrite (int32_id (ref hr + 1)) by lia.
          replace (ref hr + 1 - 1) with (ref hr) by lia.
          rewrite int32_id; lia. }
      cbn [ref set_ref]. rewrite (int32_id (ref hr + 1)) by lia.
      replace (ref hr + 1 - 1) with (ref hr) by lia.
      rewrite int32_id by lia.
      rewrite insert_insert_eq, set_ref_back, insert_id by done.
      reflexivity. }
    split.
    + intros Hno. unfold bus1_handle_destroy_by_id.
      erewrite bind_eq by (eapply find_by_id_some; [done..|lia]).
      cbv iota. mrun. unfold bus1_handle_is_owner. cbn [node set_ref].
      rewrite bool_decide_eq_false_2 by done. cbn [negb]. mrun.
      apply Hback.
    + intros nr Ho Hn Hts. unfold bus1_handle_destroy_by_id.
      erewrite bind_eq by (eapply find_by_id_some; [done..|lia]).
      cbv iota. mrun. unfold bus1_handle_is_owner. cbn [node set_ref].
      rewrite bool_decide_eq_true_2 by done. cbn [negb]. mrun.
      rewrite (proj2 (Z.eqb_neq _ _) Hts). cbn [negb]. mrun.
      apply Hback.
Qed.

Lemma tree_find_erased (i : Z) h (t : list (Z * ptr)) :
  Forall (fun kv : Z * ptr => kv.1 = i -> kv.2 = h) t ->
  tree_find i (tree_erase h t) = None.
Proof.
  unfold tree_erase. induction 1 as [|[k x] t Hk Ht IH]; [done|].
  rewrite filter_cons. case_decide as Hx; [|done]. simpl in *.
  rewrite decide_False; [done|]. intros ->. by apply Hx, Hk.
Qed.

Lemma filter_all_same (h : ptr) (l : list ptr) :
  Forall (fun x => x = h) l -> filter (fun x => x <> h) l = [].
Proof.
  induction 1 as [|x l Hx Hl IH]; [done|].
  by rewrite filter_cons_False by (intros Hne; done).
Qed.

(** X24.  Destroying a node that nothing but its owner handle refers to
    frees it.  The by-id tree of the peer is ordered by id and holds the
    owner handle under the id, so that the descent finds it; the handle
    holds the references of the node's list and of the peer's tree only and
    is the only handle linked to the node.  Then
    [bus1_handle_destroy_by_id] returns 0, takes the handle out of both
    trees of the peer and frees the node together with its owner handle.
    The id is gone afterwards: destroying or releasing it again returns
    [-ENXIO] and changes nothing. *)
Theorem destroy_by_id_frees_lone_node p i w pr h hr nr :
  peers w !! p = Some pr ->
  by_id_sorted (map_handles_by_id pr) ->
  tree_find i (map_handles_by_id pr) = Some h ->
  handles w !! h = Some hr -> h = owner_of (node hr) ->
  rb_linked hr = true -> ref hr = 2 ->
  nodes w !! node hr = Some nr -> timestamp nr = 0 -> node_ref nr = 1 ->
  Forall (fun x => x = h) (list_handles nr) ->
  let w' :=
    mkWorld (delete h (handles w)) (delete (node hr) (nodes w))
            (<[p := mkPeer (active pr)
                      (tree_erase h (map_handles_by_id pr))
                      (tree_erase h (map_handles_by_node pr))
                      (handle_ids pr)]> (peers w)) in
  (forall t, id_inorder t = map_handles_by_id pr -> id_descend i t = Some h) /\
  bus1_handle_destroy_by_id p i w = Some (0, w') /\
  bus1_handle_destroy_by_id p i w' = Some (- ENXIO, w') /\
  bus1_handle_release_by_id p i w' = Some (- ENXIO, w').
Proof.
  intros Hp Hsorted Ht Hh Ho Hlinked Href Hn Hts Hnref Hlist.
  pose proof (by_id_sorted_unique _ _ _ Hsorted Ht) as Huniq.
  destruct w as [hs ns ps]. cbn [handles nodes peers] in *.
  split; [intros t Hi; by eapply descend_finds|].
  assert (forall w0 : world,
    bus1_handle_find_by_id p i w0 = Some (None, w0) ->
    bus1_handle_destroy_by_id p i w0 = Some (- ENXIO, w0) /\
    bus1_handle_release_by_id p i w0 = Some (- ENXIO, w0)) as Hgone.
  { intros w0 Hf. split.
    - unfold bus1_handle_destroy_by_id. by erewrite bind_eq by exact Hf.
    - unfold bus1_handle_release_by_id. by erewrite bind_eq by exact Hf. }
  split.
  2:{ apply Hgone. eapply find_by_id_none; [apply lookup_insert_eq|].
      cbn [map_handles_by_id]. by apply tree_find_erased. }
  unfold bus1_handle_destroy_by_id.
  erewrite bind_eq by (eapply find_by_id_some; [done..|lia]).
  cbv iota. mrun. unfold bus1_handle_is_owner. cbn [node set_ref].
  rewrite bool_decide_eq_true_2 by done. cbn [negb]. mrun.
  rewrite Hts. cbn [Z.eqb negb].
  unfold bus1_handle_commit_destruction. mrun. cbn [node set_ref].
  mrun. unfold list_del_init. mrun.
  cbn [list_handles set_timestamp]. rewrite filter_all_same by done.
  erewrite (bind_eq (bus1_handle_unref h)).
  2:{ apply unref_eq; [look|]. cbn [ref set_ref]. rewrite Href. done. }
  mrun. cbn [ref set_ref]. rewrite Href.
  change (int32 (int32 (2 + 1) - 1)) with 2.
  unfold bus1_handle_unlink_rb. mrun.
  cbn [rb_linked set_holder set_ref]. rewrite Hlinked.
  mrun.
  erewrite (bind_eq (bus1_handle_unref h)).
  2:{ apply unref_eq; [look|]. done. }
  mrun. rewrite !insert_insert_eq.
  cbn [app list_handles set_list_handles set_timestamp
       bus1_handle_finalize_destruction]. mrun.
  (* the reference of the lookup is the last one *)
  unfold bus1_handle_unref. mrun. cbv zeta. cbn [ref set_ref set_holder].
  change (int32 (int32 (2 - 1) - 1)) with 0. mrun.
  change (0 =? 0) with true. cbv iota.
  unfold bus1_handle_free. mrun.
  unfold bus1_handle_is_owner. cbn [node set_ref set_holder].
  rewrite bool_decide_eq_true_2 by done.
  unfold bus1_handle_destroy. mrun. cbn [node set_ref set_holder]. mrun.
  cbv zeta. cbn [node_ref set_timestamp set_list_handles]. rewrite Hnref.
  change (int32 (1 - 1)) with 0. mrun.
  change (0 =? 0) with true. cbv iota. mrun.
  unfold mret, M_ret. rewrite <- Ho.
  rewrite !insert_insert_eq, !delete_insert_eq. reflexivity.
Qed.

(** *** Flushing the trees of a peer *)

Lemma set_rb_linked_twice b hr :
  set_rb_linked b (set_rb_linked b hr) = set_rb_linked b hr.
Proof. by destruct hr. Qed.

Lemma clear_rb_nodes_run l hs ns ps :
  Forall (fun h => is_Some (hs !! h)) l ->
  exists hs',
    clear_rb_nodes l (mkWorld hs ns ps) = Some (tt, mkWorld hs' ns ps) /\
    forall h, hs' !! h = if decide (h ∈ l)
                         then set_rb_linked false <$> hs !! h
                         else hs !! h.
Proof.
  revert hs. induction l as [|x l IH]; intros hs Hall.
  - exists hs. split; [done|]. intros h. rewrite decide_False; [done|].
    apply not_elem_of_nil.
  - apply Forall_cons in Hall as [[xr Hx] Hall]. simpl.
    destruct (IH (<[x := set_rb_linked false xr]> hs)) as (hs' & Hrun & Hhs').
    { eapply Forall_impl; [exact Hall|]. intros y [yr Hy]. simpl.
      destruct (decide (y = x)) as [->|Hne].
      - rewrite lookup_insert_eq. eauto.
      - rewrite lookup_insert_ne by done. eauto. }
    exists hs'. split.
    + erewrite bind_eq by by apply upd_handle_eq. exact Hrun.
    + intros h. rewrite Hhs'. destruct (decide (h = x)) as [->|Hne].
      * rewrite lookup_insert_eq, Hx.
        destruct (decide (x ∈ x :: l)) as [_|Hn];
          [|exfalso; apply Hn, elem_of_cons; by left].
        simpl. rewrite set_rb_linked_twice. by destruct (decide (x ∈ l)).
      * rewrite lookup_insert_ne by done.
        destruct (decide (h ∈ l)) as [Hin|Hnin].
        -- rewrite decide_True; [done|]. by right.
        -- rewrite decide_False; [done|]. intros Hc.
           apply elem_of_cons in Hc as [?|?]; done.
Qed.

(** X25.  [bus1_handle_flush_all] disconnects a peer from all its handles
    at once: it returns when every handle of the by-id tree is allocated,
    hands that tree to the caller, leaves both trees of the peer empty and
    marks the handles of the tree as unlinked, touching no counter, no node
    and no other peer.  From then on every id of the peer is unknown:
    lookup finds nothing, and releasing or destroying by id returns
    [-ENXIO] without any effect. *)
Theorem flush_all_disconnects p w pr :
  peers w !! p = Some pr ->
  Forall (fun kv : Z * ptr => is_Some (handles w !! kv.2))
         (map_handles_by_id pr) ->
  exists w',
    bus1_handle_flush_all p w = Some (map_handles_by_id pr, w') /\
    nodes w' = nodes w /\
    peers w' = <[p := mkPeer (active pr) [] [] (handle_ids pr)]> (peers w) /\
    (forall h, handles w' !! h =
               if decide (h ∈ (snd <$> map_handles_by_id pr))
               then set_rb_linked false <$> handles w !! h
               else handles w !! h) /\
    (forall i, bus1_handle_find_by_id p i w' = Some (None, w')) /\
    (forall i, bus1_handle_release_by_id p i w' = Some (- ENXIO, w')) /\
    (forall i, bus1_handle_destroy_by_id p i w' = Some (- ENXIO, w')).
Proof.
  intros Hp Hall. destruct w as [hs ns ps]. cbn [handles nodes peers] in *.
  destruct (clear_rb_nodes_run (snd <$> map_handles_by_id pr) hs ns
              (<[p := mkPeer (active pr) [] [] (handle_ids pr)]> ps))
    as (hs' & Hrun & Hhs').
  { apply Forall_fmap. eapply Forall_impl; [exact Hall|]. done. }
  exists (mkWorld hs' ns (<[p := mkPeer (active pr) [] [] (handle_ids pr)]> ps)).
  assert (forall i, bus1_handle_find_by_id p i
            (mkWorld hs' ns
               (<[p := mkPeer (active pr) [] [] (handle_ids pr)]> ps))
          = Some (None, mkWorld hs' ns
               (<[p := mkPeer (active pr) [] [] (handle_ids pr)]> ps)))
    as Hfind.
  { intros i. eapply find_by_id_none; [apply lookup_insert_eq|done]. }
  split; [|split; [done|split; [done|split; [exact Hhs'|split; [exact Hfind|split]]]]].
  - unfold bus1_handle_flush_all. mrun.
    erewrite bind_eq by exact Hrun. reflexivity.
  - intros i. unfold bus1_handle_release_by_id.
    by erewrite bind_eq by apply Hfind.
  - intros i. unfold bus1_handle_destroy_by_id.
    by erewrite bind_eq by apply Hfind.
Qed.

(** *** The last reference *)

Lemma tree_erase_none {K} (h : ptr) (t : list (K * ptr)) :
  Forall (fun kv : K * ptr => kv.2 <> h) t -> tree_erase h t = t.
Proof.
  unfold tree_erase. induction 1 as [|kv t Hk Ht IH]; [done|].
  rewrite filter_cons_True by done. by rewrite IH.
Qed.

Lemma tree_erase_app_last {K} (h : ptr) (k : K) (t : list (K * ptr)) :
  Forall (fun kv : K * ptr => kv.2 <> h) t ->
  tree_erase h (t ++ [(k, h)]) = t.
Proof.
  intros Ht. unfold tree_erase. rewrite filter_app.
  rewrite filter_cons_False by (simpl; intros Hne; done).
  rewrite filter_nil, app_nil_r. by apply tree_erase_none.
Qed.

Lemma tree_erase_node_insert n h (t : list (ptr * ptr)) :
  Forall (fun kv : ptr * ptr => kv.2 <> h) t ->
  tree_erase h (node_insert n h t) = t.
Proof.
  unfold tree_erase. induction 1 as [|[n' h'] t Hk Ht IH]; simpl.
  - by rewrite filter_cons_False by (simpl; intros Hne; done).
  - destruct (n <? n')%positive.
    + rewrite filter_cons_False by (simpl; intros Hne; done).
      rewrite filter_cons_True by done. f_equal.
      by apply (tree_erase_none h t).
    + rewrite filter_cons_True by done. by rewrite IH.
Qed.

Lemma tree_find_absent n (t : list (ptr * ptr)) :
  Forall (fun kv : ptr * ptr => kv.1 <> n) t -> tree_find n t = None.
Proof.
  induction 1 as [|[n' h'] t Hk Ht IH]; simpl; [done|].
  by rewrite decide_False by (simpl in Hk; congruence).
Qed.

(** Normal forms of the records that the computations build from
    constructors. *)
Ltac hnorm :=
  cbv beta iota zeta delta
    [set_rb_linked set_id set_holder set_ref set_n_inflight set_n_user
     set_node_ref set_list_handles set_timestamp handle_private
     rb_linked node id holder ref n_inflight n_user
     node_ref list_handles timestamp
     bus1_handle_is_public bus1_handle_is_owner].

Ltac int32_eval :=
  repeat match goal with
         | |- context [int32 ?x] =>
             let v := eval vm_compute in (int32 x) in
             progress change (int32 x) with v
         end.

(** Attaching the owner handle of a new node. *)
Lemma attach_new_owner n p hs ns ps :
  hs !! owner_of n = Some (handle_private n) ->
  ns !! n = Some (mkNode 1 [] 0) ->
  bus1_handle_attach_unlocked (owner_of n) p (mkWorld hs ns ps)
  = Some (true,
          mkWorld (<[owner_of n := mkHandle false n BUS1_HANDLE_INVALID
                                            (Some p) 2 1 0]> hs)
                  (<[n := mkNode 1 [owner_of n] 0]> ns) ps).
Proof.
  intros Hh Hn. unfold bus1_handle_attach_unlocked. mrun. hnorm.
  rewrite bool_decide_eq_false_2 by (intros [? ?]; done).
  change (0 <=? -1) with false. cbn [orb]. mrun. hnorm.
  rewrite !bool_decide_eq_true_2 by done. cbn [negb andb]. mrun.
  unfold bus1_handle_ref. mrun. hnorm. int32_eval.
  rewrite !insert_insert_eq. reflexivity.
Qed.

(** Releasing the only inflight reference of an installed owner handle
    whose node has no other handle: the node is destroyed. *)
Lemma release_lone_owner n p pr i hs ns ps :
  hs !! owner_of n = Some (mkHandle true n i (Some p) 3 1 0) ->
  ns !! n = Some (mkNode 1 [owner_of n] 0) ->
  ps !! p = Some pr -> active pr = true ->
  bus1_handle_release (owner_of n) (mkWorld hs ns ps)
  = Some (tt,
          mkWorld (<[owner_of n := mkHandle true n i None 1 0 0]> hs)
                  (<[n := mkNode 1 [] 2]> ns)
                  (<[p := mkPeer (active pr)
                            (tree_erase (owner_of n) (map_handles_by_id pr))
                            (tree_erase (owner_of n) (map_handles_by_node pr))
                            (handle_ids pr)]> ps)).
Proof.
  intros Hh Hn Hp Hact. unfold bus1_handle_release. mrun. hnorm.
  change (0 <=? 1) with true. change (1 =? 1) with true. cbn [negb].
  unfold bus1_peer_acquire. mrun. rewrite Hact.
  unfold bus1_handle_release_last. mrun. hnorm.
  rewrite bool_decide_eq_true_2 by done.
  unfold bus1_handle_release_owner. mrun. hnorm. int32_eval. mrun.
  change (0 =? 0) with true. cbn [negb]. mrun. hnorm.
  change (0 =? 0) with true. cbv iota.
  unfold list_del_init. mrun. hnorm.
  rewrite filter_cons_False by (intros Hne; done). rewrite filter_nil.
  mrun. hnorm.
  unfold bus1_handle_commit_destruction, list_del_init. mrun. hnorm. mrun.
  hnorm. rewrite filter_nil.
  erewrite (bind_eq (bus1_handle_unref _)).
  2:{ apply unref_eq; [look|]. done. }
  mrun. hnorm. int32_eval. unfold bus1_handle_unlink_rb. mrun. hnorm. mrun.
  erewrite (bind_eq (bus1_handle_unref _)).
  2:{ apply unref_eq; [look|]. done. }
  mrun. hnorm. int32_eval.
  cbn [app bus1_handle_finalize_destruction]. rewrite !insert_insert_eq.
  rewrite Hact. reflexivity.
Qed.

(** Dropping the last reference of the owner handle of a destroyed node
    that nothing else refers to. *)
Lemma unref_lone_owner n i o ts l hs ns ps :
  hs !! owner_of n = Some (mkHandle true n i o 1 0 0) ->
  ns !! n = Some (mkNode 1 l ts) ->
  bus1_handle_unref (owner_of n) (mkWorld hs ns ps)
  = Some (tt, mkWorld (delete (owner_of n) hs) (delete n ns) ps).
Proof.
  intros Hh Hn. unfold bus1_handle_unref. mrun. hnorm. int32_eval. mrun.
  change (0 =? 0) with true. cbv iota.
  unfold bus1_handle_free. mrun. hnorm.
  rewrite bool_decide_eq_true_2 by done.
  unfold bus1_handle_destroy. mrun. hnorm. mrun. hnorm. int32_eval. mrun.
  change (0 =? 0) with true. cbv iota. mrun.
  unfold mret, M_ret. rewrite !delete_insert_eq. reflexivity.
Qed.

(** X26.  The whole life of a node leaves nothing behind.  A node created
    by [bus1_handle_new], whose owner handle is attached for a peer,
    installed in it, released again and finally unreferenced, is destroyed
    and freed together with its owner handle; the peer's trees are what
    they were.  The only trace is the peer's id counter, which has
    advanced by one. *)
Theorem node_life_cycle flag n p pr w :
  nodes w !! n = None -> handles w !! owner_of n = None ->
  peers w !! p = Some pr -> active pr = true ->
  Forall (fun kv : Z * ptr => kv.2 <> owner_of n) (map_handles_by_id pr) ->
  Forall (fun kv : ptr * ptr => kv.1 <> n /\ kv.2 <> owner_of n)
         (map_handles_by_node pr) ->
  exists w1 w2 w3 w4 hr3,
    bus1_handle_new (Some n) w = Some (Some (owner_of n), w1) /\
    bus1_handle_attach_unlocked (owner_of n) p w1 = Some (true, w2) /\
    bus1_handle_install_unlocked flag (owner_of n) w2
      = Some (Some (owner_of n), w3) /\
    handles w3 !! owner_of n = Some hr3 /\
    ref hr3 = 3 /\ n_inflight hr3 = 1 /\ n_user hr3 = 0 /\
    holder hr3 = Some p /\
    bus1_handle_release (owner_of n) w3 = Some (tt, w4) /\
    bus1_handle_unref (owner_of n) w4
      = Some (tt, mkWorld (handles w) (nodes w)
                    (<[p := mkPeer (active pr) (map_handles_by_id pr)
                              (map_handles_by_node pr)
                              (u64 (handle_ids pr + 1))]> (peers w))).
Proof.
  intros Hn Ho Hp Hact Hids Hnodes.
  destruct w as [hs ns ps]. cbn [handles nodes peers] in *.
  destruct (allocation_new_run n hs ns ps Hn Ho) as [Hnew _].
  eexists. eexists. eexists. eexists. eexists.
  split; [exact Hnew|].
  split; [apply attach_new_owner; apply lookup_insert_eq|].
  split.
  { eapply install_run; [apply lookup_insert_eq|exact Hp|done|done|done|].
    apply tree_find_absent. eapply Forall_impl; [exact Hnodes|].
    by intros kv [? ?]. }
  cbn [handles nodes peers]. rewrite lookup_insert_eq.
  split; [reflexivity|]. hnorm. int32_eval.
  split; [reflexivity|]. split; [reflexivity|]. split; [reflexivity|].
  split; [reflexivity|].
  split.
  { eapply release_lone_owner;
      [apply lookup_insert_eq|apply lookup_insert_eq|apply lookup_insert_eq|].
    exact Hact. }
  erewrite unref_lone_owner by apply lookup_insert_eq.
  cbn [active map_handles_by_id map_handles_by_node handle_ids].
  rewrite !insert_insert_eq, !delete_insert_eq, !delete_id by done.
  rewrite tree_erase_app_last by done.
  rewrite tree_erase_node_insert
    by (eapply Forall_impl; [exact Hnodes|]; by intros kv [? ?]).
  reflexivity.
Qed.

(** X27.  User references are counted.  The by-id tree of the peer is
    ordered by id and holds a live handle under the id, so that the descent
    finds it.  [bus1_handle_release_by_id] on a handle with more than one
    user reference returns 0 and takes one user reference off, nothing
    else; on a handle with exactly one user reference and more than one
    inflight reference it returns 0, sets the user count to 0 and gives
    back the one inflight reference that the user references stood for. *)
Theorem release_by_id_counts p i w pr h hr :
  peers w !! p = Some pr ->
  by_id_sorted (map_handles_by_id pr) ->
  tree_find i (map_handles_by_id pr) = Some h ->
  handles w !! h = Some hr -> 1 <= ref hr < 2 ^ 31 - 1 ->
  (forall t, id_inorder t = map_handles_by_id pr -> id_descend i t = Some h) /\
  (1 < n_user hr < 2 ^ 31 ->
   bus1_handle_release_by_id p i w
   = Some (0, mkWorld (<[h := set_n_user (n_user hr - 1) hr]> (handles w))
                      (nodes w) (peers w))) /\
  (n_user hr = 1 -> 1 < n_inflight hr < 2 ^ 31 ->
   bus1_handle_release_by_id p i w
   = Some (0, mkWorld (<[h := set_n_inflight (n_inflight hr - 1)
                                (set_n_user 0 hr)]> (handles w))
                      (nodes w) (peers w))).
Proof.
  intros Hp Hsorted Ht Hh Hr.
  destruct w as [hs ns ps]. cbn [handles nodes peers] in *.
  assert (Href : int32 (int32 (ref hr + 1) - 1) = ref hr).
  { rewrite (int32_id (ref hr + 1)) by lia.
    replace (ref hr + 1 - 1) with (ref hr) by lia. rewrite int32_id; lia. }
  split; [intros t Hi; by eapply descend_finds|].
  split.
  - intros Hu. unfold bus1_handle_release_by_id.
    erewrite bind_eq by (eapply find_by_id_some; [done..|lia]).
    cbv iota. mrun. cbn [n_user set_ref].
    rewrite (int32_id (n_user hr - 1)) by lia.
    rewrite (proj2 (Z.leb_le _ _)) by lia. mrun.
    rewrite (proj2 (Z.ltb_ge _ _)) by lia.
    rewrite (proj2 (Z.ltb_lt _ _)) by lia. mrun.
    erewrite bind_eq.
    2:{ apply unref_eq; [look|]. cbn [ref set_ref set_n_user].
        rewrite Href. lia. }
    cbn [ref set_ref set_n_user]. rewrite Href, !insert_insert_eq.
    destruct hr; reflexivity.
  - intros Hu Hi. unfold bus1_handle_release_by_id.
    erewrite bind_eq by (eapply find_by_id_some; [done..|lia]).
    cbv iota. mrun. cbn [n_user set_ref]. rewrite Hu.
    change (int32 (1 - 1)) with 0. change (0 <=? 0) with true.
    change (0 <? 0) with false. cbv iota. mrun.
    unfold bus1_handle_release_pinned. mrun.
    unfold bus1_handle_is_public. cbn [n_inflight set_ref set_n_user].
    rewrite (proj2 (Z.leb_le _ _)) by lia. cbn [negb].
    rewrite (proj2 (Z.eqb_neq _ _)) by lia. cbn [negb]. mrun.
    erewrite bind_eq.
    2:{ apply unref_eq; [look|].
        cbn [ref set_ref set_n_user set_n_inflight]. rewrite Href. lia. }
    cbn [ref set_ref set_n_user set_n_inflight n_inflight].
    rewrite Href, !insert_insert_eq, (int32_id (n_inflight hr - 1)) by lia.
    destruct hr; reflexivity.
Qed.

(** X28.  Nothing attaches to a node without an owner.  When the owner
    handle of the node has no holder (the node is destroyed, or its owner
    was never attached), [bus1_handle_attach] of another handle of the node
    returns false and [bus1_handle_pin] returns NULL, and so does
    [bus1_handle_attach_unlocked] for a private handle; none of them
    changes anything. *)
Theorem attach_needs_owner h hr or_ p w :
  handles w !! h = Some hr -> h <> owner_of (node hr) ->
  handles w !! owner_of (node hr) = Some or_ -> holder or_ = None ->
  bus1_handle_attach h p w = Some (false, w) /\
  bus1_handle_pin h w = Some (None, w) /\
  (holder hr = None -> bus1_handle_is_public hr = false ->
   bus1_handle_attach_unlocked h p w = Some (false, w)).
Proof.
  intros Hh Hno Ho Hnone. destruct w as [hs ns ps].
  cbn [handles nodes peers] in *. repeat split.
  - unfold bus1_handle_attach. mrun. unfold bus1_handle_is_owner.
    rewrite bool_decide_eq_false_2 by done. mrun. rewrite Hnone.
    unfold bus1_peer_acquire. mrun. reflexivity.
  - unfold bus1_handle_pin. mrun. rewrite Hnone.
    unfold bus1_peer_acquire. mrun. reflexivity.
  - intros Hhold Hpriv. unfold bus1_handle_attach_unlocked. mrun.
    rewrite Hhold, Hpriv.
    rewrite bool_decide_eq_false_2 by (intros [? ?]; done).
    cbn [orb]. mrun. unfold bus1_handle_is_owner.
    rewrite bool_decide_eq_true_2 by done.
    rewrite bool_decide_eq_false_2 by done. reflexivity.
Qed.

(** X29.  Attaching makes a handle public.  [bus1_handle_attach] of a
    private handle to a node whose owner is held by an active peer returns
    true: the handle gets its holder and one inflight reference, is linked
    at the tail of the node's list, and the list holds an object reference
    on it.  From then on [bus1_handle_pin] succeeds: it returns the owning
    peer and takes a second inflight reference. *)
Theorem attach_then_pin h hr or_ p q qr nr w :
  handles w !! h = Some hr -> h <> owner_of (node hr) ->
  holder hr = None -> bus1_handle_is_public hr = false ->
  0 <= ref hr < 2 ^ 31 - 1 ->
  handles w !! owner_of (node hr) = Some or_ -> holder or_ = Some q ->
  peers w !! q = Some qr -> active qr = true ->
  nodes w !! node hr = Some nr ->
  let hr1 := set_ref (ref hr + 1) (set_holder (Some p) (set_n_inflight 1 hr))
  in
  let w1 := mkWorld (<[h := hr1]> (handles w))
                    (<[node hr := set_list_handles (list_handles nr ++ [h])
                                                   nr]> (nodes w))
                    (peers w) in
  bus1_handle_attach h p w = Some (true, w1) /\
  bus1_handle_pin h w1
  = Some (Some q, mkWorld (<[h := set_n_inflight 2 hr1]> (handles w1))
                          (nodes w1) (peers w1)).
Proof.
  intros Hh Hno Hhold Hpriv Hr Ho Hq Hp Hact Hn hr1 w1. subst hr1 w1.
  destruct w as [hs ns ps]. cbn [handles nodes peers] in *. split.
  - unfold bus1_handle_attach. mrun. unfold bus1_handle_is_owner.
    rewrite bool_decide_eq_false_2 by done. mrun. rewrite Hq.
    unfold bus1_peer_acquire. mrun. rewrite Hact. cbv iota.
    unfold bus1_handle_attach_unlocked. mrun. rewrite Hhold, Hpriv.
    rewrite bool_decide_eq_false_2 by (intros [? ?]; done).
    cbn [orb]. mrun. rewrite Hq.
    rewrite bool_decide_eq_false_2 by done. cbn [andb]. mrun.
    unfold bus1_handle_ref. mrun.
    cbn [ref set_holder set_n_inflight]. rewrite int32_id by lia.
    rewrite !insert_insert_eq. reflexivity.
  - unfold bus1_handle_pin. mrun.
    cbn [node set_ref set_holder set_n_inflight]. mrun. rewrite Hq.
    unfold bus1_peer_acquire. mrun. rewrite Hact. cbv iota.
    unfold bus1_handle_acquire. mrun. unfold bus1_handle_is_public.
    cbn [n_inflight set_ref set_holder set_n_inflight].
    change (0 <=? 1) with true. change (1 =? 0) with false. cbn [negb].
    mrun. change (int32 (1 + 1)) with 2. reflexivity.
Qed.

(** *** Instances on the example worlds *)

Lemma reference_round_trips_witness :
  (exists w1, bus1_handle_ref owner_a (world_installed 0 0) = Some (tt, w1) /\
              bus1_handle_unref owner_a w1 = Some (tt, world_installed 0 0)) /\
  (exists w1, bus1_handle_acquire owner_a (world_installed 0 0)
              = Some (Some owner_a, w1) /\
              bus1_handle_release owner_a w1
              = Some (tt, world_installed 0 0)).
Proof.
  destruct (reference_round_trips owner_a (world_installed 0 0)
              (handle_installed 0)) as [H1 H2]; [reflexivity|].
  split; [apply H1|apply H2]; simpl; lia.
Defined.

Lemma allocation_round_trips_witness :
  (exists w1,
     bus1_handle_new (Some node_b) world_fresh
     = Some (Some (owner_of node_b), w1) /\
     bus1_handle_unref (owner_of node_b) w1 = Some (tt, world_fresh)) /\
  (exists w1,
     bus1_handle_new_copy (Some handle_b) owner_a world_fresh
     = Some (Some handle_b, w1) /\
     bus1_handle_unref handle_b w1 = Some (tt, world_fresh)).
Proof.
  destruct (allocation_round_trips world_fresh) as [H1 H2]. split.
  - eexists. apply (H1 node_b); reflexivity.
  - eexists.
    apply (H2 handle_b owner_a (handle_private node_a) (mkNode 1 [] 0));
      [reflexivity|reflexivity|reflexivity|simpl; lia|done].
Defined.

Lemma install_assigns_next_id_witness :
  exists w1 hr1 pr1,
    bus1_handle_install_unlocked 1 handle_b world_conflict
    = Some (Some handle_b, w1) /\
    handles w1 !! handle_b = Some hr1 /\ peers w1 !! peer_b = Some pr1 /\
    id hr1 = 5 /\ map_handles_by_id pr1 = [(5, handle_b)] /\
    handle_ids pr1 = 1.
Proof.
  destruct (install_assigns_next_id 1 handle_b (handle_attached node_a)
              peer_b (mkPeer true [] [] 0) world_conflict
              ltac:(lia) eq_refl eq_refl eq_refl eq_refl eq_refl eq_refl
              ltac:(simpl; lia) (Forall_nil_2 _))
    as (w1 & hr1 & pr1 & Hi & Hh & Hp & Hid & _ & _ & Ht & Hc & _).
  exists w1, hr1, pr1. rewrite Hid in Ht. by repeat split.
Defined.

Lemma install_then_lookup_witness :
  exists w1 w2,
    bus1_handle_install_unlocked 1 handle_b world_conflict
    = Some (Some handle_b, w1) /\
    bus1_handle_find_by_id peer_b 5 w1 = Some (Some handle_b, w2) /\
    bus1_handle_find_by_node peer_b handle_c w1 = Some (Some handle_b, w2).
Proof.
  destruct (install_then_lookup 1 handle_b (handle_attached node_a)
              peer_b (mkPeer true [] [] 0) world_conflict
              handle_c (handle_attached node_a)
              ltac:(lia) eq_refl eq_refl eq_refl eq_refl eq_refl eq_refl
              ltac:(simpl; lia) (Forall_nil_2 _) ltac:(simpl; lia)
              eq_refl eq_refl)
    as (w1 & hr1 & Hi & Hh & Hid & Hnode).
  assert (Hr : Some hr1 = Some (mkHandle true node_a 5 (Some peer_b) 3 1 0)).
  { rewrite <- Hh.
    assert (Hc : bus1_handle_install_unlocked 1 handle_b world_conflict
                 = Some (Some handle_b,
                     mkWorld (<[handle_b := mkHandle true node_a 5
                                             (Some peer_b) 3 1 0]>
                                (handles world_conflict))
                             (nodes world_conflict)
                             (<[peer_b := mkPeer true [(5, handle_b)]
                                           [(node_a, handle_b)] 1]>
                                (peers world_conflict))))
      by reflexivity.
    rewrite Hc in Hi. injection Hi as <-. reflexivity. }
  injection Hr as ->. eexists. eexists.
  split; [exact Hi|]. split; [exact Hid|exact Hnode].
Defined.

Lemma destroy_by_id_invalidates_witness :
  exists w',
    bus1_handle_destroy_by_id peer_a 5 (world_installed 0 0) = Some (0, w') /\
    exists pr h hr nr,
      peers (world_installed 0 0) !! peer_a = Some pr /\
      tree_find 5 (map_handles_by_id pr) = Some h /\
      handles (world_installed 0 0) !! h = Some hr /\
      h = owner_of (node hr) /\
      nodes (world_installed 0 0) !! node hr = Some nr /\
      timestamp nr = 0 /\
      (forall nr', nodes w' !! node hr = Some nr' -> timestamp nr' = 2) /\
      (forall x xr seq v w'',
         handles w' !! x = Some xr -> node xr = node hr -> 2 <= seq ->
         bus1_handle_get_inorder_id x seq w' = Some (v, w'') ->
         v = BUS1_HANDLE_INVALID).
Proof.
  exists (mkWorld {[ owner_a := mkHandle true node_a 5 None 1 1 0 ]}
                  {[ node_a := mkNode 1 [] 2 ]}
                  {[ peer_a := mkPeer true [] [] 1 ]}).
  assert (H : bus1_handle_destroy_by_id peer_a 5 (world_installed 0 0)
              = Some (0, mkWorld
                           {[ owner_a := mkHandle true node_a 5 None 1 1 0 ]}
                           {[ node_a := mkNode 1 [] 2 ]}
                           {[ peer_a := mkPeer true [] [] 1 ]}))
    by reflexivity.
  split; [exact H|]. exact (destroy_by_id_invalidates _ _ _ _ H).
Defined.

Lemma destroy_by_id_refused_witness :
  bus1_handle_destroy_by_id peer_a 7 (world_installed 0 2)
  = Some (- ENXIO, world_installed 0 2) /\
  bus1_handle_destroy_by_id peer_a 5 (world_installed 0 2)
  = Some (- EINPROGRESS, world_installed 0 2).
Proof.
  destruct (destroy_by_id_refused peer_a 7 (world_installed 0 2)
              (mkPeer true [(5, owner_a)] [(node_a, owner_a)] 1))
    as [H1 _]; [reflexivity|].
  destruct (destroy_by_id_refused peer_a 5 (world_installed 0 2)
              (mkPeer true [(5, owner_a)] [(node_a, owner_a)] 1))
    as [_ H2]; [reflexivity|].
  split; [apply H1; reflexivity|].
  destruct (H2 owner_a (handle_installed 0)) as (_ & _ & H3);
    [repeat constructor|reflexivity|reflexivity|simpl; lia|].
  apply (H3 (mkNode 1 [owner_a] 2)); [reflexivity|reflexivity|done].
Defined.

Lemma destroy_by_id_frees_lone_node_witness :
  bus1_handle_destroy_by_id peer_a 5 world_held = Some (0, world_gone) /\
  bus1_handle_destroy_by_id peer_a 5 world_gone
  = Some (- ENXIO, world_gone) /\
  bus1_handle_release_by_id peer_a 5 world_gone
  = Some (- ENXIO, world_gone).
Proof.
  refine (proj2 (destroy_by_id_frees_lone_node peer_a 5 world_held
            (mkPeer true [(5, owner_a)] [(node_a, owner_a)] 1)
            owner_a (mkHandle true node_a 5 (Some peer_a) 2 0 1)
            (mkNode 1 [owner_a] 0) _ _ _ _ _ _ _ _ _ _ _));
    try reflexivity.
  - repeat constructor.
  - apply Forall_cons_2; [reflexivity|apply Forall_nil_2].
Defined.

Lemma flush_all_disconnects_witness :
  exists w',
    bus1_handle_flush_all peer_a world_conflict = Some ([(5, owner_a)], w') /\
    nodes w' = nodes world_conflict /\
    (forall i, bus1_handle_find_by_id peer_a i w' = Some (None, w')) /\
    (forall i, bus1_handle_release_by_id peer_a i w' = Some (- ENXIO, w')) /\
    (forall i, bus1_handle_destroy_by_id peer_a i w' = Some (- ENXIO, w')).
Proof.
  assert (Hall : Forall (fun kv : Z * ptr =>
                           is_Some (handles world_conflict !! kv.2))
                        [(5, owner_a)]).
  { apply Forall_cons_2; [|apply Forall_nil_2].
    exists (handle_installed 0). reflexivity. }
  destruct (flush_all_disconnects peer_a world_conflict
              (mkPeer true [(5, owner_a)] [(node_a, owner_a)] 1) eq_refl
              Hall)
    as (w' & Hf & Hn & _ & _ & H1 & H2 & H3).
  exists w'. by repeat split.
Defined.

Lemma node_life_cycle_witness :
  exists w1 w2 w3 w4,
    bus1_handle_new (Some node_b) world_fresh
    = Some (Some (owner_of node_b), w1) /\
    bus1_handle_attach_unlocked (owner_of node_b) peer_a w1 = Some (true, w2) /\
    bus1_handle_install_unlocked 1 (owner_of node_b) w2
    = Some (Some (owner_of node_b), w3) /\
    bus1_handle_release (owner_of node_b) w3 = Some (tt, w4) /\
    bus1_handle_unref (owner_of node_b) w4
    = Some (tt, mkWorld (handles world_fresh) (nodes world_fresh)
                  {[ peer_a := mkPeer true [] [] 1 ]}).
Proof.
  destruct (node_life_cycle 1 node_b peer_a (mkPeer true [] [] 0)
              world_fresh eq_refl eq_refl eq_refl eq_refl
              (Forall_nil_2 _) (Forall_nil_2 _))
    as (w1 & w2 & w3 & w4 & hr3 & H1 & H2 & H3 & _ & _ & _ & _ & _ & H4 & H5).
  exists w1, w2, w3, w4. repeat split; try assumption.
Defined.

Lemma release_by_id_counts_witness :
  bus1_handle_release_by_id peer_a 5 (world_installed 2 0)
  = Some (0, world_installed 1 0).
Proof.
  assert (Hs : by_id_sorted [(5, owner_a)]) by repeat constructor.
  assert (Hr : 1 <= 3 < 2 ^ 31 - 1) by lia.
  destruct (release_by_id_counts peer_a 5 (world_installed 2 0)
              (mkPeer true [(5, owner_a)] [(node_a, owner_a)] 1)
              owner_a (handle_installed 2) eq_refl Hs eq_refl eq_refl Hr)
    as (_ & H & _).
  rewrite H by (simpl; lia). reflexivity.
Defined.

Lemma attach_needs_owner_witness :
  bus1_handle_attach handle_b peer_b (world_destroyed 2)
  = Some (false, world_destroyed 2) /\
  bus1_handle_pin handle_b (world_destroyed 2)
  = Some (None, world_destroyed 2).
Proof.
  destruct (attach_needs_owner handle_b
              (mkHandle true node_a 9 None 2 1 0)
              (mkHandle true node_a 5 None 1 0 0) peer_b (world_destroyed 2)
              eq_refl ltac:(done) eq_refl eq_refl) as (H1 & H2 & _).
  by split.
Defined.

Lemma attach_then_pin_witness :
  exists w1 w2,
    bus1_handle_attach handle_b peer_b world_copied = Some (true, w1) /\
    bus1_handle_pin handle_b w1 = Some (Some peer_a, w2).
Proof.
  destruct (attach_then_pin handle_b (handle_private node_a)
              (handle_installed 0) peer_b peer_a
              (mkPeer true [(5, owner_a)] [(node_a, owner_a)] 1)
              (mkNode 2 [owner_a] 0) world_copied
              eq_refl ltac:(done) eq_refl eq_refl ltac:(simpl; lia)
              eq_refl eq_refl eq_refl eq_refl eq_refl) as [H1 H2].
  eexists. eexists. split; [exact H1|exact H2].
Defined.

(** X30.  The last inflight reference of a handle that is not the owner.
    When [bus1_handle_release] drops it while the owner of the node is held
    by another, active peer and the node's list has a further handle, the
    handle loses its holder, leaves both trees of its peer and the list of
    the node, and gives back the two object references that the tree and
    the list held; the node itself is not destroyed.  The handle is dead
    from then on: [bus1_handle_acquire] returns NULL and changes
    nothing. *)
Theorem release_last_holder h hr p pr q qr or_ nr w :
  handles w !! h = Some hr -> h <> owner_of (node hr) ->
  rb_linked hr = true -> holder hr = Some p -> n_inflight hr = 1 ->
  3 <= ref hr < 2 ^ 31 ->
  peers w !! p = Some pr -> active pr = true ->
  handles w !! owner_of (node hr) = Some or_ -> holder or_ = Some q ->
  p <> q -> peers w !! q = Some qr -> active qr = true ->
  nodes w !! node hr = Some nr -> timestamp nr = 0 ->
  (exists x, x ∈ list_handles nr /\ x <> h) ->
  let w' :=
    mkWorld
      (<[h := mkHandle true (node hr) (id hr) None (ref hr - 2) 0
                       (n_user hr)]> (handles w))
      (<[node hr := mkNode (node_ref nr)
                           (filter (fun x => x <> h) (list_handles nr))
                           0]> (nodes w))
      (<[p := mkPeer (active pr) (tree_erase h (map_handles_by_id pr))
                     (tree_erase h (map_handles_by_node pr))
                     (handle_ids pr)]> (peers w)) in
  bus1_handle_release h w = Some (tt, w') /\
  bus1_handle_acquire h w' = Some (None, w').
Proof.
  intros Hh Hno Hlinked Hhold Hinf Hr Hp Hact Ho Hq Hpq Hqr Hactq Hn Hts
    (x & Hx & Hxh) w'. subst w'.
  destruct w as [hs ns ps]. cbn [handles nodes peers] in *.
  assert (Hr1 : int32 (ref hr - 1) = ref hr - 1) by (apply int32_id; lia).
  assert (Hr2 : int32 (ref hr - 1 - 1) = ref hr - 2).
  { rewrite int32_id by lia. lia. }
  split.
  - unfold bus1_handle_release. mrun. unfold bus1_handle_is_public.
    rewrite Hinf, Hhold. change (0 <=? 1) with true.
    change (1 =? 1) with true. cbn [negb]. unfold bus1_peer_acquire. mrun.
    rewrite Hact. cbv iota. unfold bus1_handle_release_last. mrun.
    unfold bus1_handle_is_owner. rewrite bool_decide_eq_false_2 by done.
    unfold bus1_handle_release_holder. mrun. rewrite Hinf, Hhold.
    change (int32 (1 - 1)) with 0. change (0 =? 0) with true. cbn [negb].
    mrun. unfold bus1_handle_unlink_rb. mrun.
    cbn [rb_linked set_holder set_n_inflight]. rewrite Hlinked. mrun.
    erewrite (bind_eq (bus1_handle_unref _)).
    2:{ apply unref_eq; [look|].
        cbn [ref set_holder set_n_inflight]. lia. }
    cbn [ref set_holder set_n_inflight]. rewrite Hr1.
    unfold bus1_handle_lock_owner. mrun.
    cbn [node set_ref set_holder set_n_inflight]. mrun. rewrite Hq.
    unfold bus1_peer_acquire. mrun. rewrite Hactq. cbv iota. mrun.
    rewrite Hts. change (0 =? 0) with true. cbv iota.
    unfold list_del_init. mrun.
    erewrite (bind_eq (bus1_handle_unref _)).
    2:{ apply unref_eq; [look|].
        cbn [ref set_ref set_holder set_n_inflight]. lia. }
    cbn [ref set_ref set_holder set_n_inflight]. rewrite Hr2. mrun.
    cbn [list_handles set_list_handles].
    destruct (filter (fun x => x <> h) (list_handles nr)) as [|y l] eqn:Hf.
    + exfalso. assert (x ∈ filter (fun x => x <> h) (list_handles nr)) as Hin
        by (apply list_elem_of_filter; done).
      rewrite Hf in Hin. by apply elem_of_nil in Hin.
    + unfold mret, M_ret. rewrite !insert_insert_eq.
      destruct hr, nr; cbn in *; subst. rewrite Hact. reflexivity.
  - unfold bus1_handle_acquire. mrun. unfold bus1_handle_is_public.
    cbn [n_inflight]. change (0 <=? 0) with true.
    change (0 =? 0) with true. cbn [negb]. unfold bus1_handle_is_owner.
    cbn [node]. rewrite bool_decide_eq_false_2 by done. reflexivity.
Qed.

Lemma release_last_holder_witness :
  exists w',
    bus1_handle_release handle_b world_shared = Some (tt, w') /\
    bus1_handle_acquire handle_b w' = Some (None, w').
Proof.
  assert (Hother : exists x, x ∈ [owner_a; handle_b] /\ x <> handle_b).
  { exists owner_a. split; [apply elem_of_cons; by left|done]. }
  assert (Hb : handle_b <> owner_of node_a) by done.
  assert (Hpq : peer_b <> peer_a) by done.
  assert (Hr : 3 <= 3 < 2 ^ 31) by lia.
  destruct (release_last_holder handle_b
              (mkHandle true node_a 9 (Some peer_b) 3 1 0)
              peer_b (mkPeer true [(9, handle_b)] [(node_a, handle_b)] 2)
              peer_a (mkPeer true [(5, owner_a)] [(node_a, owner_a)] 1)
              (handle_installed 0) (mkNode 2 [owner_a; handle_b] 0)
              world_shared
              eq_refl Hb eq_refl eq_refl eq_refl Hr
              eq_refl eq_refl eq_refl eq_refl Hpq eq_refl eq_refl
              eq_refl eq_refl Hother)
    as [H1 H2].
  eexists. split; [exact H1|exact H2].
Defined.

End HandleFacts.
